(** * Task-Manager-V2: board reconciliation, cache mutations, endpoints, analytics

    A shallow embedding of the parts of the task tracker that carry design
    content, and the properties its specification states about them:

    - [src/components/TaskBoard.tsx]: the lanes of the board and
      [handleDragEnd];
    - [src/hooks/use-tasks.ts] and
      [src/components/providers/query-provider.tsx]: the fetch helpers, the
      optimistic task-update mutation and the retry policy;
    - the task and project route handlers;
    - [src/components/AnalyticsCharts.tsx]: the summary computed over a task
      list.

    JavaScript objects that are shared and mutated in place (the task objects
    held at once by the query cache, by the [tasks] prop and by the lanes of
    the board) live in an explicit object store; arrays that are only ever
    replaced are plain lists of references. *)

From Stdlib Require Import ZArith QArith Qround Lia Ascii String Sorted.
From stdpp Require Import base option list strings pretty gmap.

Local Open Scope Z_scope.
Local Open Scope nat_scope.

(** ** Shared data model ([src/types/index.ts]) *)

Inductive TaskStatus := TODO | IN_PROGRESS | REVIEW | DONE.
Inductive TaskPriority := LOW | MEDIUM | HIGH | URGENT.

#[global] Instance TaskStatus_eq_dec : EqDecision TaskStatus.
Proof. solve_decision. Defined.
#[global] Instance TaskPriority_eq_dec : EqDecision TaskPriority.
Proof. solve_decision. Defined.

(** A task. Instants are milliseconds since the epoch. [order] is a
    JavaScript number that only ever holds integers. The optional fields are
    [None] when the JavaScript property is [undefined] or [null]; [createdAt]
    is optional here because the analytics code tests it for truthiness. The
    [tags] relation is kept in its own table on the server and plays no role
    on the client paths embedded here. *)
Record Task := mkTask {
  id : string;
  title : string;
  description : option string;
  status : TaskStatus;
  priority : TaskPriority;
  deadline : option Z;
  order : Z;
  projectId : string;
  userId : string;
  createdAt : option Z;
  updatedAt : Z;
  completedAt : option Z;
  estimatedHours : option Q;
  actualHours : option Q
}.

Definition set_order (t : Task) (o : Z) : Task :=
  mkTask (id t) (title t) (description t) (status t) (priority t) (deadline t)
         o (projectId t) (userId t) (createdAt t) (updatedAt t)
         (completedAt t) (estimatedHours t) (actualHours t).

Definition set_status (t : Task) (s : TaskStatus) : Task :=
  mkTask (id t) (title t) (description t) s (priority t) (deadline t)
         (order t) (projectId t) (userId t) (createdAt t) (updatedAt t)
         (completedAt t) (estimatedHours t) (actualHours t).

(** [Partial<Task>]: the properties a caller supplies. Spreading it over a
    task, [{ ...task, ...updates }], overrides exactly the supplied ones. *)
Record TaskUpdates := mkUpdates {
  u_title : option string;
  u_description : option string;
  u_status : option TaskStatus;
  u_priority : option TaskPriority;
  u_deadline : option Z;
  u_order : option Z;
  u_projectId : option string;
  u_completedAt : option Z;
  u_estimatedHours : option Q;
  u_actualHours : option Q
}.

Definition no_updates : TaskUpdates :=
  mkUpdates None None None None None None None None None None.

Definition merge (t : Task) (u : TaskUpdates) : Task :=
  mkTask (id t)
         (default (title t) (u_title u))
         (from_option Some (description t) (u_description u))
         (default (status t) (u_status u))
         (default (priority t) (u_priority u))
         (from_option Some (deadline t) (u_deadline u))
         (default (order t) (u_order u))
         (default (projectId t) (u_projectId u))
         (userId t) (createdAt t) (updatedAt t)
         (from_option Some (completedAt t) (u_completedAt u))
         (from_option Some (estimatedHours t) (u_estimatedHours u))
         (from_option Some (actualHours t) (u_actualHours u)).

(** ** JavaScript numbers

    A number is a rational, an infinity or [NaN]. Rationals are kept in
    lowest terms, so equal numbers are equal terms. The rounding of doubles
    and the sign of zero are not represented; the quantities computed here
    are small integers and their quotients. *)

Inductive JsNum := Num (q : Q) | Infinity (negative : bool) | NaN.

Definition num (q : Q) : JsNum := Num (Qred q).
Definition of_Z (z : Z) : JsNum := num (inject_Z z).
Definition of_nat (n : nat) : JsNum := of_Z (Z.of_nat n).

Definition Qneg (q : Q) : bool := negb (Qle_bool 0 q).
Definition Qzero (q : Q) : bool := Qeq_bool q 0.

(** [a / b] *)
Definition js_div (a b : JsNum) : JsNum :=
  match a, b with
  | NaN, _ | _, NaN => NaN
  | Infinity _, Infinity _ => NaN
  | Infinity s, Num q => Infinity (xorb s (Qneg q))
  | Num _, Infinity _ => num 0
  | Num p, Num q =>
      if Qzero q then (if Qzero p then NaN else Infinity (Qneg p))
      else num (p / q)
  end.

(** [a * b] *)
Definition js_mul (a b : JsNum) : JsNum :=
  match a, b with
  | NaN, _ | _, NaN => NaN
  | Infinity s, Infinity s' => Infinity (xorb s s')
  | Infinity s, Num q | Num q, Infinity s =>
      if Qzero q then NaN else Infinity (xorb s (Qneg q))
  | Num p, Num q => num (p * q)
  end.

(** [a + b] *)
Definition js_add (a b : JsNum) : JsNum :=
  match a, b with
  | NaN, _ | _, NaN => NaN
  | Infinity s, Infinity s' => if Bool.eqb s s' then Infinity s else NaN
  | Infinity s, Num _ | Num _, Infinity s => Infinity s
  | Num p, Num q => num (p + q)
  end.

(** [Math.ceil(a)] *)
Definition js_ceil (a : JsNum) : JsNum :=
  match a with
  | Num q => of_Z (Qceiling q)
  | other => other
  end.

Definition is_finite (a : JsNum) : bool :=
  match a with Num _ => true | _ => false end.

(** ** The object store

    Task objects are allocated once (when a response is parsed, or by an
    object spread) and then referred to by address. *)

Abbreviation addr := nat (only parsing).
Abbreviation Heap := (list Task) (only parsing).

Definition alloc (h : Heap) (t : Task) : Heap * addr := (h ++ [t], length h).

(** [task.order = o] on the object at [a]. *)
Definition write_order (h : Heap) (a : addr) (o : Z) : Heap :=
  match h !! a with
  | Some t => <[a := set_order t o]> h
  | None => h
  end.

(** The task values an array of references denotes in a store. *)
Definition view (h : Heap) (l : list addr) : list Task := omap (fun a => h !! a) l.

Definition valid (h : Heap) (l : list addr) : Prop := Forall (fun a => a < length h) l.

(** ** Client state

    One record for what the client holds: the object store, the board's
    [columns] state, the query cache entry [['tasks']] ([None] while it is
    [undefined]), the notifications shown so far, and whether the tasks
    query has been invalidated. [setQueryData] stores the array it is given;
    the query client's structural sharing, which may reuse deep-equal parts
    of the previous data, leaves the values unchanged and is not
    represented. *)

Record BoardColumn := mkColumn {
  col_id : TaskStatus;
  col_title : string;
  col_tasks : list addr;
  col_color : string
}.

Inductive Notice :=
  | BoardToast (ttl dsc : string) (destructive : bool)
  | ToastError (msg : string)
  | ToastSuccess (msg : string).

Record World := mkWorld {
  heap : Heap;
  columns : list BoardColumn;
  cache : option (list addr);
  notices : list Notice;
  invalidated : bool
}.

Definition set_heap (w : World) (h : Heap) : World :=
  mkWorld h (columns w) (cache w) (notices w) (invalidated w).
Definition setColumns (w : World) (cs : list BoardColumn) : World :=
  mkWorld (heap w) cs (cache w) (notices w) (invalidated w).
Definition setQueryData (w : World) (d : option (list addr)) : World :=
  mkWorld (heap w) (columns w) d (notices w) (invalidated w).
Definition notify (w : World) (n : Notice) : World :=
  mkWorld (heap w) (columns w) (cache w) (notices w ++ [n]) (invalidated w).
Definition invalidateQueries (w : World) : World :=
  mkWorld (heap w) (columns w) (cache w) (notices w) true.

(** ** The board ([src/components/TaskBoard.tsx]) *)

Module Board.

Definition BOARD_COLUMNS : list BoardColumn :=
  [ mkColumn TODO "To Do" [] "bg-gray-100";
    mkColumn IN_PROGRESS "In Progress" [] "bg-blue-50";
    mkColumn REVIEW "Review" [] "bg-yellow-50";
    mkColumn DONE "Done" [] "bg-green-50" ].

Definition set_tasks (c : BoardColumn) (l : list addr) : BoardColumn :=
  mkColumn (col_id c) (col_title c) l (col_color c).

Definition order_at (h : Heap) (a : addr) : Z :=
  match h !! a with Some t => order t | None => 0%Z end.

(** [.sort((a, b) => a.order - b.order)]: a stable sort on [order]. *)
Fixpoint insert_by_order (h : Heap) (a : addr) (l : list addr) : list addr :=
  match l with
  | [] => [a]
  | b :: l' =>
      if (order_at h a <=? order_at h b)%Z then a :: b :: l'
      else b :: insert_by_order h a l'
  end.

Definition sort_by_order (h : Heap) (l : list addr) : list addr :=
  foldr (insert_by_order h) [] l.

(** The effect of line 79 and the recomputation of the catch block: every
    lane is the tasks of its status, sorted by [order]. *)
Definition organize (h : Heap) (tasks : list addr) : list BoardColumn :=
  (fun column =>
     set_tasks column
       (sort_by_order h
          (filter (fun a => status <$> h !! a = Some (col_id column)) tasks)))
  <$> BOARD_COLUMNS.

(** [l.splice(i, 1)] and [l.splice(i, 0, x)]; a start beyond the end is
    clamped to the length. *)
Definition splice_remove {A} (i : nat) (l : list A) : list A :=
  take i l ++ drop (S i) l.
Definition splice_insert {A} (i : nat) (x : A) (l : list A) : list A :=
  take i l ++ x :: drop i l.

(** [tasks.forEach((task, index) => { task.order = index })], writing
    through to the shared objects. *)
Fixpoint renumber_from (k : nat) (l : list addr) (h : Heap) : Heap :=
  match l with
  | [] => h
  | a :: l' => renumber_from (S k) l' (write_order h a (Z.of_nat k))
  end.

Record DraggableLocation := mkLoc { droppableId : TaskStatus; index : nat }.

Record DropResult := mkDrop {
  destination : option DraggableLocation;
  source : DraggableLocation;
  draggableId : string
}.

#[global] Instance DraggableLocation_eq_dec : EqDecision DraggableLocation.
Proof. solve_decision. Defined.

Definition find_column (s : TaskStatus) (cs : list BoardColumn)
  : option (nat * BoardColumn) :=
  list_find (fun c => col_id c = s) cs.

(** [column.tasks.find(task => task.id === draggableId)] *)
Definition find_task (h : Heap) (l : list addr) (tid : string) : option Task :=
  snd <$> list_find (fun t => id t = tid) (view h l).

Definition tasks_at (cs : list BoardColumn) (i : nat) : list addr :=
  from_option col_tasks [] (cs !! i).

(** Lines 111-133: the optimistic update of the board, for a drag that got
    past the guards. [si] and [di] are the positions of the source and the
    destination column. *)
Definition optimistic_update (w : World) (si di : nat)
    (src dst : DraggableLocation) (draggedTask : Task) : World :=
  let cols1 :=
    alter (fun c => set_tasks c (splice_remove (index src) (col_tasks c)))
          si (columns w) in
  let updatedTask :=
    set_order (set_status draggedTask (droppableId dst)) (Z.of_nat (index dst)) in
  let '(h1, a) := alloc (heap w) updatedTask in
  let cols2 :=
    alter (fun c => set_tasks c (splice_insert (index dst) a (col_tasks c)))
          di cols1 in
  let h2 := renumber_from 0 (tasks_at cols2 di) h1 in
  setColumns (set_heap w h2) cols2.

Definition move_request (dst : DraggableLocation) : TaskUpdates :=
  mkUpdates None None (Some (droppableId dst)) None None
            (Some (Z.of_nat (index dst))) None None None None.

(** Lines 90-109 and 111-133 of [handleDragEnd]: the guards, then the
    optimistic update. [None] when a guard returns early; otherwise the
    board after [setColumns(newColumns)], the destination column found at
    line 104, and the arguments of the [onTaskUpdate] call. *)
Definition reconcile (result : DropResult) (w : World)
  : option (World * BoardColumn * (string * TaskUpdates)) :=
  match destination result with
  | None => None
  | Some dst =>
      let src := source result in
      if decide (droppableId dst = droppableId src /\ index dst = index src)
      then None
      else
        match find_column (droppableId src) (columns w),
              find_column (droppableId dst) (columns w) with
        | Some (si, sourceColumn), Some (di, destColumn) =>
            match find_task (heap w) (col_tasks sourceColumn) (draggableId result) with
            | None => None
            | Some draggedTask =>
                Some (optimistic_update w si di src dst draggedTask,
                      destColumn,
                      (draggableId result, move_request dst))
            end
        | _, _ => None
        end
  end.

(** [handleDragEnd]. [tasks] is the prop the component was rendered with;
    [onTaskUpdate] is the callback prop, a computation on the client state
    that settles as resolved ([true]) or rejected ([false]). *)
Definition handleDragEnd (tasks : list addr)
    (onTaskUpdate : string -> TaskUpdates -> World -> World * bool)
    (result : DropResult) (w : World) : World :=
  match reconcile result w with
  | None => w
  | Some (w1, destColumn, (taskId, updates)) =>
      let '(w2, resolved) := onTaskUpdate taskId updates w1 in
      if resolved then
        notify w2 (BoardToast "Task moved"
                     ("Task moved to " +:+ col_title destColumn) false)
      else
        notify (setColumns w2 (organize (heap w2) tasks))
               (BoardToast "Error" "Failed to move task. Please try again." true)
  end.

Definition lane_addrs (cs : list BoardColumn) (s : TaskStatus) : list addr :=
  match find_column s cs with
  | Some (_, c) => col_tasks c
  | None => []
  end.

(** The tasks a lane shows, as values. *)
Definition lane (w : World) (s : TaskStatus) : list Task :=
  view (heap w) (lane_addrs (columns w) s).

(** What the [forEach] of line 129 leaves in a lane: position [k] holds
    order [k]. *)
Definition renumbered (l : list Task) : list Task :=
  imap (fun k t => set_order t (Z.of_nat k)) l.

Definition all_addrs (cs : list BoardColumn) : list addr :=
  mjoin (col_tasks <$> cs).

(** A rendered board: the four lanes of [BOARD_COLUMNS], whose entries are
    distinct live objects. *)
Record wf_board (w : World) : Prop := {
  wf_ids : col_id <$> columns w = col_id <$> BOARD_COLUMNS;
  wf_nodup : NoDup (all_addrs (columns w));
  wf_valid : valid (heap w) (all_addrs (columns w))
}.

End Board.

(** ** The query client ([src/hooks/use-tasks.ts],
       [src/components/providers/query-provider.tsx]) *)

Module Cache.

(** A thrown value, as the retry callbacks read it: its [message] and its
    [status] property, [None] when the object has none. *)
Record JsError := mkError { message : string; err_status : option nat }.

(** [new Error(msg)]: an [Error] object has no [status] property. *)
Definition new_Error (msg : string) : JsError := mkError msg None.

(** [ApiResponse<T>] as the helpers read it, and a settled [fetch]
    response. [json] is [inl m] when [response.json()] rejects, with the
    engine's [SyntaxError] message [m]. *)
Record ApiResponse (T : Type) := mkApi {
  success : bool;
  data : option T;
  error : option string
}.
Arguments mkApi {T}.
Arguments success {T}.
Arguments data {T}.
Arguments error {T}.

Record Response (T : Type) := mkResponse {
  ok : bool;
  http_status : nat;
  statusText : string;
  json : string + ApiResponse T
}.
Arguments mkResponse {T}.
Arguments ok {T}.
Arguments http_status {T}.
Arguments statusText {T}.
Arguments json {T}.

(** [s || d] on a possibly undefined string: the empty string is falsy. *)
Definition or_else (s : option string) (d : string) : string :=
  match s with
  | Some s' => if decide (s' = "") then d else s'
  | None => d
  end.

(** Lines 11-14, 36-39 and 61-64: what the helpers throw for a response
    that is not [ok]. [response.json().catch(() => ({}))] yields an object
    without [error] when the body does not parse. *)
Definition http_failure {T} (response : Response T) : JsError :=
  let errorData_error :=
    match json response with
    | inr d => error d
    | inl _ => None
    end in
  new_Error (or_else errorData_error
               ("HTTP " +:+ pretty (http_status response) +:+ ": "
                        +:+ statusText response)).

Definition read_response {T R} (fallback : string)
    (extract : ApiResponse T -> R) (response : Response T) : JsError + R :=
  if negb (ok response) then inl (http_failure response)
  else
    match json response with
    | inl m => inl (new_Error m)
    | inr d =>
        if negb (success d) then inl (new_Error (or_else (error d) fallback))
        else inr (extract d)
    end.

(** [fetchTasks]: [data.data?.tasks || []]. *)
Definition fetchTasks (response : Response (option (list Task)))
  : JsError + list Task :=
  read_response "Failed to fetch tasks"
    (fun d => default [] (mjoin (data d))) response.

(** [updateTask]: [data.data!]. *)
Definition updateTask (response : Response Task) : JsError + option Task :=
  read_response "Failed to update task" data response.

(** [defaultOptions.queries.retry] and [defaultOptions.mutations.retry]. *)
Definition auth_denied (e : JsError) : bool :=
  bool_decide (err_status e = Some 401) || bool_decide (err_status e = Some 403).

Definition queries_retry (failureCount : nat) (e : JsError) : bool :=
  if auth_denied e then false else failureCount <? 3.

Definition mutations_retry (failureCount : nat) (e : JsError) : bool :=
  if auth_denied e then false else failureCount <? 1.

(** The query client's retryer, as the library documents it: a failed
    attempt is repeated while the callback, given the number of failures
    before this one and the error, answers [true]. [attempt k] is the outcome
    of attempt number [k]; [fuel] bounds the attempts looked at. The result
    carries the number of attempts made. *)
Fixpoint settle {R} (retry : nat -> JsError -> bool)
    (attempt : nat -> JsError + R) (fuel failureCount : nat)
  : option (nat * (JsError + R)) :=
  match fuel with
  | 0 => None
  | S fuel' =>
      match attempt failureCount with
      | inr v => Some (S failureCount, inr v)
      | inl e =>
          if retry failureCount e
          then settle retry attempt fuel' (S failureCount)
          else Some (S failureCount, inl e)
      end
  end.

(** Line 98: [old?.map(task => task.id === taskId ? { ...task, ...updates }
    : task)]. A matching task is replaced by a fresh object, any other
    entry is the same object as before. *)
Fixpoint optimistic_map (taskId : string) (updates : TaskUpdates)
    (h : Heap) (old : list addr) : Heap * list addr :=
  match old with
  | [] => (h, [])
  | a :: rest =>
      let '(h1, a1) :=
        match h !! a with
        | Some task =>
            if decide (id task = taskId) then alloc h (merge task updates)
            else (h, a)
        | None => (h, a)
        end in
      let '(h2, rest') := optimistic_map taskId updates h1 rest in
      (h2, a1 :: rest')
  end.

(** What line 98 does to one task value, for the statements below. *)
Definition apply_update (taskId : string) (updates : TaskUpdates) (t : Task) : Task :=
  if decide (id t = taskId) then merge t updates else t.

(** Entry by entry, a task that is not the target is the same object. *)
Definition same_unless_target (taskId : string) (h : Heap) (a b : addr) : Prop :=
  forall t, h !! a = Some t -> id t <> taskId -> b = a.

(** [onMutate]: the snapshot, then the optimistic write. The result is the
    context object's [previousTasks]. *)
Definition onMutate (taskId : string) (updates : TaskUpdates) (w : World)
  : World * option (list addr) :=
  let previousTasks := cache w in
  let w1 :=
    match cache w with
    | Some old =>
        let '(h1, new) := optimistic_map taskId updates (heap w) old in
        setQueryData (set_heap w h1) (Some new)
    | None => setQueryData w (Some [])
    end in
  (w1, previousTasks).

(** [onError]: an array is truthy, [undefined] is not. *)
Definition onError (err : JsError) (previousTasks : option (list addr))
    (w : World) : World :=
  let w1 :=
    match previousTasks with
    | Some snapshot => setQueryData w (Some snapshot)
    | None => w
    end in
  notify w1 (ToastError (or_else (Some (message err)) "Failed to update task")).

Definition onSuccess (w : World) : World :=
  notify w (ToastSuccess "Task updated successfully").

Definition onSettled (w : World) : World := invalidateQueries w.

(** [useUpdateTask().mutateAsync({ taskId, updates })]: [responses k] is the
    server's answer to attempt [k] of the request. The promise resolves
    ([true]) or rejects ([false]). Two attempts at most are made under
    [mutations_retry]. *)
Definition mutateAsync (responses : nat -> Response Task)
    (taskId : string) (updates : TaskUpdates) (w : World) : World * bool :=
  let '(w1, previousTasks) := onMutate taskId updates w in
  match settle mutations_retry (fun k => updateTask (responses k)) 2 0 with
  | Some (_, inr _) => (onSettled (onSuccess w1), true)
  | Some (_, inl err) => (onSettled (onError err previousTasks w1), false)
  | None => (w1, false)
  end.

(** [handleTaskUpdate] of [src/app/dashboard/page.tsx]: the rejection is
    caught and logged, so the promise handed to the board always resolves. *)
Definition handleTaskUpdate (responses : nat -> Response Task)
    (taskId : string) (updates : TaskUpdates) (w : World) : World * bool :=
  (fst (mutateAsync responses taskId updates w), true).

End Cache.

(** ** The analytics summary ([src/components/AnalyticsCharts.tsx]) *)

Module Analytics.

Record Summary := mkSummary {
  totalTasks : nat;
  completedTasks : nat;
  pendingTasks : nat;
  overdueTasks : nat;
  completionRate : JsNum;
  avgCompletionTime : JsNum
}.

Definition MS_PER_DAY : Z := 1000 * 60 * 60 * 24.

(** Lines 58-62; [now] is [new Date()]. *)
Definition overdue (now : Z) (task : Task) : Prop :=
  match deadline task with
  | Some d => (d < now)%Z /\ status task <> DONE
  | None => False
  end.

#[global] Instance overdue_dec now task : Decision (overdue now task).
Proof. unfold overdue. destruct (deadline task); apply _. Defined.

(** Lines 67-71: both dates are tested for truthiness. *)
Definition done_with_dates (task : Task) : Prop :=
  status task = DONE /\ is_Some (completedAt task) /\ is_Some (createdAt task).

(** Lines 75-78 *)
Definition diffInDays (task : Task) : JsNum :=
  js_ceil (js_div (of_Z (default 0%Z (completedAt task) - default 0%Z (createdAt task)))
                  (of_Z MS_PER_DAY)).

(** Lines 54-91 *)
Definition analytics (now : Z) (tasks : list Task) : Summary :=
  let totalTasks := length tasks in
  let completedTasks := length (filter (fun task => status task = DONE) tasks) in
  let pendingTasks := totalTasks - completedTasks in
  let overdueTasks := length (filter (overdue now) tasks) in
  let completionRate :=
    if 0 <? totalTasks
    then js_mul (js_div (of_nat completedTasks) (of_nat totalTasks)) (of_nat 100)
    else of_nat 0 in
  let completedTasksWithDates := filter done_with_dates tasks in
  let avgCompletionTime :=
    if 0 <? length completedTasksWithDates
    then js_div (foldl (fun acc task => js_add acc (diffInDays task))
                       (of_nat 0) completedTasksWithDates)
                (of_nat (length completedTasksWithDates))
    else of_nat 0 in
  mkSummary totalTasks completedTasks pendingTasks overdueTasks
            completionRate avgCompletionTime.

End Analytics.

(** ** The route handlers

    [/api/projects/[id]], [/api/tasks] and [/api/tasks/[id]]. The entity
    store is a value threaded through the handlers; the session is the id of
    the signed-in user, if any. *)

Module Api.

(** *** Request bodies and their validation *)

#[warnings="-register-all"]
Inductive Json :=
  | JNull
  | JBool (b : bool)
  | JNum (q : Q)
  | JStr (s : string)
  | JArr (l : list Json)
  | JObj (fields : list (string * Json)).

(** [typeof]-like name used in validation issues; [None] is [undefined]. *)
Definition received (v : option Json) : string :=
  match v with
  | None => "undefined"
  | Some JNull => "null"
  | Some (JBool _) => "boolean"
  | Some (JNum _) => "number"
  | Some (JStr _) => "string"
  | Some (JArr _) => "array"
  | Some (JObj _) => "object"
  end.

(** JavaScript truthiness *)
Definition truthy (v : option Json) : bool :=
  match v with
  | None | Some JNull => false
  | Some (JBool b) => b
  | Some (JNum q) => negb (Qzero q)
  | Some (JStr s) => negb (bool_decide (s = ""))
  | Some (JArr _) | Some (JObj _) => true
  end.

Fixpoint get_field (k : string) (fields : list (string * Json)) : option Json :=
  match fields with
  | [] => None
  | (k', v) :: rest => if decide (k' = k) then Some v else get_field k rest
  end.

(** [body.k]; a property read on a primitive gives [undefined]. *)
Definition prop (k : string) (body : Json) : option Json :=
  match body with
  | JObj fields => get_field k fields
  | _ => None
  end.

(** A validation issue. The text of the validation library's built-in
    messages is not part of this repository: an issue raised without a
    message of the schema's own carries its code instead. *)
Inductive ZodCode :=
  | invalid_type (expected actual : string)
  | too_small_string (minimum : nat)
  | too_big_string (maximum : nat)
  | invalid_enum_value (options : list string) (actual : string)
  | invalid_datetime
  | not_an_integer
  | too_small_number (minimum : Z) (inclusive : bool).

Inductive Message :=
  | Text (s : string)
  | BuiltIn (code : ZodCode).

Record ZodIssue := mkIssue { path : list string; issue_message : Message }.

(** The outcome of parsing one value: the parsed value, or the issues. *)
Inductive Parsed (A : Type) :=
  | Valid (a : A)
  | Invalid (issues : list ZodIssue).
Arguments Valid {A}.
Arguments Invalid {A}.

Definition issues_of {A} (p : Parsed A) : list ZodIssue :=
  match p with Valid _ => [] | Invalid l => l end.

Definition value_of {A} (p : Parsed A) : option A :=
  match p with Valid a => Some a | Invalid _ => None end.

Definition check (ok : bool) (i : ZodIssue) : list ZodIssue :=
  if ok then [] else [i].

Definition conclude {A} (a : A) (issues : list ZodIssue) : Parsed A :=
  match issues with [] => Valid a | _ => Invalid issues end.

(** [z.string()] followed by length checks, each with its own message. *)
Definition z_string (p : list string) (min : option (nat * Message))
    (max : option nat) (v : option Json) : Parsed string :=
  match v with
  | Some (JStr s) =>
      conclude s
        (match min with
         | Some (n, m) => check (n <=? String.length s) (mkIssue p m)
         | None => []
         end ++
         match max with
         | Some n => check (String.length s <=? n)
                       (mkIssue p (BuiltIn (too_big_string n)))
         | None => []
         end)
  | _ => Invalid [mkIssue p (BuiltIn (invalid_type "string" (received v)))]
  end.

(** [.optional()] and [.optional().nullable()] *)
Definition z_optional {A} (parse : option Json -> Parsed A) (v : option Json)
  : Parsed (option A) :=
  match v with
  | None => Valid None
  | _ => match parse v with Valid a => Valid (Some a) | Invalid l => Invalid l end
  end.

Definition z_nullable {A} (parse : option Json -> Parsed (option A))
    (v : option Json) : Parsed (option A) :=
  match v with
  | Some JNull => Valid None
  | _ => parse v
  end.

(** [z.enum([...])], given the names of the options. *)
Definition z_enum {A} (p : list string) (options : list (string * A))
    (v : option Json) : Parsed A :=
  match v with
  | Some (JStr s) =>
      match list_find (fun o => o.1 = s) options with
      | Some (_, (_, a)) => Valid a
      | None => Invalid [mkIssue p (BuiltIn (invalid_enum_value (fst <$> options) s))]
      end
  | _ => Invalid [mkIssue p (BuiltIn (invalid_type "enum" (received v)))]
  end.

Definition priorities : list (string * TaskPriority) :=
  [("LOW", LOW); ("MEDIUM", MEDIUM); ("HIGH", HIGH); ("URGENT", URGENT)].

Definition statuses : list (string * TaskStatus) :=
  [("TODO", TODO); ("IN_PROGRESS", IN_PROGRESS); ("REVIEW", REVIEW); ("DONE", DONE)].

(** [z.array(z.string())]: the issues of element [i] have path [p ++ [i]]. *)
Definition z_string_array (p : list string) (v : option Json)
  : Parsed (list string) :=
  match v with
  | Some (JArr l) =>
      let parsed :=
        imap (fun i x => z_string (p ++ [pretty i]) None None (Some x)) l in
      conclude (omap value_of parsed) (parsed ≫= issues_of)
  | _ => Invalid [mkIssue p (BuiltIn (invalid_type "array" (received v)))]
  end.

Definition is_integer (q : Q) : bool := Qeq_bool q (inject_Z (Qfloor q)).

(** [z.number().positive()] *)
Definition z_positive (p : list string) (v : option Json) : Parsed Q :=
  match v with
  | Some (JNum q) =>
      conclude q (check (negb (Qle_bool q 0))
                    (mkIssue p (BuiltIn (too_small_number 0 false))))
  | _ => Invalid [mkIssue p (BuiltIn (invalid_type "number" (received v)))]
  end.

(** [z.number().int().min(0)] *)
Definition z_order (p : list string) (v : option Json) : Parsed Z :=
  match v with
  | Some (JNum q) =>
      conclude (Qfloor q)
        (check (is_integer q) (mkIssue p (BuiltIn not_an_integer)) ++
         check (Qle_bool 0 q) (mkIssue p (BuiltIn (too_small_number 0 true))))
  | _ => Invalid [mkIssue p (BuiltIn (invalid_type "number" (received v)))]
  end.

(** For the statements below: every issue a key raises is filed under that key, and a rejected value
    raises at least one. *)
Definition filed_under (key : string) {A} (p : Parsed A) : Prop :=
  match p with
  | Valid _ => True
  | Invalid l => l <> [] /\ Forall (fun i => head (path i) = Some key) l
  end.

Section Schemas.

(** The library's ISO-8601 test behind [z.string().datetime()]. *)
Variable is_datetime : string -> bool.

Definition z_datetime (p : list string) (v : option Json) : Parsed string :=
  match v with
  | Some (JStr s) =>
      conclude s (check (is_datetime s) (mkIssue p (BuiltIn invalid_datetime)))
  | _ => Invalid [mkIssue p (BuiltIn (invalid_type "string" (received v)))]
  end.

(** [createTaskSchema], lines 166-174. *)
Record CreateTaskData := mkCreate {
  c_title : string;
  c_description : option string;
  c_priority : TaskPriority;
  c_deadline : option string;
  c_projectId : string;
  c_tagIds : option (list string);
  c_estimatedHours : option Q
}.

(** A [z.object] reports an issue when the input is not an object, and
    otherwise the issues of its keys, in the order of the schema. *)
Definition not_an_object (body : Json) : list ZodIssue :=
  [mkIssue [] (BuiltIn (invalid_type "object" (received (Some body))))].

Definition is_object (body : Json) : bool :=
  match body with JObj _ => true | _ => false end.

(** The keys of the schema, each applied to the matching property of the
    body. *)
Definition title_field (body : Json) : Parsed string :=
  z_string ["title"] (Some (1, Text "Title is required")) (Some 200)
           (prop "title" body).
Definition description_field (body : Json) : Parsed (option string) :=
  z_optional (z_string ["description"] None None) (prop "description" body).
Definition priority_field (body : Json) : Parsed TaskPriority :=
  z_enum ["priority"] priorities (prop "priority" body).
Definition deadline_field (body : Json) : Parsed (option string) :=
  z_optional (z_datetime ["deadline"]) (prop "deadline" body).
Definition projectId_field (body : Json) : Parsed string :=
  z_string ["projectId"] (Some (1, Text "Project ID is required")) None
           (prop "projectId" body).
Definition tagIds_field (body : Json) : Parsed (option (list string)) :=
  z_optional (z_string_array ["tagIds"]) (prop "tagIds" body).
Definition estimatedHours_field (body : Json) : Parsed (option Q) :=
  z_optional (z_positive ["estimatedHours"]) (prop "estimatedHours" body).

Definition createTaskSchema (body : Json) : Parsed CreateTaskData :=
  if negb (is_object body) then Invalid (not_an_object body) else
  match value_of (title_field body), value_of (description_field body),
        value_of (priority_field body), value_of (deadline_field body),
        value_of (projectId_field body), value_of (tagIds_field body),
        value_of (estimatedHours_field body) with
  | Some t, Some d, Some p, Some dl, Some pid, Some tg, Some eh =>
      Valid (mkCreate t d p dl pid tg eh)
  | _, _, _, _, _, _, _ =>
      Invalid (issues_of (title_field body) ++
               issues_of (description_field body) ++
               issues_of (priority_field body) ++
               issues_of (deadline_field body) ++
               issues_of (projectId_field body) ++
               issues_of (tagIds_field body) ++
               issues_of (estimatedHours_field body))
  end.

(** For the statements below: the issues each key of the schema raises on
    its own, in the order of the schema, and the first key that raises
    any. *)
Definition create_field_issues (body : Json) : list (string * list ZodIssue) :=
  [ ("title", issues_of (title_field body));
    ("description", issues_of (description_field body));
    ("priority", issues_of (priority_field body));
    ("deadline", issues_of (deadline_field body));
    ("projectId", issues_of (projectId_field body));
    ("tagIds", issues_of (tagIds_field body));
    ("estimatedHours", issues_of (estimatedHours_field body)) ].

Definition first_offending_field (body : Json) : option string :=
  (fun r => r.2.1) <$> list_find (fun kv => kv.2 <> []) (create_field_issues body).

(** [updateTaskSchema] of [/api/tasks/[id]], lines 420-431. *)
Record UpdateTaskData := mkUpdate {
  v_title : option string;
  v_description : option string;
  v_status : option TaskStatus;
  v_priority : option TaskPriority;
  v_deadline : option (option string);
  v_order : option Z;
  v_projectId : option string;
  v_tagIds : option (list string);
  v_estimatedHours : option Q;
  v_actualHours : option Q
}.

Definition updateTaskSchema (body : Json) : Parsed UpdateTaskData :=
  if negb (is_object body) then Invalid (not_an_object body) else
  let title := z_optional
                 (z_string ["title"] (Some (1, Text "Title is required")) (Some 200))
                 (prop "title" body) in
  let description := z_optional (z_string ["description"] None None)
                       (prop "description" body) in
  let status := z_optional (z_enum ["status"] statuses) (prop "status" body) in
  let priority := z_optional (z_enum ["priority"] priorities)
                    (prop "priority" body) in
  let deadline :=
    match prop "deadline" body with
    | None => Valid None
    | Some JNull => Valid (Some None)
    | v => match z_datetime ["deadline"] v with
           | Valid s => Valid (Some (Some s))
           | Invalid l => Invalid l
           end
    end in
  let order := z_optional (z_order ["order"]) (prop "order" body) in
  let projectId := z_optional
                     (z_string ["projectId"]
                        (Some (1, BuiltIn (too_small_string 1))) None)
                     (prop "projectId" body) in
  let tagIds := z_optional (z_string_array ["tagIds"]) (prop "tagIds" body) in
  let estimatedHours := z_optional (z_positive ["estimatedHours"])
                          (prop "estimatedHours" body) in
  let actualHours := z_optional (z_positive ["actualHours"])
                       (prop "actualHours" body) in
  match value_of title, value_of description, value_of status,
        value_of priority, value_of deadline, value_of order,
        value_of projectId, value_of tagIds, value_of estimatedHours,
        value_of actualHours with
  | Some t, Some d, Some s, Some p, Some dl, Some o, Some pid, Some tg,
    Some eh, Some ah =>
      Valid (mkUpdate t d s p dl o pid tg eh ah)
  | _, _, _, _, _, _, _, _, _, _ =>
      Invalid (issues_of title ++ issues_of description ++ issues_of status ++
               issues_of priority ++ issues_of deadline ++ issues_of order ++
               issues_of projectId ++ issues_of tagIds ++
               issues_of estimatedHours ++ issues_of actualHours)
  end.

End Schemas.

(** *** The entity store *)

Record Project := mkProject {
  p_id : string;
  p_name : string;
  p_description : option string;
  p_color : string;
  p_userId : string;
  p_createdAt : Z;
  p_updatedAt : Z
}.

(** [taskTags] holds the (task id, tag id) pairs of the join entity. *)
Record Db := mkDb {
  tasks : list Task;
  projects : list Project;
  taskTags : list (string * string)
}.

Definition set_tasks (db : Db) (l : list Task) : Db :=
  mkDb l (projects db) (taskTags db).
Definition set_projects (db : Db) (l : list Project) : Db :=
  mkDb (tasks db) l (taskTags db).
Definition set_taskTags (db : Db) (l : list (string * string)) : Db :=
  mkDb (tasks db) (projects db) l.

(** [prisma.task.findFirst({ where: { id, userId } })] and its project
    twin. *)
Definition find_task (tid uid : string) (db : Db) : option Task :=
  snd <$> list_find (fun t => id t = tid /\ userId t = uid) (tasks db).

Definition find_project (pid uid : string) (db : Db) : option Project :=
  snd <$> list_find (fun p => p_id p = pid /\ p_userId p = uid) (projects db).

(** A stable insertion sort, for [orderBy]. *)
Fixpoint insert_sorted {A} (le : A -> A -> bool) (x : A) (l : list A) : list A :=
  match l with
  | [] => [x]
  | y :: l' => if le x y then x :: y :: l' else y :: insert_sorted le x l'
  end.

Definition sort_on {A} (le : A -> A -> bool) (l : list A) : list A :=
  foldr (insert_sorted le) [] l.

(** The schema stores [status] and [priority] as strings. *)
Definition status_name (s : TaskStatus) : string :=
  match s with
  | TODO => "TODO" | IN_PROGRESS => "IN_PROGRESS"
  | REVIEW => "REVIEW" | DONE => "DONE"
  end.

Definition priority_name (p : TaskPriority) : string :=
  match p with
  | LOW => "LOW" | MEDIUM => "MEDIUM" | HIGH => "HIGH" | URGENT => "URGENT"
  end.

(** *** Replies *)

Record Pagination := mkPagination {
  total : nat;
  page : option Z;
  limit : option Z;
  totalPages : JsNum
}.

(** The [data] of a reply. The [project] and [tags] expansions of a
    returned task are joins over the store and are not repeated here. *)
Inductive Payload :=
  | NoPayload
  | TaskPayload (t : Task)
  | TasksPayload (l : list Task) (pagination : Pagination)
  | ProjectPayload (p : Project) (included : list Task) (count : nat).

Record Reply := mkReply {
  http : nat;
  r_success : option bool;
  r_data : Payload;
  r_error : option string;
  r_message : option Message
}.

Definition failure (code : nat) (err : string) : Reply :=
  mkReply code (Some false) NoPayload (Some err) None.

Definition validation_error (issues : list ZodIssue) : Reply :=
  mkReply 400 (Some false) NoPayload (Some "Validation error")
          (issue_message <$> head issues).

Definition succeed (code : nat) (d : Payload) (msg : option string) : Reply :=
  mkReply code (Some true) d None (Text <$> msg).

(** *** [/api/projects/[id]] *)

(** These three handlers answer a missing session without a [success]
    field. *)
Definition project_unauthorized : Reply :=
  mkReply 401 None NoPayload (Some "Unauthorized") None.

Definition GET_project (session : option string) (pid : string) (db : Db)
  : Reply * Db :=
  match session with
  | None => (project_unauthorized, db)
  | Some uid =>
      match find_project pid uid db with
      | None => (failure 404 "Project not found", db)
      | Some project =>
          let included :=
            sort_on (fun a b => (order a <=? order b)%Z)
                    (filter (fun t => projectId t = p_id project) (tasks db)) in
          (succeed 200 (ProjectPayload project included (length included)) None, db)
      end
  end.

(** What Prisma accepts for a [String] column ([nullable] for [String?]):
    [None] when it rejects the value and the call throws. *)
Definition as_string (v : Json) : option string :=
  match v with JStr s => Some s | _ => None end.

Definition as_nullable_string (v : Json) : option (option string) :=
  match v with
  | JStr s => Some (Some s)
  | JNull => Some None
  | _ => None
  end.

(** Lines 90-98: the [data] of the project update. [None] when a supplied
    value is not one the column accepts. *)
Definition project_update_data (body : Json) (now : Z) (p : Project)
  : option Project :=
  name' ← (if truthy (prop "name" body)
           then prop "name" body ≫= as_string else Some (p_name p));
  description' ← (match prop "description" body with
                  | Some v => as_nullable_string v
                  | None => Some (p_description p)
                  end);
  color' ← (if truthy (prop "color" body)
            then prop "color" body ≫= as_string else Some (p_color p));
  Some (mkProject (p_id p) name' description' color' (p_userId p)
                  (p_createdAt p) now).

(** [body] is [None] when [request.json()] rejects. Destructuring [null]
    throws, as does an update the store rejects; both end in the catch
    block. *)
Definition PUT_project (now : Z) (session : option string) (pid : string)
    (body : option Json) (db : Db) : Reply * Db :=
  match session with
  | None => (project_unauthorized, db)
  | Some uid =>
      match body with
      | None | Some JNull => (failure 500 "Failed to update project", db)
      | Some body =>
          match find_project pid uid db with
          | None => (failure 404 "Project not found", db)
          | Some existingProject =>
              match project_update_data body now existingProject with
              | None => (failure 500 "Failed to update project", db)
              | Some project =>
                  let count :=
                    length (filter (fun t => projectId t = pid) (tasks db)) in
                  (succeed 200 (ProjectPayload project [] count) None,
                   set_projects db
                     ((fun p => if decide (p_id p = pid) then project else p)
                      <$> projects db))
              end
          end
      end
  end.

(** Deleting a project cascades to its tasks, and from them to their tag
    associations ([onDelete: Cascade] in the schema). *)
Definition delete_task_rows (doomed : Task -> Prop) `{forall t, Decision (doomed t)}
    (db : Db) : Db :=
  let gone := id <$> filter doomed (tasks db) in
  mkDb (filter (fun t => ~ doomed t) (tasks db))
       (projects db)
       (filter (fun tt => tt.1 ∉ gone) (taskTags db)).

Definition DELETE_project (session : option string) (pid : string) (db : Db)
  : Reply * Db :=
  match session with
  | None => (project_unauthorized, db)
  | Some uid =>
      match find_project pid uid db with
      | None => (failure 404 "Project not found", db)
      | Some _ =>
          let db1 := delete_task_rows (fun t => projectId t = pid) db in
          (succeed 200 NoPayload (Some "Project deleted successfully"),
           set_projects db1 (filter (fun p => p_id p <> pid) (projects db1)))
      end
  end.

(** *** [/api/tasks] *)

Definition task_unauthorized : Reply := failure 401 "Unauthorized".

(** [parseInt(s)]: leading white space, a sign, then decimal digits, or
    hexadecimal ones after [0x]; [None] is [NaN]. *)
Definition is_space (c : ascii) : bool :=
  let n := nat_of_ascii c in
  bool_decide (n = 32 \/ (9 <= n /\ n <= 13)).

Fixpoint skip_spaces (s : string) : string :=
  match s with
  | String c s' => if is_space c then skip_spaces s' else s
  | EmptyString => s
  end.

Definition digit_value (radix : nat) (c : ascii) : option nat :=
  let n := nat_of_ascii c in
  let v := if bool_decide (48 <= n /\ n <= 57) then Some (n - 48)
           else if bool_decide (97 <= n /\ n <= 122) then Some (n - 87)
           else if bool_decide (65 <= n /\ n <= 90) then Some (n - 55)
           else None in
  match v with
  | Some d => if d <? radix then Some d else None
  | None => None
  end.

Fixpoint digits (radix : nat) (s : string) (acc : option Z) : option Z :=
  match s with
  | String c s' =>
      match digit_value radix c with
      | Some d => digits radix s' (Some (default 0 acc * Z.of_nat radix + Z.of_nat d)%Z)
      | None => acc
      end
  | EmptyString => acc
  end.

Definition parseInt (s : string) : option Z :=
  let s1 := skip_spaces s in
  let '(negative, s2) :=
    match s1 with
    | String "-"%char r => (true, r)
    | String "+"%char r => (false, r)
    | _ => (false, s1)
    end in
  let '(radix, s3) :=
    match s2 with
    | String "0"%char (String "x"%char r)
    | String "0"%char (String "X"%char r) => (16, r)
    | _ => (10, s2)
    end in
  (fun v => if negative : bool then (- v)%Z else v) <$> digits radix s3 None.

(** [searchParams.get(k)] *)
Definition get_param (k : string) (params : list (string * string)) : option string :=
  (fun r => r.2.2) <$> list_find (fun kv => kv.1 = k) params.

(** [s || d] on what [get] returns. *)
Definition param_or (k d : string) (params : list (string * string)) : string :=
  match get_param k params with
  | Some s => if decide (s = "") then d else s
  | None => d
  end.

Definition nonempty (o : option string) : option string :=
  match o with
  | Some s => if decide (s = "") then None else Some s
  | None => None
  end.

Section Handlers.

(** Collaborators outside the repository: the validation library's
    ISO-8601 test, [new Date(s).getTime()], the store's case-insensitive
    [contains], and the id the store gives a new record. *)
Variable is_datetime : string -> bool.
Variable parse_date : string -> Z.
Variable contains_insensitive : string -> string -> bool.
Variable new_id : Db -> string.

(** Lines 203-215: the [where] clause of the list read. *)
Definition matches (uid : string) (params : list (string * string)) (t : Task) : bool :=
  bool_decide (userId t = uid)
  && from_option (fun p => bool_decide (projectId t = p)) true
       (nonempty (get_param "projectId" params))
  && from_option (fun s => bool_decide (status_name (status t) = s)) true
       (nonempty (get_param "status" params))
  && from_option (fun p => bool_decide (priority_name (priority t) = p)) true
       (nonempty (get_param "priority" params))
  && from_option
       (fun q => contains_insensitive (title t) q
                 || from_option (fun d => contains_insensitive d q) false
                      (description t))
       true (nonempty (get_param "search" params)).

(** Lines 233-237: [status] ascending (as strings), then [order]
    ascending, then [createdAt] descending. *)
Definition list_order (a b : Task) : bool :=
  match String.compare (status_name (status a)) (status_name (status b)) with
  | Lt => true
  | Gt => false
  | Eq =>
      if (order a <? order b)%Z then true
      else if (order b <? order a)%Z then false
      else (default 0 (createdAt b) <=? default 0 (createdAt a))%Z
  end.

(** [findMany] with [skip] and [take]: a negative [take] counts from the
    end; a negative [skip], or a [NaN], is refused by the client ([None]). *)
Definition window (skip take : option Z) (rows : list Task) : option (list Task) :=
  match skip, take with
  | Some sk, Some tk =>
      if (sk <? 0)%Z then None
      else if (0 <=? tk)%Z then Some (firstn (Z.to_nat tk) (skipn (Z.to_nat sk) rows))
      else Some (rev (firstn (Z.to_nat (- tk)) (skipn (Z.to_nat sk) (rev rows))))
  | _, _ => None
  end.

Definition GET_tasks (session : option string) (params : list (string * string))
    (db : Db) : Reply * Db :=
  match session with
  | None => (task_unauthorized, db)
  | Some uid =>
      let page := parseInt (param_or "page" "1" params) in
      let limit := parseInt (param_or "limit" "50" params) in
      let found := filter (fun t => matches uid params t = true) (tasks db) in
      let skip := p ← page; l ← limit; Some ((p - 1) * l)%Z in
      match window skip limit (sort_on list_order found) with
      | None => (failure 500 "Internal server error", db)
      | Some rows =>
          let total := length found in
          let totalPages :=
            js_ceil (js_div (of_nat total) (from_option of_Z NaN limit)) in
          (succeed 200
             (TasksPayload rows (mkPagination total page limit totalPages)) None,
           db)
      end
  end.

(** Lines 296-304: [(lastTask?.order || 0) + 1]. *)
Definition nextOrder (uid : string) (db : Db) : Z :=
  let todo := filter (fun t => userId t = uid /\ status t = TODO) (tasks db) in
  (from_option order 0 (head (sort_on (fun a b => (order b <=? order a)%Z) todo)) + 1)%Z.

(** [validatedData.deadline ? new Date(validatedData.deadline) : null] *)
Definition to_date (s : option string) : option Z :=
  parse_date <$> nonempty s.

Definition POST_tasks (now : Z) (session : option string) (body : option Json)
    (db : Db) : Reply * Db :=
  match session with
  | None => (task_unauthorized, db)
  | Some uid =>
      match body with
      | None => (failure 500 "Internal server error", db)
      | Some body =>
          match createTaskSchema is_datetime body with
          | Invalid issues => (validation_error issues, db)
          | Valid validatedData =>
              match find_project (c_projectId validatedData) uid db with
              | None => (failure 404 "Project not found or unauthorized", db)
              | Some _ =>
                  let task :=
                    mkTask (new_id db) (c_title validatedData)
                           (c_description validatedData) TODO
                           (c_priority validatedData)
                           (to_date (c_deadline validatedData))
                           (nextOrder uid db) (c_projectId validatedData) uid
                           (Some now) now None None None in
                  let db1 := set_tasks db (tasks db ++ [task]) in
                  let db2 :=
                    match c_tagIds validatedData with
                    | Some (tagId :: rest) =>
                        set_taskTags db1
                          (taskTags db1 ++ ((fun tg => (id task, tg)) <$> tagId :: rest))
                    | _ => db1
                    end in
                  (succeed 201 (TaskPayload task) (Some "Task created successfully"),
                   db2)
              end
          end
      end
  end.

(** An item of a bulk update: an [{id, status, order}] triple. *)
Record BulkItem := mkBulk { b_id : string; b_status : TaskStatus; b_order : Z }.

(** Lines 380-390: one [prisma.task.update]. [None] when no task has this
    id and owner, and the call throws. *)
Definition bulk_update_one (now : Z) (uid : string) (taskUpdate : BulkItem)
    (db : Db) : option Db :=
  match find_task (b_id taskUpdate) uid db with
  | None => None
  | Some _ =>
      Some (set_tasks db
        ((fun t =>
            if decide (id t = b_id taskUpdate /\ userId t = uid) then
              mkTask (id t) (title t) (description t) (b_status taskUpdate)
                     (priority t) (deadline t) (b_order taskUpdate)
                     (projectId t) (userId t) (createdAt t) now
                     (if decide (b_status taskUpdate = DONE) then Some now
                      else completedAt t)
                     (estimatedHours t) (actualHours t)
            else t) <$> tasks db))
  end.

(** The updates run independently; they are applied here in the order of
    the array. The result tells whether every one of them succeeded. *)
Fixpoint bulk_update_all (now : Z) (uid : string) (l : list BulkItem) (db : Db)
  : Db * bool :=
  match l with
  | [] => (db, true)
  | taskUpdate :: rest =>
      match bulk_update_one now uid taskUpdate db with
      | Some db1 => bulk_update_all now uid rest db1
      | None => let '(db1, _) := bulk_update_all now uid rest db in (db1, false)
      end
  end.

(** [PUT /api/tasks]. [bulkUpdate] is the truthiness of [body.bulkUpdate];
    [items] is [None] when [body.tasks] is not an array. *)
Definition PUT_tasks (now : Z) (session : option string)
    (body : option (bool * option (list BulkItem))) (db : Db) : Reply * Db :=
  match session with
  | None => (task_unauthorized, db)
  | Some uid =>
      match body with
      | None => (failure 500 "Internal server error", db)
      | Some (true, Some items) =>
          let '(db1, all_done) := bulk_update_all now uid items db in
          if all_done
          then (succeed 200 NoPayload (Some "Tasks updated successfully"), db1)
          else (failure 500 "Internal server error", db1)
      | Some _ => (failure 400 "Invalid bulk update format", db)
      end
  end.

(** *** [/api/tasks/[id]] *)

Definition GET_task (session : option string) (tid : string) (db : Db)
  : Reply * Db :=
  match session with
  | None => (task_unauthorized, db)
  | Some uid =>
      match find_task tid uid db with
      | None => (failure 404 "Task not found", db)
      | Some task => (succeed 200 (TaskPayload task) None, db)
      end
  end.

(** Lines 536-557: [updateData]. A field is [None] when the key is not
    set; [d_deadline] and [d_completedAt] may be set to [null]. *)
Record UpdateData := mkData {
  d_title : option string;
  d_description : option string;
  d_status : option TaskStatus;
  d_completedAt : option (option Z);
  d_priority : option TaskPriority;
  d_deadline : option (option Z);
  d_order : option Z;
  d_projectId : option string;
  d_estimatedHours : option Q;
  d_actualHours : option Q
}.

Definition updateData (now : Z) (validatedData : UpdateTaskData)
    (existingTask : Task) : UpdateData :=
  mkData
    (v_title validatedData)
    (v_description validatedData)
    (v_status validatedData)
    (match v_status validatedData with
     | Some s =>
         if decide (s = DONE /\ status existingTask <> DONE) then Some (Some now)
         else if decide (s <> DONE) then Some None
         else None
     | None => None
     end)
    (v_priority validatedData)
    (to_date <$> v_deadline validatedData)
    (v_order validatedData)
    (v_projectId validatedData)
    (v_estimatedHours validatedData)
    (v_actualHours validatedData).

(** [prisma.task.update({ where: { id }, data })] on one row; [updatedAt]
    is kept by the store. *)
Definition apply_data (now : Z) (d : UpdateData) (t : Task) : Task :=
  mkTask (id t)
         (default (title t) (d_title d))
         (from_option Some (description t) (d_description d))
         (default (status t) (d_status d))
         (default (priority t) (d_priority d))
         (default (deadline t) (d_deadline d))
         (default (order t) (d_order d))
         (default (projectId t) (d_projectId d))
         (userId t) (createdAt t) now
         (default (completedAt t) (d_completedAt d))
         (from_option Some (estimatedHours t) (d_estimatedHours d))
         (from_option Some (actualHours t) (d_actualHours d)).

Definition PUT_task (now : Z) (session : option string) (tid : string)
    (body : option Json) (db : Db) : Reply * Db :=
  match session with
  | None => (task_unauthorized, db)
  | Some uid =>
      match body with
      | None => (failure 500 "Internal server error", db)
      | Some body =>
          match updateTaskSchema is_datetime body with
          | Invalid issues => (validation_error issues, db)
          | Valid validatedData =>
              match find_task tid uid db with
              | None => (failure 404 "Task not found", db)
              | Some existingTask =>
                  let foreign :=
                    match v_projectId validatedData with
                    | Some pid =>
                        bool_decide (pid <> "" /\ pid <> projectId existingTask)
                        && bool_decide (find_project pid uid db = None)
                    | None => false
                    end in
                  if foreign
                  then (failure 404 "Project not found or unauthorized", db)
                  else
                    let d := updateData now validatedData existingTask in
                    let updatedTask := apply_data now d existingTask in
                    let db1 :=
                      set_tasks db
                        ((fun t => if decide (id t = tid) then apply_data now d t else t)
                         <$> tasks db) in
                    let db2 :=
                      match v_tagIds validatedData with
                      | Some tagIds =>
                          set_taskTags db1
                            (filter (fun tt => tt.1 <> tid) (taskTags db1)
                             ++ ((fun tg => (tid, tg)) <$> tagIds))
                      | None => db1
                      end in
                    (succeed 200 (TaskPayload updatedTask)
                       (Some "Task updated successfully"), db2)
              end
          end
      end
  end.

Definition DELETE_task (session : option string) (tid : string) (db : Db)
  : Reply * Db :=
  match session with
  | None => (task_unauthorized, db)
  | Some uid =>
      match find_task tid uid db with
      | None => (failure 404 "Task not found", db)
      | Some _ =>
          (succeed 200 NoPayload (Some "Task deleted successfully"),
           delete_task_rows (fun t => id t = tid) db)
      end
  end.

End Handlers.

End Api.


(** ** Concrete boards used in the examples below *)

Module Examples.
Import Board.

Definition task_of (i : string) (s : TaskStatus) (o : Z) : Task :=
  mkTask i ("Task " +:+ i) None s MEDIUM None o "p1" "user1"
         (Some 0%Z) 0%Z None None None.

Definition render (h : Heap) (tasks : list addr) (c : option (list addr)) : World :=
  mkWorld h (organize h tasks) c [] false.

(** The scenario of the specification: two tasks in To Do. *)
Definition two_todo : World :=
  render [task_of "1" TODO 0; task_of "2" TODO 1] [0; 1] (Some [0; 1]).

Definition move_2_to_done : DropResult :=
  mkDrop (Some (mkLoc DONE 0)) (mkLoc TODO 1) "2".

(** A lane whose [order] values are not contiguous. *)
Definition sparse_todo : World :=
  render [task_of "a" TODO 5; task_of "b" TODO 7] [0; 1] (Some [0; 1]).

Definition swap_in_todo : DropResult :=
  mkDrop (Some (mkLoc TODO 1)) (mkLoc TODO 0) "a".

(** A task in To Do and a Done lane with sparse [order] values. *)
Definition sparse_done : World :=
  render [task_of "1" TODO 0; task_of "3" DONE 5; task_of "4" DONE 7]
         [0; 1; 2] (Some [0; 1; 2]).

Definition move_1_to_done : DropResult :=
  mkDrop (Some (mkLoc DONE 0)) (mkLoc TODO 0) "1".

(** Server answers: a 401 with the handlers' body, and a 500. *)
Definition unauthorized {T} : Cache.Response T :=
  Cache.mkResponse false 401 "Unauthorized"
    (inr (Cache.mkApi false None (Some "Unauthorized"))).

Definition server_error {T} : Cache.Response T :=
  Cache.mkResponse false 500 "Internal Server Error"
    (inr (Cache.mkApi false None (Some "Internal server error"))).

(** A client whose cache has not been filled yet. *)
Definition empty_client : World := mkWorld [] Board.BOARD_COLUMNS None [] false.

(** A finished task, created at instant 0 and completed a day and a
    millisecond later. *)
Definition finished : Task :=
  mkTask "1" "Completed Task" None DONE HIGH None 1 "p1" "user1"
         (Some 0%Z) 0%Z (Some 86400001%Z) None None.

(** A store in which user1 owns project p1 and task 1, finished at
    instant 5. *)
Definition one_done : Api.Db :=
  Api.mkDb
    [mkTask "1" "Write report" None DONE MEDIUM None 0 "p1" "user1"
            (Some 0%Z) 5%Z (Some 5%Z) None None]
    [Api.mkProject "p1" "Work" None "#3B82F6" "user1" 0 0]
    [].

Definition reopen_1 : option (bool * option (list Api.BulkItem)) :=
  Some (true, Some [Api.mkBulk "1" TODO 0]).

(** Stand-ins for the collaborators of the handlers. *)
Definition any_datetime (s : string) : bool := true.
Definition epoch (s : string) : Z := 0%Z.
Definition never_contains (s q : string) : bool := false.
Definition next_id (db : Api.Db) : string := pretty (length (Api.tasks db)).

Definition string_of_length (n : nat) : string :=
  foldr String EmptyString (replicate n "a"%char).

End Examples.


(** ** Server-side guards (the helper module whose source follows
       [src/cypress/support/e2e.ts]) and [src/middleware.ts] *)

Module Guards.

(** *** Strings, as lists of code units *)

Definition chars (s : string) : list ascii := list_ascii_of_string s.
Definition unchars (l : list ascii) : string := string_of_list_ascii l.

(** [s.startsWith(p)], [s.endsWith(p)] and [s.includes(p)] *)
Fixpoint starts_with (s p : list ascii) : bool :=
  match p, s with
  | [], _ => true
  | a :: p', b :: s' => bool_decide (a = b) && starts_with s' p'
  | _ :: _, [] => false
  end.

Definition startsWith (s p : string) : bool := starts_with (chars s) (chars p).

Definition endsWith (s p : string) : bool :=
  starts_with (rev (chars s)) (rev (chars p)).

Fixpoint includes_from (s p : list ascii) : bool :=
  starts_with s p ||
  match s with
  | [] => false
  | _ :: s' => includes_from s' p
  end.

Definition includes (s p : string) : bool := includes_from (chars s) (chars p).

(** White space as [trim] sees it, among the code units below 256. *)
Definition is_white_space (c : ascii) : bool :=
  let n := nat_of_ascii c in
  bool_decide (n = 32 \/ (9 <= n /\ n <= 13) \/ n = 160).

Fixpoint trim_start (l : list ascii) : list ascii :=
  match l with
  | c :: l' => if is_white_space c then trim_start l' else l
  | [] => []
  end.

Definition trim (l : list ascii) : list ascii :=
  rev (trim_start (rev (trim_start l))).

(** [sanitizeInput]: [replace(/[<>]/g, '')], [trim()], [substring(0, 1000)]. *)
Definition is_angle (c : ascii) : Prop := c = "<"%char \/ c = ">"%char.

Definition sanitizeInput (input : string) : string :=
  unchars (take 1000 (trim (filter (fun c => ~ is_angle c) (chars input)))).

(** *** [checkRateLimit] and its module-level map *)

Record Limit := mkLimit { count : nat; resetTime : Z }.

(** One call at instant [now]; the defaults of the source are
    [maxRequests = 60] and [windowMs = 60000]. *)
Definition checkRateLimit (identifier : string) (maxRequests windowMs now : Z)
    (rateLimitMap : gmap string Limit) : bool * gmap string Limit :=
  match rateLimitMap !! identifier with
  | Some userLimit =>
      if (resetTime userLimit <? now)%Z then
        (true, <[identifier := mkLimit 1 (now + windowMs)]> rateLimitMap)
      else if (maxRequests <=? Z.of_nat (count userLimit))%Z then
        (false, rateLimitMap)
      else
        (true, <[identifier := mkLimit (S (count userLimit)) (resetTime userLimit)]>
                 rateLimitMap)
  | None => (true, <[identifier := mkLimit 1 (now + windowMs)]> rateLimitMap)
  end.

(** A run of calls, each by an identifier at an instant, with the answers
    in order. *)
Fixpoint serve (maxRequests windowMs : Z) (calls : list (string * Z))
    (rateLimitMap : gmap string Limit) : list bool * gmap string Limit :=
  match calls with
  | [] => ([], rateLimitMap)
  | (identifier, now) :: rest =>
      let '(answer, m1) :=
        checkRateLimit identifier maxRequests windowMs now rateLimitMap in
      let '(answers, m2) := serve maxRequests windowMs rest m1 in
      (answer :: answers, m2)
  end.

(** The answers given to one identifier in a run. *)
Definition answers_to (identifier : string) (calls : list (string * Z))
    (answers : list bool) : list bool :=
  snd <$> filter (fun ca => ca.1.1 = identifier) (zip calls answers).

(** *** Ownership checks *)

(** [verifyTaskOwnership] and [verifyProjectOwnership]: [!!row]. *)
Definition verifyTaskOwnership (taskId userId : string) (db : Api.Db) : bool :=
  bool_decide (is_Some (Api.find_task taskId userId db)).

Definition verifyProjectOwnership (projectId userId : string) (db : Api.Db) : bool :=
  bool_decide (is_Some (Api.find_project projectId userId db)).

(** [verifyTasksOwnership]: the number of rows whose id is in the list and
    whose owner is the user, compared with the length of the list. *)
(** The rows counted by [prisma.task.count]. *)
Definition owned_among (taskIds : list string) (uid : string) (db : Api.Db) : list Task :=
  filter (fun t => id t ∈ taskIds /\ userId t = uid) (Api.tasks db).

Definition verifyTasksOwnership (taskIds : list string) (uid : string) (db : Api.Db) : bool :=
  bool_decide (length (owned_among taskIds uid db) = length taskIds).

(** *** Origin checks *)

(** A request as the origin checks read it; a header that is not sent is
    [None]. *)
Record Request := mkRequest {
  pathname : string;
  method : string;
  origin : option string;
  host : option string;
  token : bool
}.

Definition present (h : option string) : option string :=
  match h with
  | Some s => if decide (s = "") then None else Some s
  | None => None
  end.

(** [validateRequestOrigin] *)
Definition validateRequestOrigin (req : Request) : bool :=
  if decide (method req = "GET") then true
  else
    match present (origin req), present (host req) with
    | Some o, Some h => endsWith o h
    | _, _ => false
    end.

(** [callbacks.authorized] of the middleware. *)
Definition authorized (req : Request) : bool :=
  if bool_decide (pathname req = "/") || startsWith (pathname req) "/api/auth/"
  then true
  else if startsWith (pathname req) "/dashboard" || startsWith (pathname req) "/api/"
  then token req
  else true.

Inductive Passage :=
  | Next (headers : list (string * string))
  | InvalidOrigin.

Definition security_headers : list (string * string) :=
  [ ("X-Content-Type-Options", "nosniff");
    ("X-Frame-Options", "DENY");
    ("X-XSS-Protection", "1; mode=block");
    ("Referrer-Policy", "origin-when-cross-origin") ].

(** [/\/(tasks|projects)\/.*/] matches a path that contains [/tasks/] or
    [/projects/]. *)
Definition sensitive (path : string) : bool :=
  includes path "/tasks/" || includes path "/projects/".

(** The [middleware] function. *)
Definition middleware (req : Request) : Passage :=
  if startsWith (pathname req) "/api/" then
    if sensitive (pathname req) && negb (bool_decide (method req = "GET")) then
      match present (origin req), present (host req) with
      | Some o, Some h => if endsWith o h then Next security_headers else InvalidOrigin
      | _, _ => Next security_headers
      end
    else Next security_headers
  else Next [].

End Guards.


(** ** Deadline alerts ([Notifications]) and the deadline label of the board

    The functions of date-fns are collaborators from outside the repository:
    [isToday] and [isTomorrow] read the clock, so they take [now] as well. *)

Module Deadlines.

Record DeadlineAlert := mkAlert {
  taskId : string;
  taskTitle : string;
  alert_deadline : Z;
  daysRemaining : Z;
  alert_priority : TaskPriority
}.

Inductive NotificationType :=
  | deadline_today | deadline_tomorrow | deadline_week | overdue | completed.

Inductive Filter := all | urgent | today.

Definition alertId (tid : string) : string := "deadline-" +:+ tid.

(** [priorityOrder] *)
Definition priorityOrder (p : TaskPriority) : Z :=
  match p with URGENT => 0 | HIGH => 1 | MEDIUM => 2 | LOW => 3 end.

(** The comparator of [alerts.sort]. *)
Definition compare_alerts (a b : DeadlineAlert) : Z :=
  if bool_decide (daysRemaining a < 0)%Z && bool_decide (0 <= daysRemaining b)%Z
  then (-1)%Z
  else if bool_decide (daysRemaining b < 0)%Z && bool_decide (0 <= daysRemaining a)%Z
  then 1%Z
  else if negb (bool_decide (daysRemaining a = daysRemaining b))
  then (daysRemaining a - daysRemaining b)%Z
  else (priorityOrder (alert_priority a) - priorityOrder (alert_priority b))%Z.

(** The order the comparator is meant to give: first days, then priority. *)
Definition by_urgency (a b : DeadlineAlert) : Prop :=
  (daysRemaining a < daysRemaining b)%Z \/
  (daysRemaining a = daysRemaining b /\
   (priorityOrder (alert_priority a) <= priorityOrder (alert_priority b))%Z).

(** [filteredAlerts] *)
Definition filteredAlerts (filter_ : Filter) (deadlineAlerts : list DeadlineAlert) :
    list DeadlineAlert :=
  match filter_ with
  | urgent =>
      filter (fun alert => (daysRemaining alert <= 0)%Z \/ alert_priority alert = URGENT)
             deadlineAlerts
  | today => filter (fun alert => daysRemaining alert = 0%Z) deadlineAlerts
  | all => deadlineAlerts
  end.

Definition getNotificationType (alert : DeadlineAlert) : NotificationType :=
  if (daysRemaining alert <? 0)%Z then overdue
  else if (daysRemaining alert =? 0)%Z then deadline_today
  else if (daysRemaining alert =? 1)%Z then deadline_tomorrow
  else deadline_week.

Definition getNotificationMessage (alert : DeadlineAlert) : string :=
  if (daysRemaining alert <? 0)%Z then
    let daysOverdue := Z.abs (daysRemaining alert) in
    "Overdue by " +:+ pretty daysOverdue +:+ " day" +:+
      (if (1 <? daysOverdue)%Z then "s" else "")
  else if (daysRemaining alert =? 0)%Z then "Due today"
  else if (daysRemaining alert =? 1)%Z then "Due tomorrow"
  else "Due in " +:+ pretty (daysRemaining alert) +:+ " days".

(** [dismissNotification] *)
Definition dismissNotification (alertId_ : string) (prev : gset string) : gset string :=
  list_to_set (elements prev ++ [alertId_]).

(** [clearAllNotifications]: the new set holds the ids of the alerts on
    display and nothing else. *)
Definition clearAllNotifications (deadlineAlerts : list DeadlineAlert) : gset string :=
  list_to_set ((fun alert => alertId (taskId alert)) <$> deadlineAlerts).

Section DateFns.
Variables (isToday isTomorrow : Z -> Z -> bool).
Variable differenceInDays : Z -> Z -> Z.
Variable format : Z -> string -> string.

(** The body of [tasks.forEach]: the alert pushed for one task, if any. *)
Definition alert_for (now : Z) (dismissedNotifications : gset string) (task : Task) :
    option DeadlineAlert :=
  match deadline task with
  | None => None
  | Some deadline_ =>
      if decide (status task = DONE) then None
      else if decide (alertId (id task) ∈ dismissedNotifications) then None
      else
        let alert days := mkAlert (id task) (title task) deadline_ days (priority task) in
        if (deadline_ <? now)%Z then Some (alert (differenceInDays now deadline_))
        else if isToday now deadline_ then Some (alert 0%Z)
        else if isTomorrow now deadline_ then Some (alert 1%Z)
        else
          let daysUntil := differenceInDays deadline_ now in
          if (daysUntil <=? 7)%Z then Some (alert daysUntil) else None
  end.

(** [deadlineAlerts] *)
Definition deadlineAlerts (now : Z) (dismissedNotifications : gset string)
    (tasks : list Task) : list DeadlineAlert :=
  Api.sort_on (fun a b => (compare_alerts a b <=? 0)%Z)
    (omap (alert_for now dismissedNotifications) tasks).

(** [getDeadlineColor] and [getDeadlineText] of the board. *)
Definition getDeadlineColor (now : Z) (deadline_ : option Z) : string :=
  match deadline_ with
  | None => "text-gray-500"
  | Some d =>
      if (d <? now)%Z then "text-red-500"
      else if isToday now d then "text-orange-500"
      else if isTomorrow now d then "text-yellow-500"
      else "text-gray-500"
  end.

Definition getDeadlineText (now : Z) (deadline_ : option Z) : option string :=
  match deadline_ with
  | None => None
  | Some d =>
      if (d <? now)%Z then Some "Overdue"
      else if isToday now d then Some "Due today"
      else if isTomorrow now d then Some "Due tomorrow"
      else Some (format d "MMM d")
  end.

End DateFns.

(** date-fns in a time zone with a fixed offset of zero: days are counted
    from the epoch, and [differenceInDays] counts full days, towards zero. *)
Definition day_of (t : Z) : Z := (t / Analytics.MS_PER_DAY)%Z.
Definition isToday (now d : Z) : bool := bool_decide (day_of d = day_of now).
Definition isTomorrow (now d : Z) : bool := bool_decide (day_of d = (day_of now + 1)%Z).
Definition differenceInDays (a b : Z) : Z := ((a - b) ÷ Analytics.MS_PER_DAY)%Z.

End Deadlines.


(** ** The charts of [AnalyticsCharts] *)

Module Charts.

Record ChartData := mkChart { name : string; value : nat; color : string }.

Definition CHART_COLORS : list string :=
  ["#3B82F6"; "#10B981"; "#F59E0B"; "#EF4444";
   "#8B5CF6"; "#06B6D4"; "#84CC16"; "#F97316"].

Definition chart_color (i : nat) : string := default "" (CHART_COLORS !! i).

(** Lines 94-112. [statusCounts] is an object with one counter per status,
    bumped once per task. *)
Record StatusCounts := mkStatusCounts {
  count_TODO : nat; count_IN_PROGRESS : nat; count_REVIEW : nat; count_DONE : nat
}.

Definition bump_status (counts : StatusCounts) (task : Task) : StatusCounts :=
  match status task with
  | TODO => mkStatusCounts (S (count_TODO counts)) (count_IN_PROGRESS counts)
              (count_REVIEW counts) (count_DONE counts)
  | IN_PROGRESS => mkStatusCounts (count_TODO counts) (S (count_IN_PROGRESS counts))
              (count_REVIEW counts) (count_DONE counts)
  | REVIEW => mkStatusCounts (count_TODO counts) (count_IN_PROGRESS counts)
              (S (count_REVIEW counts)) (count_DONE counts)
  | DONE => mkStatusCounts (count_TODO counts) (count_IN_PROGRESS counts)
              (count_REVIEW counts) (S (count_DONE counts))
  end.

Definition statusDistribution (tasks : list Task) : list ChartData :=
  let statusCounts := foldl bump_status (mkStatusCounts 0 0 0 0) tasks in
  filter (fun item => 0 < value item)
    [ mkChart "To Do" (count_TODO statusCounts) (chart_color 0);
      mkChart "In Progress" (count_IN_PROGRESS statusCounts) (chart_color 1);
      mkChart "Review" (count_REVIEW statusCounts) (chart_color 2);
      mkChart "Done" (count_DONE statusCounts) (chart_color 3) ].

(** Lines 115-133 *)
Record PriorityCounts := mkPriorityCounts {
  count_LOW : nat; count_MEDIUM : nat; count_HIGH : nat; count_URGENT : nat
}.

Definition bump_priority (counts : PriorityCounts) (task : Task) : PriorityCounts :=
  match priority task with
  | LOW => mkPriorityCounts (S (count_LOW counts)) (count_MEDIUM counts)
              (count_HIGH counts) (count_URGENT counts)
  | MEDIUM => mkPriorityCounts (count_LOW counts) (S (count_MEDIUM counts))
              (count_HIGH counts) (count_URGENT counts)
  | HIGH => mkPriorityCounts (count_LOW counts) (count_MEDIUM counts)
              (S (count_HIGH counts)) (count_URGENT counts)
  | URGENT => mkPriorityCounts (count_LOW counts) (count_MEDIUM counts)
              (count_HIGH counts) (S (count_URGENT counts))
  end.

Definition priorityDistribution (tasks : list Task) : list ChartData :=
  let priorityCounts := foldl bump_priority (mkPriorityCounts 0 0 0 0) tasks in
  filter (fun item => 0 < value item)
    [ mkChart "Low" (count_LOW priorityCounts) (chart_color 4);
      mkChart "Medium" (count_MEDIUM priorityCounts) (chart_color 5);
      mkChart "High" (count_HIGH priorityCounts) (chart_color 6);
      mkChart "Urgent" (count_URGENT priorityCounts) (chart_color 7) ].

(** Lines 136-152 *)
Record Progress := mkProgress {
  progress_name : string;
  total : nat;
  completed : nat;
  completion : JsNum;
  progress_color : string
}.

Definition progress_of (tasks : list Task) (project : Api.Project) : Progress :=
  let projectTasks := filter (fun task => projectId task = Api.p_id project) tasks in
  let completedTasks := length (filter (fun task => status task = DONE) projectTasks) in
  let completionRate :=
    if 0 <? length projectTasks
    then js_mul (js_div (of_nat completedTasks) (of_nat (length projectTasks))) (of_nat 100)
    else of_nat 0 in
  mkProgress (Api.p_name project) (length projectTasks) completedTasks completionRate
    (Api.p_color project).

Definition projectProgress (tasks : list Task) (projects : list Api.Project) :
    list Progress :=
  filter (fun item => 0 < total item) (progress_of tasks <$> projects).

(** The number of tasks with a given status, or priority. *)
Definition with_status (s : TaskStatus) (tasks : list Task) : nat :=
  length (filter (fun task => status task = s) tasks).

Definition with_priority (p : TaskPriority) (tasks : list Task) : nat :=
  length (filter (fun task => priority task = p) tasks).

End Charts.


(** ** Integrity of the store

    What the schema declares (ids are primary keys, a task row refers to a
    project row, a tag association to a task row) together with what the
    handlers keep: a task and its project have the same owner. *)

Module Store.

Record integrity (db : Api.Db) : Prop := {
  task_ids : NoDup (id <$> Api.tasks db);
  project_ids : NoDup (Api.p_id <$> Api.projects db);
  task_project : forall t, t ∈ Api.tasks db ->
    exists p, p ∈ Api.projects db /\ Api.p_id p = projectId t /\ Api.p_userId p = userId t;
  tag_task : forall tt, tt ∈ Api.taskTags db -> tt.1 ∈ id <$> Api.tasks db
}.

(** The rows of the other users. *)
Definition others_tasks (uid : string) (db : Api.Db) : list Task :=
  filter (fun t => userId t <> uid) (Api.tasks db).

Definition others_projects (uid : string) (db : Api.Db) : list Api.Project :=
  filter (fun p => Api.p_userId p <> uid) (Api.projects db).

(** The tags of a task. *)
Definition tags_of (tid : string) (db : Api.Db) : list string :=
  snd <$> filter (fun tt => tt.1 = tid) (Api.taskTags db).

(** The row update of the bulk endpoint. *)
Definition bulk_row (now : Z) (uid : string) (taskUpdate : Api.BulkItem) (t : Task) : Task :=
  if decide (id t = Api.b_id taskUpdate /\ userId t = uid) then
    mkTask (id t) (title t) (description t) (Api.b_status taskUpdate)
           (priority t) (deadline t) (Api.b_order taskUpdate)
           (projectId t) (userId t) (createdAt t) now
           (if decide (Api.b_status taskUpdate = DONE) then Some now else completedAt t)
           (estimatedHours t) (actualHours t)
  else t.

End Store.

Module Samples.

(** A store with two users: user1 owns project p1 with the TODO tasks 1 and
    2, user2 owns project p2 with the finished task 3. *)
Definition two_users : Api.Db :=
  Api.mkDb
    [mkTask "1" "Write report" None TODO MEDIUM None 0 "p1" "user1"
            (Some 0%Z) 0%Z None None None;
     mkTask "2" "Send report" None TODO LOW None 3 "p1" "user1"
            (Some 1%Z) 1%Z None None None;
     mkTask "3" "Review" None DONE HIGH None 0 "p2" "user2"
            (Some 2%Z) 5%Z (Some 5%Z) None None]
    [Api.mkProject "p1" "Work" None "#3B82F6" "user1" 0 0;
     Api.mkProject "p2" "Home" None "#10B981" "user2" 0 0]
    [("1", "t1"); ("3", "t1")].

Definition fresh_id (db : Api.Db) : string := "task-" +:+ pretty (length (Api.tasks db)).

End Samples.


(** ** Error responses (the error helper module) *)

Module Errors.

(** What [details] may hold; it goes to the log only. *)
Inductive Details :=
  | Fields (l : list (string * Api.Message))
  | Constraint (target : option string)
  | FieldName (field_name : option string)
  | Stack (stack : option string).

Record ErrorDetails := mkDetails {
  message : string;
  code : string;
  status : nat;
  details : option Details
}.

Definition UNAUTHORIZED := mkDetails "Authentication required" "UNAUTHORIZED" 401 None.
Definition FORBIDDEN := mkDetails "Access denied" "FORBIDDEN" 403 None.
Definition NOT_FOUND := mkDetails "Resource not found" "NOT_FOUND" 404 None.
Definition VALIDATION_ERROR := mkDetails "Invalid input data" "VALIDATION_ERROR" 400 None.
Definition RATE_LIMITED := mkDetails "Too many requests" "RATE_LIMITED" 429 None.
Definition SERVER_ERROR := mkDetails "Internal server error" "SERVER_ERROR" 500 None.
Definition DATABASE_ERROR := mkDetails "Database operation failed" "DATABASE_ERROR" 500 None.
Definition TASK_NOT_FOUND :=
  mkDetails "Task not found or access denied" "TASK_NOT_FOUND" 404 None.
Definition PROJECT_NOT_FOUND :=
  mkDetails "Project not found or access denied" "PROJECT_NOT_FOUND" 404 None.

(** The JSON body and the status of a response, and the line written to
    the log. *)
Record ErrorResponse := mkErrorResponse {
  body_success : bool;
  body_error : string;
  body_code : string;
  http_status : nat
}.

Record LogLine := mkLog { log_code : string; log_context : string; logged : ErrorDetails }.

(** [context || 'API Error'] *)
Definition createErrorResponse (error : ErrorDetails) (context : option string)
  : LogLine * ErrorResponse :=
  (mkLog (code error) (Cache.or_else context "API Error") error,
   mkErrorResponse false (message error) (code error) (status error)).

(** [issue.path.join('.')] *)
Fixpoint join (sep : string) (l : list string) : string :=
  match l with
  | [] => ""
  | [x] => x
  | x :: rest => x +:+ sep +:+ join sep rest
  end.

Definition handleValidationError (issues : list Api.ZodIssue) : LogLine * ErrorResponse :=
  let details :=
    (fun issue => (join "." (Api.path issue), Api.issue_message issue)) <$> issues in
  createErrorResponse
    (mkDetails (message VALIDATION_ERROR) (code VALIDATION_ERROR) (status VALIDATION_ERROR)
               (Some (Fields details)))
    (Some "Validation Error").

(** A [PrismaClientKnownRequestError]: its code and the two [meta] entries
    that are read. *)
Record PrismaError := mkPrisma {
  prisma_code : string;
  meta_target : option string;
  meta_field_name : option string
}.

Definition handlePrismaError (error : PrismaError) : LogLine * ErrorResponse :=
  if decide (prisma_code error = "P2002") then
    createErrorResponse
      (mkDetails "A record with this data already exists" "DUPLICATE_RECORD" 409
                 (Some (Constraint (meta_target error))))
      (Some "Prisma Unique Constraint Error")
  else if decide (prisma_code error = "P2025") then
    createErrorResponse NOT_FOUND (Some "Prisma Record Not Found")
  else if decide (prisma_code error = "P2003") then
    createErrorResponse
      (mkDetails "Foreign key constraint failed" "FOREIGN_KEY_ERROR" 400
                 (Some (FieldName (meta_field_name error))))
      (Some "Prisma Foreign Key Error")
  else
    createErrorResponse DATABASE_ERROR (Some ("Prisma Error " +:+ prisma_code error)).

(** A thrown value. An [AppError] is an [Error] whose message is the
    message of its details. *)
Inductive Thrown :=
  | ZodError (issues : list Api.ZodIssue)
  | PrismaClientKnownRequestError (error : PrismaError)
  | Error (msg : string) (stack : option string)
  | AppError (errorDetails : ErrorDetails) (stack : option string)
  | NotAnError.

(** [isDevelopment] is [process.env.NODE_ENV === 'development']; [context]
    defaults to ['Unknown Error']. *)
Definition handleGenericError (isDevelopment : bool) (error : Thrown) (context : string)
  : LogLine * ErrorResponse :=
  match error with
  | ZodError issues => handleValidationError issues
  | PrismaClientKnownRequestError e => handlePrismaError e
  | Error msg stack =>
      createErrorResponse
        (mkDetails (if isDevelopment then msg else message SERVER_ERROR)
                   "UNKNOWN_ERROR" 500
                   (if isDevelopment then Some (Stack stack) else None))
        (Some context)
  | AppError d stack =>
      createErrorResponse
        (mkDetails (if isDevelopment then message d else message SERVER_ERROR)
                   "UNKNOWN_ERROR" 500
                   (if isDevelopment then Some (Stack stack) else None))
        (Some context)
  | NotAnError => createErrorResponse SERVER_ERROR (Some context)
  end.

(** [AppError.toErrorResponse] *)
Definition toErrorResponse (errorDetails : ErrorDetails) (context : option string)
  : LogLine * ErrorResponse :=
  createErrorResponse
    (mkDetails (message errorDetails) (code errorDetails) (status errorDetails)
               (details errorDetails))
    context.

(** [withErrorHandling(handler, context)] applied to the outcome of the
    handler: its result, or what it threw. *)
Definition withErrorHandling {R} (isDevelopment : bool) (context : string)
    (outcome : Thrown + R) : R + LogLine * ErrorResponse :=
  match outcome with
  | inr result => inl result
  | inl error => inr (handleGenericError isDevelopment error context)
  end.

(** Two thrown values of the same class: for a store error, with the same
    code. *)
Definition same_class (a b : Thrown) : Prop :=
  match a, b with
  | ZodError _, ZodError _ => True
  | PrismaClientKnownRequestError e, PrismaClientKnownRequestError e' =>
      prisma_code e = prisma_code e'
  | Error _ _, Error _ _ | Error _ _, AppError _ _
  | AppError _ _, Error _ _ | AppError _ _, AppError _ _ => True
  | NotAnError, NotAnError => True
  | _, _ => False
  end.

(** [validateEnvironment]: [None] when nothing is missing, else the message
    of the error thrown. *)
Definition required : list string :=
  ["DATABASE_URL"; "NEXTAUTH_SECRET"; "NEXTAUTH_URL";
   "GOOGLE_CLIENT_ID"; "GOOGLE_CLIENT_SECRET"].

Definition validateEnvironment (env : gmap string string) : option string :=
  let missing := filter (fun key => env !! key = None \/ env !! key = Some "") required in
  if 0 <? length missing
  then Some ("Missing required environment variables: " +:+ join ", " missing)
  else None.

End Errors.


(** ** The create-task form ([TaskForm]) *)

Module TaskForm.

(** The values of the form's fields: text inputs and the select yield
    strings, the date input a date or nothing. *)
Record FormInput := mkInput {
  in_title : string;
  in_description : option string;
  in_priority : string;
  in_deadline : option Z;
  in_projectId : string
}.

Record TaskFormValues := mkValues {
  title : string;
  description : option string;
  priority : TaskPriority;
  deadline : option Z;
  projectId : string
}.

(** [taskSchema]; [now] is the [new Date()] of the refinement. *)
Definition title_field (s : string) : Api.Parsed string :=
  Api.conclude s
    (Api.check (3 <=? String.length s)
       (Api.mkIssue ["title"] (Api.Text "Title must be at least 3 characters")) ++
     Api.check (String.length s <=? 200)
       (Api.mkIssue ["title"] (Api.Text "Title must be less than 200 characters"))).

Definition deadline_field (now : Z) (date : option Z) : Api.Parsed (option Z) :=
  Api.conclude date
    (Api.check (match date with None => true | Some d => (now <? d)%Z end)
       (Api.mkIssue ["deadline"] (Api.Text "Deadline must be in the future"))).

Definition projectId_field (s : string) : Api.Parsed string :=
  Api.conclude s
    (Api.check (1 <=? String.length s)
       (Api.mkIssue ["projectId"] (Api.Text "Please select a project"))).

Definition taskSchema (now : Z) (input : FormInput) : Api.Parsed TaskFormValues :=
  let title := title_field (in_title input) in
  let priority := Api.z_enum ["priority"] Api.priorities
                    (Some (Api.JStr (in_priority input))) in
  let deadline := deadline_field now (in_deadline input) in
  let projectId := projectId_field (in_projectId input) in
  match Api.value_of title, Api.value_of priority, Api.value_of deadline,
        Api.value_of projectId with
  | Some t, Some p, Some dl, Some pid =>
      Api.Valid (mkValues t (in_description input) p dl pid)
  | _, _, _, _ =>
      Api.Invalid (Api.issues_of title ++ Api.issues_of priority ++
                   Api.issues_of deadline ++ Api.issues_of projectId)
  end.

Section Submit.
(** [Date.prototype.toISOString] *)
Variable toISOString : Z -> string.

(** The [payload] of [onSubmit], as [JSON.stringify] sends it: a key whose
    value is [undefined] is left out. *)
Definition payload (data : TaskFormValues) : Api.Json :=
  Api.JObj
    ([ ("title", Api.JStr (title data));
       ("description", Api.JStr (Cache.or_else (description data) ""));
       ("priority", Api.JStr (Api.priority_name (priority data))) ] ++
     match deadline data with
     | Some d => [("deadline", Api.JStr (toISOString d))]
     | None => []
     end ++
     [ ("projectId", Api.JStr (projectId data)) ]).

End Submit.

End TaskForm.


(** ** A drag on its way to the store

    [handleDragEnd] hands [{ status, order }] to [onTaskUpdate]
    ([TaskBoard.tsx], lines 136-139); [updateTask] sends it as
    [JSON.stringify(updates)] in a PUT to [/api/tasks/[id]]. *)

Module Wire.

Definition move_body (dst : Board.DraggableLocation) : Api.Json :=
  Api.JObj
    [ ("status", Api.JStr (Api.status_name (Board.droppableId dst)));
      ("order", Api.JNum (inject_Z (Z.of_nat (Board.index dst)))) ].

End Wire.

(** ** Reading the object store *)

Section HeapFacts.
Implicit Types (h : Heap) (l : list addr) (a : addr) (t : Task).

Lemma view_app h l1 l2 : view h (l1 ++ l2) = view h l1 ++ view h l2.
Proof. unfold view. apply omap_app. Qed.

Lemma view_cons_valid h a l t :
  h !! a = Some t -> view h (a :: l) = t :: view h l.
Proof. intros Ha. unfold view. simpl. by rewrite Ha. Qed.

Lemma valid_cons h a l : valid h (a :: l) <-> a < length h /\ valid h l.
Proof. unfold valid. by rewrite Forall_cons. Qed.

Lemma valid_app h l1 l2 : valid h (l1 ++ l2) <-> valid h l1 /\ valid h l2.
Proof. unfold valid. by rewrite Forall_app. Qed.

Lemma valid_lookup h l : valid h l -> forall a, a ∈ l -> is_Some (h !! a).
Proof.
  intros Hv a Ha. apply lookup_lt_is_Some.
  unfold valid in Hv. rewrite Forall_forall in Hv. by apply Hv.
Qed.

Lemma valid_sub h l l' : l' ⊆ l -> valid h l -> valid h l'.
Proof.
  unfold valid. rewrite !Forall_forall. intros Hs Hv a Ha. apply Hv, Hs, Ha.
Qed.

Lemma valid_grow h h' l : length h <= length h' -> valid h l -> valid h' l.
Proof.
  unfold valid. rewrite !Forall_forall. intros Hle Hv a Ha.
  specialize (Hv a Ha). lia.
Qed.

Lemma view_length h l : valid h l -> length (view h l) = length l.
Proof.
  induction l as [|a l IH]; [done|].
  rewrite valid_cons. intros [Ha Hv].
  destruct (lookup_lt_is_Some_2 h a Ha) as [t Ht].
  rewrite (view_cons_valid _ _ _ _ Ht). simpl. by rewrite IH.
Qed.

Lemma view_take h l i : valid h l -> view h (take i l) = take i (view h l).
Proof.
  revert i. induction l as [|a l IH]; intros i Hv.
  - by destruct i.
  - apply valid_cons in Hv as [Ha Hv].
    destruct (lookup_lt_is_Some_2 h a Ha) as [t Ht].
    destruct i as [|i]; [done|].
    rewrite (view_cons_valid _ _ _ _ Ht). simpl.
    rewrite <- IH by done. by apply view_cons_valid.
Qed.

Lemma view_drop h l i : valid h l -> view h (drop i l) = drop i (view h l).
Proof.
  revert i. induction l as [|a l IH]; intros i Hv.
  - by destruct i.
  - apply valid_cons in Hv as [Ha Hv].
    destruct (lookup_lt_is_Some_2 h a Ha) as [t Ht].
    destruct i as [|i]; [done|].
    rewrite (view_cons_valid _ _ _ _ Ht). simpl. by apply IH.
Qed.

Lemma view_lookup h l i a :
  valid h l -> l !! i = Some a -> view h l !! i = h !! a.
Proof.
  revert i. induction l as [|b l IH]; intros i Hv Hi; [done|].
  apply valid_cons in Hv as [Hb Hv].
  destruct (lookup_lt_is_Some_2 h b Hb) as [t Ht].
  rewrite (view_cons_valid _ _ _ _ Ht).
  destruct i as [|i]; simpl in *.
  - by simplify_eq.
  - by apply IH.
Qed.

(** Allocation leaves every live object as it was. *)
Lemma view_alloc h t l : valid h l -> view (h ++ [t]) l = view h l.
Proof.
  induction l as [|a l IH]; [done|].
  rewrite valid_cons. intros [Ha Hv].
  destruct (lookup_lt_is_Some_2 h a Ha) as [u Hu].
  rewrite (view_cons_valid h a l u Hu).
  rewrite (view_cons_valid (h ++ [t]) a l u); [by rewrite IH|].
  by rewrite lookup_app_l.
Qed.

Lemma view_ext h h' l :
  (forall a, a ∈ l -> h' !! a = h !! a) -> view h' l = view h l.
Proof.
  induction l as [|a l IH]; intros He; [done|].
  assert (Hl : view h' l = view h l).
  { apply IH. intros b Hb. apply He. by right. }
  assert (Ha : h' !! a = h !! a) by (apply He; left).
  unfold view in *. cbn [omap list_omap]. by rewrite Ha, Hl.
Qed.

Lemma write_order_length h a o : length (write_order h a o) = length h.
Proof.
  unfold write_order. destruct (h !! a); [|done]. by rewrite length_insert.
Qed.

Lemma write_order_other h a b o : a <> b -> write_order h a o !! b = h !! b.
Proof.
  intros Hne. unfold write_order. destruct (h !! a); [|done].
  by rewrite list_lookup_insert_ne.
Qed.

Lemma write_order_same h a o t :
  h !! a = Some t -> write_order h a o !! a = Some (set_order t o).
Proof.
  intros Ha. unfold write_order. rewrite Ha.
  apply list_lookup_insert_eq. by eapply lookup_lt_Some.
Qed.
End HeapFacts.


(** ** Numbers *)

Section NumFacts.

Lemma Qzero_of_Z z : z <> 0%Z -> Qzero (Qred (inject_Z z)) = false.
Proof.
  intros Hz. unfold Qzero. apply not_true_is_false. intros H.
  apply Qeq_bool_iff in H. rewrite Qred_correct in H.
  unfold Qeq in H. simpl in H. lia.
Qed.

Lemma num_proper p q : (p == q)%Q -> num p = num q.
Proof. intros H. unfold num. f_equal. by apply Qred_complete. Qed.

Lemma js_div_of_Z a b :
  b <> 0%Z -> js_div (of_Z a) (of_Z b) = num (inject_Z a / inject_Z b).
Proof.
  intros Hb. unfold of_Z, num. cbn [js_div]. rewrite Qzero_of_Z by done.
  apply num_proper. by rewrite !Qred_correct.
Qed.

End NumFacts.


(** ** The board: lanes, splices and renumbering *)

Module BoardFacts.
Import Board.

Section Renumber.
Implicit Types (h : Heap) (l : list addr) (a : addr) (t : Task).

Lemma renumber_from_length k l h : length (renumber_from k l h) = length h.
Proof.
  revert k h. induction l as [|a l IH]; intros k h; [done|].
  simpl. by rewrite IH, write_order_length.
Qed.

(** Objects outside the lane are not written. *)
Lemma renumber_from_other k l h b :
  b ∉ l -> renumber_from k l h !! b = h !! b.
Proof.
  revert k h. induction l as [|a l IH]; intros k h Hb; [done|].
  apply not_elem_of_cons in Hb as [Hne Hb]. simpl.
  rewrite IH by done. by apply write_order_other.
Qed.

Lemma renumber_from_view k l h :
  NoDup l -> valid h l ->
  view (renumber_from k l h) l
  = imap (fun i t => set_order t (Z.of_nat (k + i))) (view h l).
Proof.
  revert k h. induction l as [|a l IH]; intros k h Hnd Hv; [done|].
  apply NoDup_cons in Hnd as [Ha Hnd].
  apply valid_cons in Hv as [Hlt Hv].
  destruct (lookup_lt_is_Some_2 h a Hlt) as [t Ht].
  rewrite (view_cons_valid h a l t Ht). cbn [renumber_from].
  rewrite (view_cons_valid _ a l (set_order t (Z.of_nat k))).
  - cbn [imap]. f_equal; [by rewrite Nat.add_0_r|].
    rewrite IH; [|done|].
    + rewrite (view_ext h (write_order h a (Z.of_nat k)) l).
      * apply imap_ext. intros i u _. simpl. do 2 f_equal. lia.
      * intros b Hb. apply write_order_other. intros ->. done.
    + eapply valid_grow; [|exact Hv]. by rewrite write_order_length.
  - rewrite renumber_from_other by done. by apply write_order_same.
Qed.

Lemma renumber_view l h :
  NoDup l -> valid h l ->
  view (renumber_from 0 l h) l = renumbered (view h l).
Proof. intros. by rewrite renumber_from_view. Qed.

Lemma renumber_frame l l' h :
  (forall b, b ∈ l' -> b ∉ l) ->
  view (renumber_from 0 l h) l' = view h l'.
Proof.
  intros Hd. apply view_ext. intros b Hb. by apply renumber_from_other, Hd.
Qed.
End Renumber.


Section Lanes.
Implicit Types (cs : list BoardColumn) (s : TaskStatus) (c : BoardColumn).

Lemma find_column_Some s cs i c :
  find_column s cs = Some (i, c) -> cs !! i = Some c /\ col_id c = s.
Proof.
  unfold find_column. intros H. apply list_find_Some in H. tauto.
Qed.

Lemma find_column_alter f i cs s :
  (forall c, col_id (f c) = col_id c) ->
  find_column s (alter f i cs)
  = (fun kc => (kc.1, if decide (kc.1 = i) then f kc.2 else kc.2))
      <$> find_column s cs.
Proof.
  intros Hf. unfold find_column. revert i.
  induction cs as [|c cs IH]; intros i; [done|].
  destruct i as [|i]; cbn [alter list_alter list_find].
  - rewrite Hf. destruct (decide (col_id c = s)); [done|].
    destruct (list_find _ cs) as [[k c']|]; done.
  - destruct (decide (col_id c = s)); [done|].
    rewrite IH. destruct (list_find _ cs) as [[k c']|]; [|done].
    simpl. repeat case_decide; congruence.
Qed.

Lemma find_column_total cs s :
  col_id <$> cs = col_id <$> BOARD_COLUMNS ->
  exists i c, find_column s cs = Some (i, c).
Proof.
  intros H.
  destruct cs as [|c0 [|c1 [|c2 [|c3 [|]]]]]; try discriminate.
  injection H as H0 H1 H2 H3.
  unfold find_column. cbn [list_find]. rewrite H0, H1, H2, H3.
  destruct s; repeat (case_decide; try congruence); eauto.
Qed.

Lemma all_addrs_cons c cs : all_addrs (c :: cs) = col_tasks c ++ all_addrs cs.
Proof. done. Qed.

Lemma column_tasks_in cs i c a :
  cs !! i = Some c -> a ∈ col_tasks c -> a ∈ all_addrs cs.
Proof.
  revert i. induction cs as [|c' cs IH]; intros i Hi Ha; [done|].
  rewrite all_addrs_cons, elem_of_app.
  destruct i as [|i]; simpl in Hi.
  - left. by simplify_eq.
  - right. by eapply IH.
Qed.

Lemma column_nodup cs i c :
  NoDup (all_addrs cs) -> cs !! i = Some c -> NoDup (col_tasks c).
Proof.
  revert i. induction cs as [|c' cs IH]; intros i Hnd Hi; [done|].
  rewrite all_addrs_cons in Hnd. apply NoDup_app in Hnd as (H1 & _ & H2).
  destruct i as [|i]; simpl in Hi.
  - by simplify_eq.
  - by eapply IH.
Qed.

Lemma columns_disjoint cs i j ci cj a :
  NoDup (all_addrs cs) -> i <> j ->
  cs !! i = Some ci -> cs !! j = Some cj ->
  a ∈ col_tasks ci -> a ∉ col_tasks cj.
Proof.
  revert i j. induction cs as [|c cs IH]; intros i j Hnd Hij Hi Hj Ha; [done|].
  rewrite all_addrs_cons in Hnd. apply NoDup_app in Hnd as (_ & Hd & Hnd).
  destruct i as [|i], j as [|j]; simpl in Hi, Hj; try done.
  - simplify_eq. intros Hin. eapply Hd; [done|]. by eapply column_tasks_in.
  - simplify_eq. intros Hin. eapply Hd; [done|]. by eapply column_tasks_in.
  - eapply (IH i j); try done. congruence.
Qed.
End Lanes.

Section Splice.
Context {A : Type}.
Implicit Types (l : list A) (x : A).

Lemma splice_remove_delete i l : splice_remove i l = delete i l.
Proof. unfold splice_remove. by rewrite delete_take_drop. Qed.

Lemma splice_remove_sublist i l : splice_remove i l `sublist_of` l.
Proof. rewrite splice_remove_delete. apply sublist_delete. Qed.

Lemma splice_remove_elem i l x : x ∈ splice_remove i l -> x ∈ l.
Proof. intros Hx. eapply elem_of_sublist; [done|apply splice_remove_sublist]. Qed.

Lemma take_elem i l x : x ∈ take i l -> x ∈ l.
Proof. intros Hx. eapply elem_of_sublist; [done|apply sublist_take]. Qed.

Lemma drop_elem i l x : x ∈ drop i l -> x ∈ l.
Proof. intros Hx. eapply elem_of_sublist; [done|apply sublist_drop]. Qed.

Lemma splice_insert_lookup i x l :
  i <= length l -> splice_insert i x l !! i = Some x.
Proof.
  intros Hi. unfold splice_insert.
  rewrite lookup_app_r by (rewrite length_take; lia).
  rewrite length_take. by replace (i - i `min` length l) with 0 by lia.
Qed.

Lemma splice_insert_elem i x l y :
  y ∈ splice_insert i x l <-> y = x \/ y ∈ l.
Proof.
  unfold splice_insert. rewrite elem_of_app, elem_of_cons.
  assert (y ∈ l <-> y ∈ take i l \/ y ∈ drop i l) as ->; [|tauto].
  by rewrite <- elem_of_app, take_drop.
Qed.

Lemma splice_insert_nodup i x l :
  NoDup l -> x ∉ l -> NoDup (splice_insert i x l).
Proof.
  intros Hnd Hx. unfold splice_insert.
  rewrite <- (take_drop i l) in Hnd, Hx.
  apply NoDup_app in Hnd as (H1 & H2 & H3).
  rewrite elem_of_app in Hx.
  apply NoDup_app. split_and!; [done| |].
  - intros y Hy. rewrite elem_of_cons. intros [->|Hd]; [tauto|]. by eapply H2.
  - apply NoDup_cons. tauto.
Qed.
End Splice.

Lemma view_splice_remove h (l : list addr) i :
  valid h l -> view h (splice_remove i l) = splice_remove i (view h l).
Proof.
  intros Hv. unfold splice_remove.
  by rewrite view_app, view_take, view_drop.
Qed.


Lemma lane_addrs_found cs s i c :
  find_column s cs = Some (i, c) -> lane_addrs cs s = col_tasks c.
Proof. intros H. unfold lane_addrs. by rewrite H. Qed.

Lemma set_order_idem t o : set_order (set_order t o) o = set_order t o.
Proof. done. Qed.

(** The addresses of every lane after the optimistic update, and the store
    it leaves. *)
Lemma optimistic_update_shape w si di sc dc src dst t :
  find_column (droppableId src) (columns w) = Some (si, sc) ->
  find_column (droppableId dst) (columns w) = Some (di, dc) ->
  let a := length (heap w) in
  let moved := set_order (set_status t (droppableId dst)) (Z.of_nat (index dst)) in
  let rest := if decide (si = di) then splice_remove (index src) (col_tasks sc)
              else col_tasks dc in
  let D := splice_insert (index dst) a rest in
  let w1 := optimistic_update w si di src dst t in
  heap w1 = renumber_from 0 D (heap w ++ [moved]) /\
  lane_addrs (columns w1) (droppableId dst) = D /\
  (si <> di ->
   lane_addrs (columns w1) (droppableId src) = splice_remove (index src) (col_tasks sc)) /\
  (forall C, C <> droppableId src -> C <> droppableId dst ->
     lane_addrs (columns w1) C = lane_addrs (columns w) C).
Proof.
  intros HfA HfB a moved rest D w1.
  destruct (find_column_Some _ _ _ _ HfA) as [HsA HidA].
  destruct (find_column_Some _ _ _ _ HfB) as [HsB HidB].
  set (f := fun c => set_tasks c (splice_remove (index src) (col_tasks c))).
  set (g := fun c => set_tasks c (splice_insert (index dst) a (col_tasks c))).
  assert (Hf : forall c, col_id (f c) = col_id c) by done.
  assert (Hg : forall c, col_id (g c) = col_id c) by done.
  assert (Hcols : columns w1 = alter g di (alter f si (columns w))) by done.
  assert (HD : tasks_at (columns w1) di = D).
  { unfold tasks_at. rewrite Hcols, list_lookup_alter_eq.
    unfold D, rest. destruct (decide (si = di)) as [->|Hn].
    - rewrite list_lookup_alter_eq, HsB. simpl.
      by replace dc with sc by congruence.
    - rewrite list_lookup_alter_ne by done. by rewrite HsB. }
  split; [|split; [|split]].
  - unfold w1, optimistic_update. cbn [alloc]. cbn [heap set_heap setColumns].
    fold a. fold f. fold g. f_equal. rewrite <- HD. by rewrite Hcols.
  - unfold lane_addrs.
    rewrite Hcols, !find_column_alter, HfB by done. simpl.
    rewrite decide_True by done. unfold D, rest.
    destruct (decide (di = si)) as [->|Hn].
    + rewrite decide_True by done. by replace dc with sc by congruence.
    + rewrite decide_False by congruence. done.
  - intros Hn. unfold lane_addrs.
    rewrite Hcols, !find_column_alter, HfA by done. simpl.
    repeat case_decide; done.
  - intros C HCA HCB. unfold lane_addrs.
    rewrite Hcols, !find_column_alter by done.
    destruct (find_column C (columns w)) as [[k c]|] eqn:HfC; [|done]. simpl.
    destruct (find_column_Some _ _ _ _ HfC) as [HsC HidC].
    rewrite (decide_False (P := k = si)) by (intros ->; congruence).
    rewrite (decide_False (P := k = di)) by (intros ->; congruence). done.
Qed.


(** C1 (as amended). A drag from lane [A], position [i], to a different
    (lane, position) [(B, j)], with valid positions, passes the guards of
    [handleDragEnd] and asks [onTaskUpdate] for [{status: B, order: j}]. In
    the board it leaves, lane [B] is the old lane (less the entry at [i] when
    [A = B]) with the moved task, now of status [B] and order [j], spliced in
    at [j], and every task of lane [B] carries its position as [order]; the
    moved task sits at position [j]. When [A] and [B] differ, lane [A] is the
    old lane less the entry at [i], every remaining task as it was, [order]
    included; the other lanes are as they were. *)
Theorem drag_moves_and_renumbers
    (w : World) (r : DropResult) (dst : DraggableLocation) (t : Task) :
  let src := source r in
  let A := droppableId src in
  let B := droppableId dst in
  let moved := set_order (set_status t B) (Z.of_nat (index dst)) in
  let rest := if decide (A = B) then splice_remove (index src) (lane w A)
              else lane w B in
  wf_board w ->
  destination r = Some dst ->
  dst <> src ->
  lane w A !! index src = Some t ->
  find_task (heap w) (lane_addrs (columns w) A) (draggableId r) = Some t ->
  index dst <= length rest ->
  exists w1 destColumn,
    reconcile r w = Some (w1, destColumn, (draggableId r, move_request dst)) /\
    u_status (move_request dst) = Some B /\
    u_order (move_request dst) = Some (Z.of_nat (index dst)) /\
    lane w1 B = renumbered (splice_insert (index dst) moved rest) /\
    lane w1 B !! index dst = Some moved /\
    (A <> B -> lane w1 A = splice_remove (index src) (lane w A)) /\
    (forall C, C <> A -> C <> B -> lane w1 C = lane w C).
Proof.
  intros src A B moved rest [Hids Hnd Hval] Hdst Hne Hsrc Hid Hj.
  destruct (find_column_total (columns w) A Hids) as (si & sc & HfA).
  destruct (find_column_total (columns w) B Hids) as (di & dc & HfB).
  destruct (find_column_Some _ _ _ _ HfA) as [HsA HidA].
  destruct (find_column_Some _ _ _ _ HfB) as [HsB HidB].
  assert (Hsd : si = di <-> A = B).
  { split; [intros ->; congruence|]. intros HAB. rewrite HAB in HfA. congruence. }
  (* the guards *)
  unfold reconcile. rewrite Hdst. fold src.
  rewrite decide_False; cycle 1.
  { intros [H1 H2]. apply Hne. destruct dst, src; simpl in *; congruence. }
  fold A B. rewrite HfA, HfB.
  rewrite (lane_addrs_found _ _ _ _ HfA) in Hid. rewrite Hid.
  eexists _, _. split; [reflexivity|]. split; [done|]. split; [done|].
  (* the lanes, as references *)
  destruct (optimistic_update_shape w si di sc dc src dst t HfA HfB)
    as (Hheap & HB & HA & HC).
  set (w1 := optimistic_update w si di src dst t) in *.
  set (a := length (heap w)) in *.
  set (radd := if decide (si = di) then splice_remove (index src) (col_tasks sc)
               else col_tasks dc) in *.
  set (D := splice_insert (index dst) a radd) in *.
  fold B in HB. fold A in HA.
  change (heap w1 = renumber_from 0 D (heap w ++ [moved])) in Hheap.
  assert (HvA : valid (heap w) (col_tasks sc)).
  { eapply valid_sub; [|exact Hval]. intros x Hx.
    by apply (column_tasks_in _ si sc). }
  assert (HvB : valid (heap w) (col_tasks dc)).
  { eapply valid_sub; [|exact Hval]. intros x Hx.
    by apply (column_tasks_in _ di dc). }
  assert (HndA : NoDup (col_tasks sc)) by (eapply column_nodup; eauto).
  assert (HndB : NoDup (col_tasks dc)) by (eapply column_nodup; eauto).
  assert (Hradd_sub : radd ⊆ all_addrs (columns w)).
  { intros x Hx. unfold radd in Hx. destruct (decide (si = di)).
    - eapply column_tasks_in; [exact HsA|]. by eapply splice_remove_elem.
    - by apply (column_tasks_in _ di dc). }
  assert (Hvr : valid (heap w) radd) by (eapply valid_sub; eauto).
  assert (Hndr : NoDup radd).
  { unfold radd. destruct (decide (si = di)); [|done].
    eapply sublist_NoDup; [exact HndA|apply splice_remove_sublist]. }
  assert (Hfresh : forall x, x ∈ all_addrs (columns w) -> x <> a).
  { intros x Hx. unfold valid in Hval. rewrite Forall_forall in Hval.
    specialize (Hval x Hx). unfold a. lia. }
  assert (Hrest : view (heap w) radd = rest).
  { unfold radd, rest. destruct (decide (si = di)) as [He|He].
    - rewrite decide_True by tauto. rewrite view_splice_remove by done.
      unfold lane. by rewrite (lane_addrs_found _ _ _ _ HfA).
    - rewrite decide_False by tauto.
      unfold lane. by rewrite (lane_addrs_found _ _ _ _ HfB). }
  assert (HviewD : view (heap w ++ [moved]) D = splice_insert (index dst) moved rest).
  { unfold D, splice_insert. rewrite view_app.
    rewrite (view_cons_valid _ a _ moved); cycle 1.
    { unfold a. by rewrite lookup_app_r, Nat.sub_diag by lia. }
    rewrite !view_alloc.
    - by rewrite view_take, view_drop, Hrest.
    - eapply valid_sub; [|exact Hvr]. intros x Hx. by eapply drop_elem.
    - eapply valid_sub; [|exact Hvr]. intros x Hx. by eapply take_elem. }
  assert (HlaneB : lane w1 B = renumbered (splice_insert (index dst) moved rest)).
  { unfold lane. rewrite HB, Hheap, renumber_view, HviewD; [done| |].
    - apply splice_insert_nodup; [done|]. intros Hin.
      by apply (Hfresh a (Hradd_sub a Hin)).
    - unfold valid. rewrite Forall_forall. intros x Hx.
      apply splice_insert_elem in Hx as [->|Hx].
      + rewrite length_app. simpl. unfold a. lia.
      + unfold valid in Hvr. rewrite Forall_forall in Hvr.
        specialize (Hvr x Hx). rewrite length_app. lia. }
  (* objects of the other lanes are not in the destination lane *)
  assert (Hframe : forall l, l ⊆ all_addrs (columns w) ->
            (forall x, x ∈ l -> x ∉ radd) ->
            view (heap w1) l = view (heap w) l).
  { intros l Hl Hdisj. rewrite Hheap, renumber_frame.
    - apply view_alloc. by eapply valid_sub.
    - intros x Hx HxD. apply splice_insert_elem in HxD as [->|HxD].
      + by apply (Hfresh a (Hl a Hx)).
      + by apply (Hdisj x Hx). }
  split; [done|]. split; [|split].
  - rewrite HlaneB. unfold renumbered. rewrite list_lookup_imap.
    rewrite splice_insert_lookup by done. done.
  - intros HAB. assert (Hn : si <> di) by tauto.
    unfold lane at 1. rewrite (HA Hn).
    assert (Hs : splice_remove (index src) (col_tasks sc) ⊆ col_tasks sc).
    { intros x Hx. by eapply splice_remove_elem. }
    rewrite Hframe.
    + rewrite view_splice_remove by done.
      unfold lane. by rewrite (lane_addrs_found _ _ _ _ HfA).
    + intros x Hx. eapply column_tasks_in; [exact HsA|]. by apply Hs.
    + intros x Hx. unfold radd. rewrite decide_False by done.
      eapply columns_disjoint; [exact Hnd|exact Hn|exact HsA|exact HsB|].
      by apply Hs.
  - intros C HCA HCB. unfold lane at 1. rewrite (HC C HCA HCB).
    unfold lane, lane_addrs.
    destruct (find_column C (columns w)) as [[k c]|] eqn:HfC; [|done].
    destruct (find_column_Some _ _ _ _ HfC) as [HsC HidC].
    assert (Hks : k <> si) by (intros ->; congruence).
    assert (Hkd : k <> di) by (intros ->; congruence).
    apply Hframe.
    + intros x Hx. by apply (column_tasks_in _ k c).
    + intros x Hx Hr. unfold radd in Hr. destruct (decide (si = di)).
      * eapply (columns_disjoint (columns w) k si c sc x); try done.
        by eapply splice_remove_elem.
      * by eapply (columns_disjoint (columns w) k di c dc x).
Qed.


(** *** Every rendered board is well formed *)

Lemma insert_by_order_perm h a l : insert_by_order h a l ≡ₚ a :: l.
Proof.
  induction l as [|b l IH]; [done|]. cbn.
  destruct (order_at h a <=? order_at h b)%Z; [done|].
  rewrite IH. apply Permutation_swap.
Qed.

Lemma sort_by_order_perm h l : sort_by_order h l ≡ₚ l.
Proof.
  induction l as [|a l IH]; [done|].
  unfold sort_by_order in *. cbn [foldr].
  by rewrite insert_by_order_perm, IH.
Qed.

Lemma organize_lane h tasks s :
  lane_addrs (organize h tasks) s
  = sort_by_order h (filter (fun a => status <$> h !! a = Some s) tasks).
Proof. by destruct s. Qed.

(** The lanes [organize] builds from a list of distinct live objects. *)
Lemma organize_wf h tasks c :
  NoDup tasks -> valid h tasks -> wf_board (Examples.render h tasks c).
Proof.
  intros Hnd Hv.
  set (lane_of s := filter (fun a => status <$> h !! a = Some s) tasks).
  assert (Hall : all_addrs (organize h tasks)
            ≡ₚ lane_of TODO ++ lane_of IN_PROGRESS ++ lane_of REVIEW ++ lane_of DONE).
  { cbn. rewrite !sort_by_order_perm. by rewrite app_nil_r. }
  assert (Hin : forall s a, a ∈ lane_of s -> a ∈ tasks /\ status <$> h !! a = Some s).
  { intros s a Ha. apply list_elem_of_filter in Ha. tauto. }
  assert (Hlane : forall s, NoDup (lane_of s)) by (intros s; by apply NoDup_filter).
  assert (Hdisj : forall s s' a, s <> s' -> a ∈ lane_of s -> a ∉ lane_of s').
  { intros s s' a Hne Ha Ha'. apply Hin in Ha as [_ Ha]. apply Hin in Ha' as [_ Ha'].
    congruence. }
  split; cbn [columns heap Examples.render].
  - done.
  - rewrite Hall.
    apply NoDup_app. split_and!; [apply Hlane| |].
    { intros a Ha. rewrite !elem_of_app. intros [Hb|[Hb|Hb]];
        (refine (Hdisj _ _ a _ Ha Hb); discriminate). }
    apply NoDup_app. split_and!; [apply Hlane| |].
    { intros a Ha. rewrite !elem_of_app. intros [Hb|Hb];
        (refine (Hdisj _ _ a _ Ha Hb); discriminate). }
    apply NoDup_app. split_and!; [apply Hlane| |apply Hlane].
    intros a Ha Hb. (refine (Hdisj _ _ a _ Ha Hb); discriminate).
  - unfold valid in *. rewrite Hall, !Forall_app. rewrite Forall_forall in Hv.
    split_and!; apply Forall_forall; intros a Ha; apply Hv; apply Hin in Ha; tauto.
Qed.


(** Well-formedness of a concrete board, by evaluation. *)
Ltac solve_wf_board :=
  split;
  [ reflexivity
  | apply (bool_decide_unpack _); vm_compute; exact I
  | unfold valid; apply (bool_decide_unpack _); vm_compute; exact I ].

(** Witness of [drag_moves_and_renumbers]: the scenario of the
    specification, task 2 dragged from To Do to the head of Done. *)
Lemma drag_moves_and_renumbers_witness :
  exists w1 destColumn,
    reconcile Examples.move_2_to_done Examples.two_todo
    = Some (w1, destColumn, ("2", move_request (mkLoc DONE 0))) /\
    lane w1 DONE = [Examples.task_of "2" DONE 0] /\
    lane w1 TODO = [Examples.task_of "1" TODO 0].
Proof.
  destruct (drag_moves_and_renumbers Examples.two_todo Examples.move_2_to_done
              (mkLoc DONE 0) (Examples.task_of "2" TODO 1))
    as (w1 & dc & Hrec & _ & _ & HB & _ & HA & _).
  - solve_wf_board.
  - reflexivity.
  - discriminate.
  - reflexivity.
  - reflexivity.
  - vm_compute. lia.
  - exists w1, dc. split; [exact Hrec|]. split.
    + etrans; [exact HB|reflexivity].
    + etrans; [exact (HA ltac:(discriminate))|reflexivity].
Defined.

(** C1, as stated, fails for a drag within one lane: the lane is both source
    and destination, and the task that stays in it is renumbered. Task [a]
    is dragged from position 0 to position 1 of a To Do lane holding [a]
    (order 5) and [b] (order 7); [b] ends with order 0. *)
Lemma same_lane_drag_renumbers_source_lane :
  wf_board Examples.sparse_todo /\
  lane Examples.sparse_todo TODO
  = [Examples.task_of "a" TODO 5; Examples.task_of "b" TODO 7] /\
  match reconcile Examples.swap_in_todo Examples.sparse_todo with
  | Some (w1, _, _) =>
      lane w1 TODO = [Examples.task_of "b" TODO 0; Examples.task_of "a" TODO 1]
  | None => False
  end.
Proof.
  split; [|split]; [|reflexivity|reflexivity].
  solve_wf_board.
Qed.

(** C3. A drop outside every lane, or onto the position the task came from,
    changes nothing: [handleDragEnd] returns before touching the board, the
    object store or the cache, and without calling [onTaskUpdate]. *)
Theorem drop_outside_or_in_place_is_noop
    (tasks : list addr)
    (onTaskUpdate : string -> TaskUpdates -> World -> World * bool)
    (r : DropResult) (w : World) :
  destination r = None \/ destination r = Some (source r) ->
  reconcile r w = None /\ handleDragEnd tasks onTaskUpdate r w = w.
Proof.
  intros H.
  assert (Hr : reconcile r w = None).
  { unfold reconcile. destruct H as [-> | ->]; [done|].
    by rewrite decide_True. }
  split; [done|]. unfold handleDragEnd. by rewrite Hr.
Qed.

Lemma drop_outside_or_in_place_is_noop_witness :
  handleDragEnd [0; 1] (fun _ _ w => (setQueryData w None, false))
    (mkDrop (Some (mkLoc TODO 1)) (mkLoc TODO 1) "2") Examples.two_todo
  = Examples.two_todo.
Proof.
  apply (drop_outside_or_in_place_is_noop [0; 1]
           (fun _ _ w => (setQueryData w None, false))
           (mkDrop (Some (mkLoc TODO 1)) (mkLoc TODO 1) "2") Examples.two_todo).
  right. reflexivity.
Defined.


End BoardFacts.


(** ** The query client: retries, optimistic write and rollback *)

Module CacheFacts.
Import Board Cache.

(** *** Retry callbacks *)

Lemma auth_denied_spec e :
  auth_denied e = true <-> err_status e = Some 401 \/ err_status e = Some 403.
Proof.
  unfold auth_denied. rewrite orb_true_iff, !bool_decide_eq_true. tauto.
Qed.

(** An error that does carry status 401 or 403 is never retried. *)
Lemma status_carrying_denial_not_retried e k :
  err_status e = Some 401 \/ err_status e = Some 403 ->
  queries_retry k e = false /\ mutations_retry k e = false.
Proof.
  intros H. apply auth_denied_spec in H.
  unfold queries_retry, mutations_retry. by rewrite H.
Qed.

(** Any other error is retried while fewer than three (reads) or fewer than
    one (mutations) failures came before. *)
Lemma other_errors_retry_budget e k :
  auth_denied e = false ->
  queries_retry k e = (k <? 3) /\ mutations_retry k e = (k <? 1).
Proof. intros H. unfold queries_retry, mutations_retry. by rewrite H. Qed.

(** Whatever the response, the value a helper throws has no [status]. *)
Lemma helper_errors_carry_no_status {T R} fallback (extract : ApiResponse T -> R)
    (response : Response T) (e : JsError) :
  read_response fallback extract response = inl e -> err_status e = None.
Proof.
  unfold read_response, http_failure.
  destruct (negb (ok response)); [by intros [= <-]|].
  destruct (json response) as [m|d]; [by intros [= <-]|].
  destruct (negb (success d)); [by intros [= <-]|done].
Qed.

Lemma helper_errors_retry_budget {T R} fallback (extract : ApiResponse T -> R)
    (response : Response T) (e : JsError) (k : nat) :
  read_response fallback extract response = inl e ->
  queries_retry k e = (k <? 3) /\ mutations_retry k e = (k <? 1).
Proof.
  intros H. apply other_errors_retry_budget.
  unfold auth_denied. by rewrite (helper_errors_carry_no_status _ _ _ _ H).
Qed.

(** Under [mutations_retry] a mutation settles within two attempts. *)
Lemma settle_mutation_total {R} (attempt : nat -> JsError + R) :
  exists n res, settle mutations_retry attempt 2 0 = Some (n, res) /\ n <= 2.
Proof.
  cbn [settle]. destruct (attempt 0) as [e0|v0]; [|eauto].
  destruct (mutations_retry 0 e0); [|eauto].
  destruct (attempt 1) as [e1|v1]; [|eauto].
  assert (mutations_retry 1 e1 = false) as ->; [|eauto].
  unfold mutations_retry. by destruct (auth_denied e1).
Qed.

(** Under [queries_retry] a read settles within four attempts. *)
Lemma settle_query_total {R} (attempt : nat -> JsError + R) :
  exists n res, settle queries_retry attempt 4 0 = Some (n, res) /\ n <= 4.
Proof.
  assert (Hle : forall n, n <= 4 -> forall res : JsError + R,
            exists n' res', Some (n, res) = Some (n', res') /\ n' <= 4) by eauto.
  cbn [settle].
  destruct (attempt 0) as [e0|v0]; [|apply Hle; lia].
  destruct (queries_retry 0 e0); [|apply Hle; lia].
  destruct (attempt 1) as [e1|v1]; [|apply Hle; lia].
  destruct (queries_retry 1 e1); [|apply Hle; lia].
  destruct (attempt 2) as [e2|v2]; [|apply Hle; lia].
  destruct (queries_retry 2 e2); [|apply Hle; lia].
  destruct (attempt 3) as [e3|v3]; [|apply Hle; lia].
  assert (queries_retry 3 e3 = false) as ->; [|apply Hle; lia].
  unfold queries_retry. by destruct (auth_denied e3).
Qed.

(** C7, where the code departs from it. To a response that is not [ok],
    whatever its status, 401 and 403 included, a fetch helper answers by
    throwing an [Error] without [status]. The read callback therefore grants
    a retry at every failure count below three and the mutation callback at
    failure count zero: a request that keeps being denied is attempted four
    times as a read and twice as a mutation. *)
Theorem denied_requests_are_retried {T R} (fallback : string)
    (extract : ApiResponse T -> R) (response : Response T) :
  ok response = false ->
  http_status response = 401 \/ http_status response = 403 ->
  let helper := read_response fallback extract in
  let e := http_failure response in
  helper response = inl e /\
  err_status e = None /\
  (forall k, queries_retry k e = (k <? 3)) /\
  (forall k, mutations_retry k e = (k <? 1)) /\
  settle queries_retry (fun _ => helper response) 4 0 = Some (4, inl e) /\
  settle mutations_retry (fun _ => helper response) 2 0 = Some (2, inl e).
Proof.
  intros Hok _ helper e.
  assert (Hthrow : helper response = inl e).
  { unfold helper, read_response. by rewrite Hok. }
  assert (Hq : forall k, queries_retry k e = (k <? 3)) by done.
  assert (Hm : forall k, mutations_retry k e = (k <? 1)) by done.
  split_and!; try done.
  - cbn [settle]. by rewrite Hthrow, !Hq.
  - cbn [settle]. by rewrite Hthrow, !Hm.
Qed.

Lemma denied_requests_are_retried_witness :
  fetchTasks Examples.unauthorized = inl (mkError "Unauthorized" None) /\
  queries_retry 0 (mkError "Unauthorized" None) = true /\
  settle queries_retry (fun _ => fetchTasks Examples.unauthorized) 4 0
  = Some (4, inl (mkError "Unauthorized" None)) /\
  settle mutations_retry (fun _ => updateTask Examples.unauthorized) 2 0
  = Some (2, inl (mkError "Unauthorized" None)).
Proof.
  destruct (denied_requests_are_retried "Failed to fetch tasks"
              (fun d : ApiResponse (option (list Task)) => default [] (mjoin (data d)))
              Examples.unauthorized eq_refl (or_introl eq_refl))
    as (Hthrow & _ & Hq & _ & Hsettle & _).
  destruct (denied_requests_are_retried "Failed to update task"
              (@data Task) Examples.unauthorized eq_refl (or_introl eq_refl))
    as (_ & _ & _ & _ & _ & Hmut).
  split; [exact Hthrow|]. split; [exact (Hq 0)|]. split; [exact Hsettle|exact Hmut].
Defined.


(** *** The optimistic write *)

Lemma optimistic_map_spec taskId updates old :
  forall h, valid h old ->
    (exists ext, (optimistic_map taskId updates h old).1 = h ++ ext) /\
    view (optimistic_map taskId updates h old).1
         (optimistic_map taskId updates h old).2
    = apply_update taskId updates <$> view h old /\
    Forall2 (same_unless_target taskId h) old
            (optimistic_map taskId updates h old).2.
Proof.
  induction old as [|a rest IH]; intros h Hv.
  { split; [exists []; by rewrite app_nil_r|]. split; [done|constructor]. }
  apply valid_cons in Hv as [Ha Hv].
  destruct (lookup_lt_is_Some_2 h a Ha) as [t Ht].
  cbn [optimistic_map]. rewrite Ht.
  rewrite (view_cons_valid h a rest t Ht). cbn [fmap list_fmap].
  destruct (decide (id t = taskId)) as [Hid|Hid]; cbn [alloc].
  - assert (apply_update taskId updates t = merge t updates) as ->
      by (unfold apply_update; by rewrite decide_True).
    assert (Hv1 : valid (h ++ [merge t updates]) rest).
    { eapply valid_grow; [|exact Hv]. rewrite length_app. lia. }
    destruct (IH _ Hv1) as ([ext Hext] & Hview & Hsame).
    destruct (optimistic_map taskId updates (h ++ [merge t updates]) rest)
      as [h2 rest'] eqn:Hom.
    cbn [fst snd] in *. subst h2. split; [|split].
    + exists (merge t updates :: ext). by rewrite <- app_assoc.
    + rewrite (view_cons_valid _ (length h) rest' (merge t updates)).
      * f_equal. rewrite Hview. f_equal. by apply view_alloc.
      * rewrite <- app_assoc. by rewrite lookup_app_r, Nat.sub_diag by lia.
    + constructor.
      * intros u Hu Hne. congruence.
      * eapply Forall2_impl; [exact Hsame|]. intros x y Hxy u Hu Hne.
        destruct (decide (x < length h)) as [Hlt|Hge].
        -- apply (Hxy u); [by rewrite lookup_app_l|done].
        -- apply lookup_lt_Some in Hu. lia.
  - assert (apply_update taskId updates t = t) as ->
      by (unfold apply_update; by rewrite decide_False).
    destruct (IH _ Hv) as ([ext Hext] & Hview & Hsame).
    destruct (optimistic_map taskId updates h rest) as [h2 rest'] eqn:Hom.
    cbn [fst snd] in *. subst h2. split; [|split].
    + by exists ext.
    + rewrite (view_cons_valid _ a rest' t); [by rewrite Hview|].
      by rewrite lookup_app_l.
    + constructor; [done|exact Hsame].
Qed.




(** *** Rollback *)

Lemma optimistic_map_extends taskId updates old :
  forall h, exists ext, (optimistic_map taskId updates h old).1 = h ++ ext.
Proof.
  induction old as [|a rest IH]; intros h.
  { exists []. by rewrite app_nil_r. }
  cbn [optimistic_map].
  destruct (h !! a) as [t|]; [destruct (decide (id t = taskId))|]; cbn [alloc].
  - destruct (IH (h ++ [merge t updates])) as [ext Hext].
    destruct (optimistic_map taskId updates (h ++ [merge t updates]) rest).
    cbn [fst] in *. subst. exists (merge t updates :: ext). by rewrite <- app_assoc.
  - destruct (IH h) as [ext Hext].
    destruct (optimistic_map taskId updates h rest). by exists ext.
  - destruct (IH h) as [ext Hext].
    destruct (optimistic_map taskId updates h rest). by exists ext.
Qed.

Lemma onMutate_spec taskId updates w :
  (onMutate taskId updates w).2 = cache w /\
  cache (onMutate taskId updates w).1
  = Some (match cache w with
          | Some old => (optimistic_map taskId updates (heap w) old).2
          | None => []
          end) /\
  (exists ext, heap (onMutate taskId updates w).1 = heap w ++ ext) /\
  columns (onMutate taskId updates w).1 = columns w /\
  notices (onMutate taskId updates w).1 = notices w.
Proof.
  unfold onMutate. cbn [fst snd]. destruct (cache w) as [old|].
  - destruct (optimistic_map_extends taskId updates old (heap w)) as [ext Hext].
    destruct (optimistic_map taskId updates (heap w) old) as [h1 new].
    cbn in *. split_and!; try done. by exists ext.
  - cbn. split_and!; try done. exists []. by rewrite app_nil_r.
Qed.

Lemma reconcile_keeps_cache r w w1 destColumn q :
  reconcile r w = Some (w1, destColumn, q) ->
  cache w1 = cache w /\ notices w1 = notices w.
Proof.
  unfold reconcile. intros H.
  destruct (destination r) as [dst|]; [|done].
  case_decide; [done|].
  destruct (find_column _ _) as [[si sc]|]; [|done].
  destruct (find_column _ _) as [[di dc]|]; [|done].
  destruct (find_task _ _ _) as [t|]; [|done].
  by simplify_eq.
Qed.




(** The write of line 130 goes through to the objects the [tasks] prop and
    the cached list refer to. Task 1 is dragged to the head of a Done lane
    whose tasks have orders 5 and 7, and the request fails: the list that is
    put back names the same objects, which now carry orders 1 and 2, and the
    rebuilt Done lane shows them so. *)
Example renumbering_reaches_cached_objects :
  let w := Examples.sparse_done in
  let w' := handleDragEnd [0; 1; 2] (mutateAsync (fun _ => Examples.server_error))
              Examples.move_1_to_done w in
  order <$> view (heap w) [0; 1; 2] = [0; 5; 7]%Z /\
  cache w' = Some [0; 1; 2] /\
  order <$> view (heap w') [0; 1; 2] = [0; 1; 2]%Z /\
  order <$> lane w DONE = [5; 7]%Z /\
  order <$> lane w' DONE = [1; 2]%Z.
Proof. repeat split. Qed.

(** With the dashboard's [handleTaskUpdate], which catches the rejection,
    the promise the board awaits always resolves: the board never takes its
    catch block, and its lanes stay as the optimistic update left them. *)
Lemma dashboard_board_is_not_reverted
    (tasks : list addr) (responses : nat -> Response Task)
    (r : DropResult) (w w1 : World) (destColumn : BoardColumn)
    (q : string * TaskUpdates) :
  reconcile r w = Some (w1, destColumn, q) ->
  columns (handleDragEnd tasks (handleTaskUpdate responses) r w) = columns w1.
Proof.
  intros Hrec. unfold handleDragEnd. rewrite Hrec. destruct q as [taskId updates].
  unfold handleTaskUpdate, mutateAsync.
  destruct (onMutate_spec taskId updates w1) as (_ & _ & _ & Hcols & _).
  destruct (onMutate taskId updates w1) as [w2 previousTasks].
  cbn [fst snd] in *.
  destruct (settle_mutation_total (fun k => updateTask (responses k)))
    as (n & res & -> & _).
  destruct res as [e|v]; cbn; [|done]. by destruct previousTasks.
Qed.


End CacheFacts.


(** ** The analytics summary *)

Module AnalyticsFacts.
Import Analytics.

Lemma diffInDays_finite task : is_finite (diffInDays task) = true.
Proof. unfold diffInDays. by rewrite js_div_of_Z. Qed.

Lemma sum_finite (l : list Task) (acc : JsNum) :
  is_finite acc = true ->
  is_finite (foldl (fun acc task => js_add acc (diffInDays task)) acc l) = true.
Proof.
  revert acc. induction l as [|t l IH]; intros acc Hacc; [done|].
  cbn [foldl]. apply IH.
  pose proof (diffInDays_finite t) as Ht.
  destruct acc, (diffInDays t); done.
Qed.

Lemma div_by_count_finite (a : JsNum) (n : nat) :
  is_finite a = true -> 0 < n -> is_finite (js_div a (of_nat n)) = true.
Proof.
  intros Ha Hn. destruct a as [p| |]; try done.
  unfold of_nat, of_Z, num. cbn [js_div].
  rewrite Qzero_of_Z by lia. done.
Qed.




End AnalyticsFacts.


(** ** The route handlers *)

Module ApiFacts.
Import Api.

(** *** Completion date *)

(** The single-task update stamps the completion date on entering Done and
    clears it on every update that names another status. *)
Lemma single_update_completion
    (parse_date : string -> Z) (now : Z) (d : UpdateTaskData) (t : Task)
    (s : TaskStatus) :
  v_status d = Some s ->
  let t' := apply_data now (updateData parse_date now d t) t in
  status t' = s /\
  (s = DONE -> status t <> DONE -> completedAt t' = Some now) /\
  (s <> DONE -> completedAt t' = None).
Proof.
  intros Hs. cbn. rewrite Hs. cbn. split; [done|]. split.
  - intros -> Hne. by rewrite decide_True.
  - intros Hne. rewrite decide_False by tauto. by rewrite decide_True.
Qed.

(** A bulk item that enters Done stamps the completion date. *)
Lemma bulk_update_into_done (now : Z) (uid : string) (item : BulkItem)
    (db db' : Db) (t : Task) :
  bulk_update_one now uid item db = Some db' ->
  b_status item = DONE ->
  t ∈ tasks db' -> id t = b_id item -> userId t = uid ->
  completedAt t = Some now /\ status t = DONE.
Proof.
  unfold bulk_update_one. destruct (find_task _ _ _) as [found|]; [|done].
  intros [= <-] Hd Ht Hid Hu. cbn in Ht.
  apply list_elem_of_fmap in Ht as (row & -> & Hrow).
  destruct (decide (id row = b_id item /\ userId row = uid)) as [_|Hn].
  - cbn. by rewrite decide_True.
  - tauto.
Qed.




(** *** Ownership *)

Lemma find_task_not_owned (tid uid : string) (db : Db) :
  (forall t, t ∈ tasks db -> id t = tid -> userId t <> uid) ->
  find_task tid uid db = None.
Proof.
  intros H. unfold find_task.
  assert (list_find (fun t => id t = tid /\ userId t = uid) (tasks db) = None) as ->;
    [|done].
  apply list_find_None, Forall_forall. intros t Ht [Hid Hu]. by apply (H t).
Qed.

Lemma find_project_not_owned (pid uid : string) (db : Db) :
  (forall p, p ∈ projects db -> p_id p = pid -> p_userId p <> uid) ->
  find_project pid uid db = None.
Proof.
  intros H. unfold find_project.
  assert (list_find (fun p => p_id p = pid /\ p_userId p = uid) (projects db) = None)
    as ->; [|done].
  apply list_find_None, Forall_forall. intros p Hp [Hid Hu]. by apply (H p).
Qed.

(** C5 (as amended). A signed-in user addresses task [tid] and project
    [pid], neither of which is theirs in the store [db]; in the store [db0]
    no such task or project exists at all. Every read, update and delete
    answers the same on [db] as on [db0] and leaves the store as it was.
    That answer is 404 for every read and delete, for every task update
    whose body passes the schema, and for every project update whose body
    is JSON other than [null]; a rejected body is answered 400 or 500 before
    the store is consulted. *)
Theorem non_owner_cannot_tell_existing_from_absent
    (is_datetime : string -> bool) (parse_date : string -> Z) (now : Z)
    (uid tid pid : string) (body : option Json) (db db0 : Db) :
  (forall t, t ∈ tasks db -> id t = tid -> userId t <> uid) ->
  (forall p, p ∈ projects db -> p_id p = pid -> p_userId p <> uid) ->
  (forall t, t ∈ tasks db0 -> id t <> tid) ->
  (forall p, p ∈ projects db0 -> p_id p <> pid) ->
  let s := Some uid in
  let put_task := PUT_task is_datetime parse_date now s tid body in
  let put_project := PUT_project now s pid body in
  GET_task s tid db = (failure 404 "Task not found", db) /\
  GET_task s tid db0 = (failure 404 "Task not found", db0) /\
  DELETE_task s tid db = (failure 404 "Task not found", db) /\
  DELETE_task s tid db0 = (failure 404 "Task not found", db0) /\
  GET_project s pid db = (failure 404 "Project not found", db) /\
  GET_project s pid db0 = (failure 404 "Project not found", db0) /\
  DELETE_project s pid db = (failure 404 "Project not found", db) /\
  DELETE_project s pid db0 = (failure 404 "Project not found", db0) /\
  (put_task db).1 = (put_task db0).1 /\ (put_task db).2 = db /\
  (put_project db).1 = (put_project db0).1 /\ (put_project db).2 = db /\
  (forall b d, body = Some b -> updateTaskSchema is_datetime b = Valid d ->
     (put_task db).1 = failure 404 "Task not found") /\
  (forall b, body = Some b -> b <> JNull ->
     (put_project db).1 = failure 404 "Project not found").
Proof.
  intros Ht Hp Ht0 Hp0 s put_task put_project.
  assert (Hft : find_task tid uid db = None) by by apply find_task_not_owned.
  assert (Hfp : find_project pid uid db = None) by by apply find_project_not_owned.
  assert (Hft0 : find_task tid uid db0 = None).
  { apply find_task_not_owned. intros t Hin Hid. by destruct (Ht0 t Hin). }
  assert (Hfp0 : find_project pid uid db0 = None).
  { apply find_project_not_owned. intros p Hin Hid. by destruct (Hp0 p Hin). }
  unfold put_task, put_project, s, GET_task, DELETE_task, GET_project,
    DELETE_project, PUT_task, PUT_project.
  rewrite Hft, Hft0, Hfp, Hfp0.
  split_and!; try done.
  - destruct body as [b|]; [|done]. by destruct (updateTaskSchema is_datetime b).
  - destruct body as [b|]; [|done]. by destruct (updateTaskSchema is_datetime b).
  - by destruct body as [[]|].
  - by destruct body as [[]|].
  - intros b d -> Hv. by rewrite Hv.
  - intros b -> Hb. by destruct b.
Qed.

Lemma non_owner_cannot_tell_existing_from_absent_witness :
  GET_task (Some "user2") "1" Examples.one_done
  = (failure 404 "Task not found", Examples.one_done) /\
  DELETE_project (Some "user2") "p1" Examples.one_done
  = (failure 404 "Project not found", Examples.one_done).
Proof.
  destruct (non_owner_cannot_tell_existing_from_absent
              Examples.any_datetime Examples.epoch 9 "user2" "1" "p1" None
              Examples.one_done (mkDb [] [] []))
    as (Hg & _ & _ & _ & _ & _ & Hd & _).
  - intros t Ht _. apply list_elem_of_In in Ht. simpl in Ht.
    destruct Ht as [<-|[]]. discriminate.
  - intros p Hp _. apply list_elem_of_In in Hp. simpl in Hp.
    destruct Hp as [<-|[]]. discriminate.
  - intros t Ht. apply list_elem_of_In in Ht. destruct Ht.
  - intros p Hp. apply list_elem_of_In in Hp. destruct Hp.
  - split; [exact Hg|exact Hd].
Defined.

(** C5, as stated, fails for an update whose body is rejected: validation
    comes before the ownership check. User 2 sends an empty title for task
    1, which exists and belongs to user 1, and is answered 400, not 404. *)
Lemma invalid_update_of_foreign_task_is_400 :
  (userId <$> Api.find_task "1" "user1" Examples.one_done) = Some "user1" /\
  (PUT_task Examples.any_datetime Examples.epoch 9 (Some "user2") "1"
     (Some (JObj [("title", JStr "")])) Examples.one_done).1
  = mkReply 400 (Some false) NoPayload (Some "Validation error")
            (Some (Text "Title is required")) /\
  400 <> 404.
Proof. repeat split. lia. Qed.


(** *** Validation of a new task *)

Lemma conclude_filed key {A} (a : A) (l : list ZodIssue) :
  Forall (fun i => head (path i) = Some key) l -> filed_under key (conclude a l).
Proof. intros H. by destruct l. Qed.

Lemma check_filed key b p m :
  Forall (fun i => head (path i) = Some key) (check b (mkIssue (key :: p) m)).
Proof. destruct b; repeat constructor. Qed.

Lemma z_string_filed key min max v : filed_under key (z_string [key] min max v).
Proof.
  unfold z_string. destruct v as [[]|]; try (split; [done|by repeat constructor]).
  apply conclude_filed, Forall_app. split.
  - destruct min as [[n m]|]; [apply check_filed|constructor].
  - destruct max; [apply check_filed|constructor].
Qed.

Lemma z_optional_filed key {A} (parse : option Json -> Parsed A) v :
  (forall v, filed_under key (parse v)) -> filed_under key (z_optional parse v).
Proof.
  intros H. unfold z_optional. destruct v as [j|]; [|done].
  specialize (H (Some j)). by destruct (parse (Some j)).
Qed.

Lemma z_enum_filed key {A} (options : list (string * A)) v :
  filed_under key (z_enum [key] options v).
Proof.
  unfold z_enum. destruct v as [[]|]; try (split; [done|by repeat constructor]).
  destruct (list_find _ _) as [[? []]|]; [done|].
  split; [done|by repeat constructor].
Qed.

Lemma z_datetime_filed is_datetime key v :
  filed_under key (z_datetime is_datetime [key] v).
Proof.
  unfold z_datetime. destruct v as [[]|]; try (split; [done|by repeat constructor]).
  apply conclude_filed, check_filed.
Qed.

Lemma z_positive_filed key v : filed_under key (z_positive [key] v).
Proof.
  unfold z_positive. destruct v as [[]|]; try (split; [done|by repeat constructor]).
  apply conclude_filed, check_filed.
Qed.

Lemma z_string_array_filed key v : filed_under key (z_string_array [key] v).
Proof.
  unfold z_string_array.
  destruct v as [[]|]; try (split; [done|by repeat constructor]).
  apply conclude_filed. apply Forall_forall. intros i Hi.
  apply list_elem_of_bind in Hi as (p & Hi & Hp).
  apply elem_of_lookup_imap in Hp as (k & x & -> & _).
  unfold z_string in Hi.
  destruct x; cbn in Hi; try (by apply not_elem_of_nil in Hi);
    by apply list_elem_of_singleton in Hi as ->.
Qed.

Lemma head_issues (fields : list (string * list ZodIssue)) :
  Forall (fun kv => Forall (fun i => head (path i) = Some kv.1) kv.2) fields ->
  mjoin (snd <$> fields) <> [] ->
  exists i key,
    head (mjoin (snd <$> fields)) = Some i /\
    (fun r => r.2.1) <$> list_find (fun kv => kv.2 <> []) fields = Some key /\
    head (path i) = Some key.
Proof.
  induction fields as [|[k l] fields IH]; intros Hf Hne; [done|].
  apply Forall_cons in Hf as [Hk Hf]. cbn in *.
  destruct l as [|i l].
  - destruct (IH Hf Hne) as (i & key & Hh & Hfind & Hp).
    exists i, key. split; [done|]. split; [|done].
    rewrite decide_False by (intros H; by apply H).
    destruct (list_find _ fields) as [[n [k' l']]|]; [|done]. by simplify_eq/=.
  - exists i, k. split; [done|]. rewrite decide_True by done.
    split; [done|]. by apply Forall_cons in Hk as [-> _].
Qed.

Section CreateTask.
Variable is_datetime : string -> bool.
Variable parse_date : string -> Z.
Variable new_id : Db -> string.

Lemma create_fields_filed (body : Json) :
  Forall (fun kv => Forall (fun i => head (path i) = Some kv.1) kv.2)
         (create_field_issues is_datetime body).
Proof.
  assert (H : forall key {A} (p : Parsed A), filed_under key p ->
            Forall (fun i => head (path i) = Some key) (issues_of p)).
  { intros key A [a|l]; [constructor|]. by intros [_ H]. }
  unfold create_field_issues. repeat apply Forall_cons_2; try apply Forall_nil_2;
    cbn [fst snd]; apply H.
  - apply z_string_filed.
  - apply z_optional_filed. intros v. apply z_string_filed.
  - apply z_enum_filed.
  - apply z_optional_filed. intros v. apply z_datetime_filed.
  - apply z_string_filed.
  - apply z_optional_filed. intros v. apply z_string_array_filed.
  - apply z_optional_filed. intros v. apply z_positive_filed.
Qed.

Lemma rejected_nonempty key {A} (p : Parsed A) :
  filed_under key p -> value_of p = None -> issues_of p <> [].
Proof. destruct p; [done|]. by intros [H _] _. Qed.

(** The issues of a rejected object are those of its keys, in order. *)
Lemma createTaskSchema_issues (fields : list (string * Json)) (issues : list ZodIssue) :
  createTaskSchema is_datetime (JObj fields) = Invalid issues ->
  issues = mjoin (snd <$> create_field_issues is_datetime (JObj fields)) /\
  issues <> [].
Proof.
  set (body := JObj fields).
  unfold createTaskSchema. cbn [is_object body negb].
  pose proof (rejected_nonempty "title" (title_field body)
                (z_string_filed _ _ _ _)) as H1.
  pose proof (rejected_nonempty "description" (description_field body)
                (z_optional_filed _ _ _ (fun v => z_string_filed _ _ _ v))) as H2.
  pose proof (rejected_nonempty "priority" (priority_field body)
                (z_enum_filed _ _ _)) as H3.
  pose proof (rejected_nonempty "deadline" (deadline_field is_datetime body)
                (z_optional_filed _ _ _ (fun v => z_datetime_filed _ _ v))) as H4.
  pose proof (rejected_nonempty "projectId" (projectId_field body)
                (z_string_filed _ _ _ _)) as H5.
  pose proof (rejected_nonempty "tagIds" (tagIds_field body)
                (z_optional_filed _ _ _ (fun v => z_string_array_filed _ v))) as H6.
  pose proof (rejected_nonempty "estimatedHours" (estimatedHours_field body)
                (z_optional_filed _ _ _ (fun v => z_positive_filed _ v))) as H7.
  assert (Hflat : mjoin (snd <$> create_field_issues is_datetime body)
            = issues_of (title_field body) ++
              issues_of (description_field body) ++
              issues_of (priority_field body) ++
              issues_of (deadline_field is_datetime body) ++
              issues_of (projectId_field body) ++
              issues_of (tagIds_field body) ++
              issues_of (estimatedHours_field body)).
  { cbn. by rewrite app_nil_r. }
  rewrite Hflat. clear Hflat.
  destruct (value_of (title_field body)) eqn:E1;
  destruct (value_of (description_field body)) eqn:E2;
  destruct (value_of (priority_field body)) eqn:E3;
  destruct (value_of (deadline_field is_datetime body)) eqn:E4;
  destruct (value_of (projectId_field body)) eqn:E5;
  destruct (value_of (tagIds_field body)) eqn:E6;
  destruct (value_of (estimatedHours_field body)) eqn:E7;
  try discriminate; intros [= <-]; (split; [done|]);
  intros Happ; repeat (apply app_eq_nil in Happ as [? Happ]); tauto.
Qed.


End CreateTask.



(** *** The list read *)

Lemma ceil_div_50 (n : nat) :
  exists k, js_ceil (js_div (of_nat n) (of_Z 50)) = of_Z k /\
            (50 * (k - 1) < Z.of_nat n <= 50 * k)%Z.
Proof.
  exists (Qceiling (inject_Z (Z.of_nat n) / inject_Z 50)). split.
  - unfold of_nat. rewrite js_div_of_Z by done. unfold num. cbn [js_ceil].
    f_equal. apply Qceiling_comp, Qred_correct.
  - unfold Qceiling, Qfloor, Qdiv, Qmult, Qinv, Qopp, inject_Z. cbn.
    pose proof (Z.div_mod (- (Z.of_nat n * 1)) 50 ltac:(lia)).
    pose proof (Z.mod_pos_bound (- (Z.of_nat n * 1)) 50 ltac:(lia)).
    change (Z.pos (1 * 50)) with 50%Z. lia.
Qed.




End ApiFacts.


(** ** The stable sort behind [orderBy] and [Array.prototype.sort] *)

Lemma insert_sorted_perm {A} (le : A -> A -> bool) x l :
  Api.insert_sorted le x l ≡ₚ x :: l.
Proof.
  induction l as [|y l IH]; [done|]. cbn. destruct (le x y); [done|].
  rewrite IH. apply Permutation_swap.
Qed.

Lemma sort_on_perm {A} (le : A -> A -> bool) l : Api.sort_on le l ≡ₚ l.
Proof.
  induction l as [|x l IH]; [done|]. cbn. fold (Api.sort_on le l).
  by rewrite insert_sorted_perm, IH.
Qed.

Section Sorting.
Context {A : Type} (le : A -> A -> bool) (R : A -> A -> Prop).
Hypothesis le_R : forall a b, le a b = true -> R a b.
Hypothesis R_total : forall a b, le a b = false -> R b a.
Hypothesis R_trans : forall a b c, R a b -> R b c -> R a c.

Lemma insert_sorted_sorted x l :
  StronglySorted R l -> StronglySorted R (Api.insert_sorted le x l).
Proof.
  induction 1 as [|y l Hs IH Hy]; cbn; [repeat constructor|].
  destruct (le x y) eqn:Hle.
  - constructor; [by constructor|]. constructor; [by apply le_R|].
    eapply Forall_impl; [exact Hy|]. intros z Hz. eapply R_trans; [|exact Hz].
    by apply le_R.
  - constructor; [done|]. rewrite insert_sorted_perm.
    constructor; [by apply R_total|done].
Qed.

Lemma sort_on_sorted l : StronglySorted R (Api.sort_on le l).
Proof.
  induction l as [|x l IH]; [constructor|]. cbn. by apply insert_sorted_sorted.
Qed.

End Sorting.


(** ** Guards: sanitising, rate limiting, ownership and origin checks *)

Module GuardFacts.
Import Guards.

(** *** [sanitizeInput] *)

Lemma chars_unchars l : chars (unchars l) = l.
Proof. apply list_ascii_of_string_of_list_ascii. Qed.

Lemma unchars_chars s : unchars (chars s) = s.
Proof. apply string_of_list_ascii_of_string. Qed.

Lemma trim_start_suffix l : exists k, l = k ++ trim_start l.
Proof.
  induction l as [|c l [k IH]]; [by exists []|]. cbn.
  destruct (is_white_space c); [|by exists []].
  exists (c :: k). cbn. by f_equal.
Qed.

Lemma trim_start_head l c : head (trim_start l) = Some c -> is_white_space c = false.
Proof.
  induction l as [|d l IH]; [done|]. cbn.
  destruct (is_white_space d) eqn:Hd; [done|]. cbn. by intros [= <-].
Qed.

Lemma trim_start_clean l :
  (forall c, head l = Some c -> is_white_space c = false) -> trim_start l = l.
Proof.
  destruct l as [|c l]; [done|]. intros H. cbn. by rewrite (H c).
Qed.

Lemma head_rev_last (l : list ascii) : head (rev l) = last l.
Proof.
  induction l as [|c l IH] using rev_ind; [done|].
  by rewrite rev_app_distr, last_snoc.
Qed.

(** What [trim] keeps is a stretch of the list that starts where
    [trim_start] stops. *)
Lemma trim_prefix l : exists k, trim_start l = trim l ++ k.
Proof.
  unfold trim. destruct (trim_start_suffix (rev (trim_start l))) as [k Hk].
  exists (rev k). rewrite <- rev_app_distr, <- Hk. by rewrite rev_involutive.
Qed.

Lemma trim_sublist l : trim l `sublist_of` l.
Proof.
  destruct (trim_prefix l) as [k Hk]. destruct (trim_start_suffix l) as [j Hj].
  rewrite Hj at 2. rewrite Hk. apply sublist_inserts_l, sublist_inserts_r. done.
Qed.

Lemma trim_head l c : head (trim l) = Some c -> is_white_space c = false.
Proof.
  destruct (trim_prefix l) as [k Hk]. intros Hh.
  apply (trim_start_head l). rewrite Hk. by destruct (trim l).
Qed.

(** X1. The output of [sanitizeInput] has no angle bracket, is at most 1000 code
    units long, does not start with white space, and is made of code units
    of the input in their order; an input that already is so, and does not
    end with white space, comes back unchanged. *)
Theorem sanitizeInput_safe (input : string) :
  let out := chars (sanitizeInput input) in
  (forall c, c ∈ out -> c <> "<"%char /\ c <> ">"%char) /\
  length out <= 1000 /\
  (forall c, head out = Some c -> is_white_space c = false) /\
  out `sublist_of` chars input /\
  ((forall c, c ∈ chars input -> c <> "<"%char /\ c <> ">"%char) ->
   length (chars input) <= 1000 ->
   (forall c, head (chars input) = Some c -> is_white_space c = false) ->
   (forall c, last (chars input) = Some c -> is_white_space c = false) ->
   sanitizeInput input = input).
Proof.
  intros out. unfold out, sanitizeInput. rewrite chars_unchars.
  set (kept := filter (fun c => ~ is_angle c) (chars input)).
  assert (Hsub : take 1000 (trim kept) `sublist_of` kept).
  { etrans; [apply sublist_take|apply trim_sublist]. }
  split_and!.
  - intros c Hc. eapply elem_of_sublist in Hc; [|exact Hsub].
    apply list_elem_of_filter in Hc as [Hc _]. unfold is_angle in Hc. tauto.
  - rewrite length_take. lia.
  - intros c Hc. apply (trim_head kept).
    destruct (trim kept); [done|]. exact Hc.
  - etrans; [exact Hsub|apply sublist_filter].
  - intros Hclean Hlen Hhead Hlast.
    assert (Hkept : kept = chars input).
    { unfold kept. clear -Hclean. induction (chars input) as [|c l IH]; [done|].
      rewrite filter_cons, decide_True.
      - f_equal. apply IH. intros d Hd. apply Hclean. by right.
      - unfold is_angle. destruct (Hclean c); [by left|tauto]. }
    rewrite Hkept. unfold trim. rewrite (trim_start_clean _ Hhead).
    rewrite trim_start_clean, rev_involutive.
    + rewrite take_ge by done. apply unchars_chars.
    + intros c Hc. apply Hlast. by rewrite <- head_rev_last.
Qed.

Lemma sanitizeInput_safe_witness :
  sanitizeInput "<b>hi</b>" = "bhi/b" /\ sanitizeInput "plain text" = "plain text".
Proof.
  split; [reflexivity|].
  apply (sanitizeInput_safe "plain text").
  - intros c Hc. apply list_elem_of_In in Hc. simpl in Hc.
    repeat (destruct Hc as [<-|Hc]; [split; discriminate|]). destruct Hc.
  - simpl. lia.
  - intros c [= <-]. reflexivity.
  - intros c [= <-]. reflexivity.
Defined.


(** *** [checkRateLimit] *)

Lemma serve_cons maxRequests windowMs identifier now calls m :
  serve maxRequests windowMs ((identifier, now) :: calls) m =
  let r := checkRateLimit identifier maxRequests windowMs now m in
  let rest := serve maxRequests windowMs calls r.2 in
  (r.1 :: rest.1, rest.2).
Proof. cbn. by destruct checkRateLimit, serve. Qed.

(** Inside a running window the k-th further call is let through exactly
    when the counter plus k is still below the maximum. *)
Lemma serve_in_window identifier maxRequests windowMs times : forall m c r,
  m !! identifier = Some (mkLimit c r) ->
  Forall (fun t => (t <= r)%Z) times ->
  (serve maxRequests windowMs (pair identifier <$> times) m).1 =
  (fun k => bool_decide (Z.of_nat (c + k) < maxRequests)%Z) <$> seq 0 (length times).
Proof.
  induction times as [|t times IH]; intros m c r Hm Hall; [done|].
  apply Forall_cons in Hall as [Ht Hall].
  rewrite fmap_cons, serve_cons. cbn [fst snd length seq fmap list_fmap].
  unfold checkRateLimit. rewrite Hm. cbn [resetTime count].
  destruct (Z.ltb_spec r t) as [?|_]; [lia|].
  rewrite <- seq_shift, <- list_fmap_compose.
  destruct (Z.leb_spec maxRequests (Z.of_nat c)) as [Hfull|Hroom]; cbn [fst snd].
  - f_equal; [rewrite bool_decide_eq_false_2; [done|lia]|].
    rewrite (IH m c r Hm Hall). apply list_fmap_ext. intros _ k _. cbn.
    rewrite !bool_decide_eq_false_2; [done|lia|lia].
  - f_equal; [rewrite bool_decide_eq_true_2; [done|lia]|].
    rewrite (IH _ (S c) r); [|by rewrite lookup_insert_eq|done].
    apply list_fmap_ext. intros _ k _. cbn. apply bool_decide_ext. lia.
Qed.

(** X2. For an identifier not seen before, calls that all fall inside the window
    opened by the first one are let through until [max 1 maxRequests] of
    them have been: the first call always passes, also when the maximum is
    zero or negative. *)
Theorem rate_limit_window identifier maxRequests windowMs now times m :
  m !! identifier = None ->
  Forall (fun t => (t <= now + windowMs)%Z) times ->
  (serve maxRequests windowMs (pair identifier <$> now :: times) m).1 =
  (fun k => bool_decide (Z.of_nat k < Z.max 1 maxRequests)%Z) <$> seq 0 (S (length times)).
Proof.
  intros Hm Hall. rewrite fmap_cons, serve_cons.
  unfold checkRateLimit. rewrite Hm. cbn [fst snd seq fmap list_fmap].
  f_equal; [rewrite bool_decide_eq_true_2; [done|lia]|].
  rewrite (serve_in_window _ _ _ _ _ 1 (now + windowMs)%Z);
    [|by rewrite lookup_insert_eq|done].
  rewrite <- seq_shift, <- list_fmap_compose.
  apply list_fmap_ext. intros _ k _. cbn. apply bool_decide_ext. lia.
Qed.

Lemma rate_limit_window_witness :
  (serve 2 1000 [("u", 5%Z); ("u", 6%Z); ("u", 7%Z); ("u", 1005%Z)] ∅).1 =
  [true; true; false; false].
Proof.
  apply (rate_limit_window "u" 2 1000 5 [6; 7; 1005]%Z ∅).
  - reflexivity.
  - repeat constructor; lia.
Defined.

Lemma checkRateLimit_other identifier other maxRequests windowMs now m :
  other <> identifier ->
  (checkRateLimit other maxRequests windowMs now m).2 !! identifier = m !! identifier.
Proof.
  intros Hne. unfold checkRateLimit.
  destruct (m !! other) as [l|]; repeat case_match; cbn;
    by rewrite ?lookup_insert_ne.
Qed.

Lemma checkRateLimit_local identifier maxRequests windowMs now m1 m2 :
  m1 !! identifier = m2 !! identifier ->
  (checkRateLimit identifier maxRequests windowMs now m1).1 =
  (checkRateLimit identifier maxRequests windowMs now m2).1 /\
  (checkRateLimit identifier maxRequests windowMs now m1).2 !! identifier =
  (checkRateLimit identifier maxRequests windowMs now m2).2 !! identifier.
Proof.
  intros Hm. unfold checkRateLimit. rewrite Hm.
  destruct (m2 !! identifier) as [l|] eqn:H2; repeat case_match; cbn;
    by rewrite ?lookup_insert_eq, ?Hm.
Qed.

Lemma answers_to_cons_eq identifier now calls a answers :
  answers_to identifier ((identifier, now) :: calls) (a :: answers) =
  a :: answers_to identifier calls answers.
Proof. unfold answers_to. cbn [zip zip_with]. by rewrite filter_cons, decide_True. Qed.

Lemma answers_to_cons_ne identifier other now calls a answers :
  other <> identifier ->
  answers_to identifier ((other, now) :: calls) (a :: answers) =
  answers_to identifier calls answers.
Proof.
  intros. unfold answers_to. cbn [zip zip_with]. by rewrite filter_cons, decide_False.
Qed.

(** X3. The answers one identifier gets do not depend on the calls made under
    other identifiers in between: they are the answers to its own calls
    alone. *)
Theorem rate_limit_per_identifier identifier maxRequests windowMs calls : forall m1 m2,
  m1 !! identifier = m2 !! identifier ->
  answers_to identifier calls (serve maxRequests windowMs calls m1).1 =
  (serve maxRequests windowMs (filter (fun c => c.1 = identifier) calls) m2).1.
Proof.
  induction calls as [|[other now] calls IH]; intros m1 m2 Hm; [done|].
  rewrite serve_cons. cbn [fst snd]. rewrite filter_cons. cbn [fst].
  destruct (decide (other = identifier)) as [->|Hne].
  - rewrite answers_to_cons_eq, serve_cons. cbn [fst snd].
    destruct (checkRateLimit_local identifier maxRequests windowMs now m1 m2 Hm)
      as [Ha Hs].
    f_equal; [done|]. by apply IH.
  - rewrite answers_to_cons_ne by done. apply IH.
    by rewrite checkRateLimit_other.
Qed.

Lemma rate_limit_per_identifier_witness :
  answers_to "u" [("u", 1%Z); ("v", 2%Z); ("u", 3%Z); ("v", 4%Z); ("u", 5%Z)]
    (serve 2 1000 [("u", 1%Z); ("v", 2%Z); ("u", 3%Z); ("v", 4%Z); ("u", 5%Z)] ∅).1 =
  [true; true; false].
Proof.
  exact (rate_limit_per_identifier "u" 2 1000
    [("u", 1%Z); ("v", 2%Z); ("u", 3%Z); ("v", 4%Z); ("u", 5%Z)] ∅ ∅ eq_refl).
Defined.


(** *** Ownership checks *)

Lemma verifyTaskOwnership_spec taskId uid db :
  verifyTaskOwnership taskId uid db = true <->
  exists t, t ∈ Api.tasks db /\ id t = taskId /\ userId t = uid.
Proof.
  unfold verifyTaskOwnership, Api.find_task. rewrite bool_decide_eq_true.
  rewrite fmap_is_Some. split.
  - intros [[i t] H]. apply list_find_Some in H as (Hi & [? ?] & _).
    exists t. split_and!; [|done..]. by eapply list_elem_of_lookup_2.
  - intros (t & Hin & Hid & Hu).
    destruct (list_find (fun t => id t = taskId /\ userId t = uid) (Api.tasks db))
      eqn:Hf; [done|].
    apply list_find_None in Hf. rewrite Forall_forall in Hf.
    by destruct (Hf t Hin).
Qed.

Section Owned.
Variables (taskIds : list string) (uid : string) (db : Api.Db).
Hypothesis primary_key : NoDup (id <$> Api.tasks db).

Local Abbreviation found := (owned_among taskIds uid db).

Lemma found_ids_nodup : NoDup (id <$> found).
Proof.
  eapply sublist_NoDup; [exact primary_key|].
  apply fmap_sublist, sublist_filter.
Qed.

Lemma found_ids_listed : id <$> found ⊆+ taskIds.
Proof.
  apply NoDup_submseteq; [apply found_ids_nodup|].
  intros i Hi. apply list_elem_of_fmap in Hi as (t & -> & Ht).
  apply list_elem_of_filter in Ht. tauto.
Qed.

Lemma found_count : length found <= length taskIds.
Proof. rewrite <- (length_fmap id found). apply submseteq_length, found_ids_listed. Qed.

(** X4. With task ids unique in the store, the bulk check agrees with checking
    every task on its own exactly when the list names no task twice; a list
    with a repeated id is refused even when every task in it is owned. *)
Theorem verifyTasksOwnership_spec :
  (NoDup taskIds ->
   (verifyTasksOwnership taskIds uid db = true <->
    forall i, i ∈ taskIds -> verifyTaskOwnership i uid db = true)) /\
  (~ NoDup taskIds -> verifyTasksOwnership taskIds uid db = false).
Proof.
  unfold verifyTasksOwnership. split.
  - intros Hnd. rewrite bool_decide_eq_true. split.
    + intros Hlen i Hi. apply verifyTaskOwnership_spec.
      assert (Hp : id <$> found ≡ₚ taskIds).
      { apply submseteq_length_Permutation; [apply found_ids_listed|].
        rewrite length_fmap. lia. }
      rewrite <- Hp in Hi. apply list_elem_of_fmap in Hi as (t & -> & Ht).
      apply list_elem_of_filter in Ht as [[_ Hu] Hin]. by exists t.
    + intros Hall. apply Nat.le_antisymm; [apply found_count|].
      rewrite <- (length_fmap id found). apply submseteq_length.
      apply NoDup_submseteq; [done|]. intros i Hi.
      destruct (proj1 (verifyTaskOwnership_spec i uid db) (Hall i Hi))
        as (t & Hin & <- & Hu).
      apply list_elem_of_fmap. exists t. split; [done|].
      by apply list_elem_of_filter.
  - intros Hdup. apply bool_decide_eq_false. intros Hlen. apply Hdup.
    assert (Hp : id <$> found ≡ₚ taskIds).
    { apply submseteq_length_Permutation; [apply found_ids_listed|].
      rewrite length_fmap. lia. }
    rewrite <- Hp. apply found_ids_nodup.
Qed.

End Owned.

Lemma verifyTasksOwnership_spec_witness :
  verifyTasksOwnership ["1"; "2"] "user1"
    (Api.mkDb [Examples.task_of "1" TODO 0; Examples.task_of "2" TODO 1] [] []) = true /\
  verifyTasksOwnership ["1"; "1"] "user1"
    (Api.mkDb [Examples.task_of "1" TODO 0; Examples.task_of "2" TODO 1] [] []) = false.
Proof.
  set (db := Api.mkDb [Examples.task_of "1" TODO 0; Examples.task_of "2" TODO 1] [] []).
  assert (Hpk : NoDup (id <$> Api.tasks db)).
  { apply (bool_decide_unpack _). vm_compute. exact I. }
  split.
  - apply (proj1 (verifyTasksOwnership_spec ["1"; "2"] "user1" db Hpk)).
    + apply (bool_decide_unpack _). vm_compute. exact I.
    + intros i Hi. apply list_elem_of_In in Hi. simpl in Hi.
      destruct Hi as [<-|[<-|[]]]; reflexivity.
  - apply (proj2 (verifyTasksOwnership_spec ["1"; "1"] "user1" db Hpk)).
    intros Hnd. apply NoDup_cons in Hnd as [Hn _]. apply Hn. by left.
Defined.


(** *** Origin checks *)

Lemma starts_with_spec s p : starts_with s p = true <-> exists k, s = p ++ k.
Proof.
  revert s. induction p as [|a p IH]; intros s; cbn.
  - split; [by exists s|by destruct s].
  - destruct s as [|b s]; cbn.
    + split; [done|]. by intros [k ?].
    + rewrite andb_true_iff, bool_decide_eq_true, IH. split.
      * intros [-> [k ->]]. by exists k.
      * intros [k [= -> ->]]. split; [done|by exists k].
Qed.

Lemma chars_append a b : chars (String.append a b) = chars a ++ chars b.
Proof.
  unfold chars. induction a as [|c a IH]; [done|].
  simpl. by rewrite IH.
Qed.

Lemma chars_inj a b : chars a = chars b -> a = b.
Proof. intros H. by rewrite <- (unchars_chars a), <- (unchars_chars b), H. Qed.

Lemma endsWith_spec s p : endsWith s p = true <-> exists pre, s = String.append pre p.
Proof.
  unfold endsWith. rewrite starts_with_spec. split.
  - intros [k Hk]. exists (unchars (rev k)). apply chars_inj.
    rewrite chars_append, chars_unchars.
    apply (f_equal (@rev ascii)) in Hk.
    by rewrite rev_app_distr, !rev_involutive in Hk.
  - intros [pre ->]. exists (rev (chars pre)).
    by rewrite chars_append, rev_app_distr.
Qed.

(** X5. The middleware turns away only requests that [validateRequestOrigin]
    refuses as well: a request the helper accepts always passes. *)
Theorem middleware_blocks_less_than_helper (req : Request) :
  validateRequestOrigin req = true -> exists headers, middleware req = Next headers.
Proof.
  unfold validateRequestOrigin, middleware. intros H.
  destruct (startsWith (pathname req) "/api/"); [|by eauto].
  destruct (decide (method req = "GET")) as [Hm|Hm].
  - rewrite (bool_decide_eq_true_2 _ Hm), andb_false_r. eauto.
  - destruct (sensitive (pathname req) && _); [|by eauto].
    destruct (present (origin req)), (present (host req)); try done.
    rewrite H. eauto.
Qed.

Lemma middleware_blocks_less_than_helper_witness :
  exists headers,
    middleware (mkRequest "/api/tasks/7" "PUT" (Some "https://app.test")
                  (Some "app.test") true) = Next headers.
Proof.
  apply middleware_blocks_less_than_helper. reflexivity.
Defined.

(** X6. For a request that is not a GET and carries both headers, the helper
    accepts exactly the origins that have the host as a suffix, whatever
    comes before it, and the middleware lets every such origin through. *)
Theorem origin_check_is_a_suffix_check (req : Request) (o h : string) :
  method req <> "GET" -> origin req = Some o -> host req = Some h -> h <> "" ->
  (validateRequestOrigin req = true <-> exists pre, o = String.append pre h) /\
  (middleware req = InvalidOrigin -> ~ exists pre, o = String.append pre h).
Proof.
  intros Hm Ho Hh Hne.
  assert (Hpo : forall pre, o = String.append pre h -> present (origin req) = Some o).
  { intros pre ->. rewrite Ho. cbn. destruct pre, h; done. }
  assert (Hph : present (host req) = Some h).
  { rewrite Hh. cbn. by destruct h. }
  assert (Hv : validateRequestOrigin req = true <-> exists pre, o = String.append pre h).
  { unfold validateRequestOrigin. rewrite decide_False by done. rewrite Hph. split.
    - rewrite Ho. unfold present. destruct (decide (o = "")); [done|].
      apply endsWith_spec.
    - intros [pre Hpre]. rewrite (Hpo pre Hpre). apply endsWith_spec. eauto. }
  split; [exact Hv|].
  intros Hblock Hsuf. apply Hv in Hsuf.
  destruct (middleware_blocks_less_than_helper req Hsuf) as [hs Hn]. congruence.
Qed.

Lemma origin_check_is_a_suffix_check_witness :
  validateRequestOrigin
    (mkRequest "/api/tasks/7" "DELETE" (Some "https://evil-app.test")
       (Some "app.test") true) = true.
Proof.
  apply (origin_check_is_a_suffix_check _ "https://evil-app.test" "app.test");
    [discriminate|reflexivity|reflexivity|discriminate|].
  by exists "https://evil-".
Defined.

End GuardFacts.


(** ** Deadline alerts *)

Module DeadlineFacts.
Import Deadlines.

Lemma compare_alerts_le a b :
  (compare_alerts a b <=? 0)%Z = true -> by_urgency a b.
Proof.
  unfold compare_alerts, by_urgency. rewrite Z.leb_le.
  repeat case_bool_decide; cbn; destruct (alert_priority a), (alert_priority b);
    cbn; lia.
Qed.

Lemma compare_alerts_gt a b :
  (compare_alerts a b <=? 0)%Z = false -> by_urgency b a.
Proof.
  unfold compare_alerts, by_urgency. rewrite Z.leb_gt.
  repeat case_bool_decide; cbn; destruct (alert_priority a), (alert_priority b);
    cbn; lia.
Qed.

Lemma by_urgency_trans a b c : by_urgency a b -> by_urgency b c -> by_urgency a c.
Proof. unfold by_urgency. lia. Qed.

Section DateFns.
Variables (isToday isTomorrow : Z -> Z -> bool).
Variable differenceInDays : Z -> Z -> Z.
Variable format : Z -> string -> string.

Local Abbreviation alert_for := (alert_for isToday isTomorrow differenceInDays).
Local Abbreviation deadlineAlerts := (deadlineAlerts isToday isTomorrow differenceInDays).

Lemma elem_of_deadlineAlerts now dismissed tasks alert :
  alert ∈ deadlineAlerts now dismissed tasks <->
  exists task, task ∈ tasks /\ alert_for now dismissed task = Some alert.
Proof.
  unfold Deadlines.deadlineAlerts. rewrite sort_on_perm, list_elem_of_omap. done.
Qed.

Lemma alert_for_task now dismissed task alert :
  alert_for now dismissed task = Some alert ->
  taskId alert = id task /\ taskTitle alert = title task /\
  alert_priority alert = priority task /\
  deadline task = Some (alert_deadline alert) /\
  status task <> DONE /\ alertId (id task) ∉ dismissed.
Proof.
  unfold Deadlines.alert_for. destruct (deadline task) as [d|]; [|done].
  repeat case_match; try done; intros [= <-]; done.
Qed.

(** X7. The alerts come out most urgent first: by days remaining, and among
    equal days by priority; every alert belongs to a task that has a
    deadline, is not done and was not dismissed, and carries its id, title
    and priority. *)
Theorem deadlineAlerts_sorted now dismissed tasks :
  StronglySorted by_urgency (deadlineAlerts now dismissed tasks) /\
  forall alert, alert ∈ deadlineAlerts now dismissed tasks ->
    exists task, task ∈ tasks /\
      taskId alert = id task /\ taskTitle alert = title task /\
      alert_priority alert = priority task /\
      deadline task = Some (alert_deadline alert) /\
      status task <> DONE /\ alertId (id task) ∉ dismissed.
Proof.
  split.
  - apply sort_on_sorted.
    + apply compare_alerts_le.
    + apply compare_alerts_gt.
    + apply by_urgency_trans.
  - intros alert Ha. apply elem_of_deadlineAlerts in Ha as (task & Hin & Hal).
    exists task. split; [done|]. by apply alert_for_task in Hal.
Qed.

(** *** Dismissing *)

Lemma alertId_inj a b : alertId a = alertId b -> a = b.
Proof. unfold alertId. simpl. by intros [= ?]. Qed.

Lemma alert_for_dismissed now dismissed task :
  alert_for now dismissed task =
  if decide (alertId (id task) ∈ dismissed) then None else alert_for now ∅ task.
Proof.
  unfold Deadlines.alert_for. destruct (deadline task) as [d|]; [|by case_match].
  destruct (decide (status task = DONE)); [by case_match|].
  destruct (decide (alertId (id task) ∈ dismissed)); [done|].
  by rewrite (decide_False (P := _ ∈ ∅)) by set_solver.
Qed.

Lemma omap_filter {A B} (f g : A -> option B) (P : A -> Prop)
    `{!forall x, Decision (P x)} (l : list A) :
  (forall x, x ∈ l -> f x = if decide (P x) then g x else None) ->
  omap f l = omap g (filter P l).
Proof.
  induction l as [|x l IH]; intros Hl; [done|].
  rewrite filter_cons. cbn. rewrite (Hl x) by by left.
  destruct (decide (P x)); cbn; rewrite IH; try done; intros y Hy; apply Hl; by right.
Qed.

(** X8. [clearAllNotifications] replaces the set of dismissed alerts by the ids
    of the alerts on display, so every alert dismissed before comes back:
    afterwards the alerts are those of the tasks dismissed before. With
    nothing dismissed before, none is left. *)
Theorem clear_all_brings_back_dismissed now dismissed tasks :
  deadlineAlerts now (clearAllNotifications (deadlineAlerts now dismissed tasks)) tasks =
  deadlineAlerts now ∅ (filter (fun task => alertId (id task) ∈ dismissed) tasks) /\
  deadlineAlerts now (clearAllNotifications (deadlineAlerts now ∅ tasks)) tasks = [].
Proof.
  assert (Hgen : forall dismissed,
    deadlineAlerts now (clearAllNotifications (deadlineAlerts now dismissed tasks)) tasks =
    deadlineAlerts now ∅ (filter (fun task => alertId (id task) ∈ dismissed) tasks)).
  { clear dismissed. intros dismissed.
    unfold Deadlines.deadlineAlerts at 1 3. f_equal. apply omap_filter.
    intros task Hin. rewrite alert_for_dismissed.
    set (cleared := clearAllNotifications _).
    assert (Hcl : alertId (id task) ∈ cleared <->
      exists other alert, other ∈ tasks /\ id other = id task /\
        alert_for now dismissed other = Some alert).
    { unfold cleared, clearAllNotifications.
      rewrite elem_of_list_to_set, list_elem_of_fmap. split.
      - intros (alert & Hid & Ha). apply alertId_inj in Hid.
        apply elem_of_deadlineAlerts in Ha as (other & Ho & Hal).
        exists other, alert. split_and!; [done| |done].
        apply alert_for_task in Hal. destruct Hal as [Ht _]. congruence.
      - intros (other & alert & Ho & Hid & Hal). exists alert. split.
        + apply alert_for_task in Hal. destruct Hal as [Ht _]. congruence.
        + apply elem_of_deadlineAlerts. eauto. }
    destruct (decide (alertId (id task) ∈ dismissed)) as [Hd|Hd].
    - rewrite decide_False; [done|]. rewrite Hcl.
      intros (other & alert & _ & Hid & Hal).
      apply alert_for_task in Hal. rewrite Hid in Hal. tauto.
    - destruct (decide (alertId (id task) ∈ cleared)) as [|Hn]; [done|].
      destruct (alert_for now ∅ task) as [alert|] eqn:Hal; [|done].
      destruct Hn. apply Hcl. exists task, alert. split_and!; [done..|].
      by rewrite alert_for_dismissed, decide_False. }
  split; [apply Hgen|]. rewrite Hgen. clear Hgen.
  induction tasks as [|task l IH]; [done|].
  rewrite filter_cons, decide_False by set_solver. exact IH.
Qed.

(** *** Overdue tasks *)

Hypothesis full_days : forall a b, (b <= a)%Z -> (0 <= differenceInDays a b)%Z.

Lemma alert_for_days now dismissed task alert :
  alert_for now dismissed task = Some alert -> (0 <= daysRemaining alert)%Z.
Proof.
  unfold Deadlines.alert_for. destruct (deadline task) as [d|]; [|done].
  destruct (decide _); [done|]. destruct (decide _); [done|].
  destruct (Z.ltb_spec d now).
  { intros [= <-]. cbn. apply full_days. lia. }
  destruct (isToday now d); [by intros [= <-]|].
  destruct (isTomorrow now d); [by intros [= <-]|].
  destruct (_ <=? 7)%Z; [|done]. intros [= <-]. cbn. by apply full_days.
Qed.

Lemma not_shown_overdue alert :
  (0 <= daysRemaining alert)%Z -> getNotificationType alert <> overdue.
Proof.
  intros H. unfold getNotificationType.
  destruct (Z.ltb_spec (daysRemaining alert) 0); [lia|]. by repeat case_match.
Qed.

(** X9. No alert is ever shown as overdue: the days of a task past its deadline
    are counted from the deadline to now, so they are not negative, and
    the alert reads as one for a coming deadline. *)
Theorem no_alert_is_overdue now dismissed tasks alert :
  alert ∈ deadlineAlerts now dismissed tasks ->
  (0 <= daysRemaining alert)%Z /\
  getNotificationType alert <> overdue /\
  getNotificationMessage alert =
    (if (daysRemaining alert =? 0)%Z then "Due today"
     else if (daysRemaining alert =? 1)%Z then "Due tomorrow"
     else "Due in " +:+ pretty (daysRemaining alert) +:+ " days").
Proof.
  intros Ha. apply elem_of_deadlineAlerts in Ha as (task & _ & Hal).
  apply alert_for_days in Hal.
  split; [done|]. split; [by apply not_shown_overdue|].
  unfold getNotificationMessage.
  by destruct (Z.ltb_spec (daysRemaining alert) 0); [lia|].
Qed.

(** X10. The urgent view holds the alerts of the today view, and beyond them
    only alerts of URGENT priority: a task of lower priority that is a full
    day or more past its deadline is not in it. *)
Theorem urgent_view now dismissed tasks :
  let shown := deadlineAlerts now dismissed tasks in
  filteredAlerts today shown `sublist_of` filteredAlerts urgent shown /\
  filteredAlerts urgent shown `sublist_of` filteredAlerts all shown /\
  forall alert, alert ∈ filteredAlerts urgent shown <->
    alert ∈ shown /\ (daysRemaining alert = 0%Z \/ alert_priority alert = URGENT).
Proof.
  intros shown. cbn [filteredAlerts]. split_and!.
  - induction shown as [|a l IH]; [done|]. rewrite !filter_cons.
    destruct (decide (daysRemaining a = 0%Z)) as [Ha|Ha].
    + rewrite decide_True by lia. by constructor.
    + destruct (decide _); [by constructor|done].
  - apply sublist_filter.
  - intros alert. rewrite list_elem_of_filter. split.
    + intros [Hu Ha]. split; [done|].
      apply elem_of_deadlineAlerts in Ha as (task & _ & Hal).
      apply alert_for_days in Hal. destruct Hu; [left; lia|by right].
    + intros [Ha Hu]. split; [|done]. destruct Hu; [left; lia|by right].
Qed.

(** X11. A task that the analytics count as overdue is labelled Overdue on the
    board, and unless dismissed it has an alert, whose days are the full
    days since the deadline. *)
Theorem overdue_task_on_board_and_in_alerts now dismissed tasks task :
  task ∈ tasks -> Analytics.overdue now task ->
  getDeadlineText isToday isTomorrow format now (deadline task) = Some "Overdue" /\
  getDeadlineColor isToday isTomorrow now (deadline task) = "text-red-500" /\
  (alertId (id task) ∉ dismissed ->
   exists alert d, alert ∈ deadlineAlerts now dismissed tasks /\
     deadline task = Some d /\
     taskId alert = id task /\
     daysRemaining alert = differenceInDays now d /\
     getNotificationType alert <> overdue).
Proof.
  intros Hin Hov. unfold Analytics.overdue in Hov.
  destruct (deadline task) as [d|] eqn:Hd; [|done]. destruct Hov as [Hlt Hst].
  cbn. destruct (Z.ltb_spec d now); [|lia]. split_and!; [done..|].
  intros Hdis. 
  set (alert := mkAlert (id task) (title task) d (differenceInDays now d) (priority task)).
  assert (Hal : alert_for now dismissed task = Some alert).
  { unfold Deadlines.alert_for. rewrite Hd, !decide_False by done.
    destruct (Z.ltb_spec d now); [done|lia]. }
  assert (Ha : alert ∈ deadlineAlerts now dismissed tasks).
  { apply elem_of_deadlineAlerts. eauto. }
  exists alert, d. split_and!; try done.
  apply not_shown_overdue. by apply (alert_for_days now dismissed task).
Qed.

End DateFns.

Lemma full_days_utc a b : (b <= a)%Z -> (0 <= differenceInDays a b)%Z.
Proof. intros H. unfold differenceInDays. apply Z.quot_pos; [lia|done]. Qed.

Lemma no_alert_is_overdue_witness :
  let late := mkTask "7" "Report" None TODO LOW (Some 0%Z) 0 "p" "u"
                (Some 0%Z) 0%Z None None None in
  let alert := mkAlert "7" "Report" 0 3 LOW in
  deadlineAlerts isToday isTomorrow differenceInDays (3 * Analytics.MS_PER_DAY + 5) ∅ [late]
    = [alert] /\
  getNotificationMessage alert = "Due in 3 days".
Proof.
  intros late alert. split; [reflexivity|].
  refine (proj2 (proj2 (no_alert_is_overdue isToday isTomorrow differenceInDays
    full_days_utc (3 * Analytics.MS_PER_DAY + 5) ∅ [late] alert _))).
  left.
Defined.

Lemma urgent_view_witness :
  let late := mkTask "7" "Report" None TODO LOW (Some 0%Z) 0 "p" "u"
                (Some 0%Z) 0%Z None None None in
  filteredAlerts urgent
    (deadlineAlerts isToday isTomorrow differenceInDays
       (3 * Analytics.MS_PER_DAY + 5) ∅ [late]) = [].
Proof.
  intros late.
  destruct (urgent_view isToday isTomorrow differenceInDays full_days_utc
    (3 * Analytics.MS_PER_DAY + 5) ∅ [late]) as (_ & _ & H).
  destruct (filteredAlerts urgent _) as [|alert rest] eqn:E; [done|].
  destruct (proj1 (H alert) ltac:(left)) as [Ha Hu].
  apply list_elem_of_In in Ha. simpl in Ha. destruct Ha as [<-|[]].
  cbn in Hu. destruct Hu; discriminate.
Defined.

Lemma overdue_task_on_board_and_in_alerts_witness :
  let late := mkTask "7" "Report" None TODO LOW (Some 0%Z) 0 "p" "u"
                (Some 0%Z) 0%Z None None None in
  getDeadlineText isToday isTomorrow (fun _ _ => "Jan 1")
    (3 * Analytics.MS_PER_DAY + 5) (deadline late) = Some "Overdue".
Proof.
  intros late.
  refine (proj1 (overdue_task_on_board_and_in_alerts isToday isTomorrow differenceInDays
    (fun _ _ => "Jan 1") full_days_utc (3 * Analytics.MS_PER_DAY + 5) ∅ [late] late _ _)).
  - by left.
  - split; [reflexivity|discriminate].
Defined.

End DeadlineFacts.


(** ** Charts *)

Module ChartFacts.
Import Charts.

Lemma status_counts tasks : forall c,
  foldl bump_status c tasks =
  mkStatusCounts (count_TODO c + with_status TODO tasks)
                 (count_IN_PROGRESS c + with_status IN_PROGRESS tasks)
                 (count_REVIEW c + with_status REVIEW tasks)
                 (count_DONE c + with_status DONE tasks).
Proof.
  unfold with_status. induction tasks as [|t l IH]; intros c.
  - destruct c. cbn. f_equal; lia.
  - cbn [foldl]. rewrite IH. rewrite !filter_cons. unfold bump_status.
    destruct (status t); cbn; repeat (case_decide; try done); cbn; f_equal; lia.
Qed.

Lemma status_partition tasks :
  with_status TODO tasks + with_status IN_PROGRESS tasks +
  with_status REVIEW tasks + with_status DONE tasks = length tasks.
Proof.
  unfold with_status. induction tasks as [|t l IH]; [done|].
  rewrite !filter_cons.
  destruct (status t); repeat (case_decide; try done); cbn; lia.
Qed.

Lemma priority_counts tasks : forall c,
  foldl bump_priority c tasks =
  mkPriorityCounts (count_LOW c + with_priority LOW tasks)
                   (count_MEDIUM c + with_priority MEDIUM tasks)
                   (count_HIGH c + with_priority HIGH tasks)
                   (count_URGENT c + with_priority URGENT tasks).
Proof.
  unfold with_priority. induction tasks as [|t l IH]; intros c.
  - destruct c. cbn. f_equal; lia.
  - cbn [foldl]. rewrite IH. rewrite !filter_cons. unfold bump_priority.
    destruct (priority t); cbn; repeat (case_decide; try done); cbn; f_equal; lia.
Qed.

Lemma priority_partition tasks :
  with_priority LOW tasks + with_priority MEDIUM tasks +
  with_priority HIGH tasks + with_priority URGENT tasks = length tasks.
Proof.
  unfold with_priority. induction tasks as [|t l IH]; [done|].
  rewrite !filter_cons.
  destruct (priority t); repeat (case_decide; try done); cbn; lia.
Qed.

Lemma sum_positive_values (items : list ChartData) :
  sum_list (value <$> filter (fun item => 0 < value item) items) =
  sum_list (value <$> items).
Proof.
  induction items as [|i l IH]; [done|]. rewrite filter_cons.
  destruct (decide (0 < value i)); cbn; rewrite IH; lia.
Qed.

(** X12. The status chart has one slice per status that some task has, in the
    order To Do, In Progress, Review, Done; the value of a slice is the
    number of tasks with that status, and the values add up to the number
    of tasks. *)
Theorem statusDistribution_counts (tasks : list Task) :
  statusDistribution tasks =
    filter (fun item => 0 < value item)
      [ mkChart "To Do" (with_status TODO tasks) "#3B82F6";
        mkChart "In Progress" (with_status IN_PROGRESS tasks) "#10B981";
        mkChart "Review" (with_status REVIEW tasks) "#F59E0B";
        mkChart "Done" (with_status DONE tasks) "#EF4444" ] /\
  sum_list (value <$> statusDistribution tasks) = length tasks /\
  (forall item, item ∈ statusDistribution tasks -> 0 < value item).
Proof.
  unfold statusDistribution. rewrite status_counts. cbn [count_TODO
    count_IN_PROGRESS count_REVIEW count_DONE Nat.add].
  split_and!; [done| |].
  - rewrite sum_positive_values. cbn. rewrite <- (status_partition tasks). lia.
  - intros item Hi. by apply list_elem_of_filter in Hi as [? _].
Qed.

(** X13. The same for the priority chart, in the order Low, Medium, High,
    Urgent. *)
Theorem priorityDistribution_counts (tasks : list Task) :
  priorityDistribution tasks =
    filter (fun item => 0 < value item)
      [ mkChart "Low" (with_priority LOW tasks) "#8B5CF6";
        mkChart "Medium" (with_priority MEDIUM tasks) "#06B6D4";
        mkChart "High" (with_priority HIGH tasks) "#84CC16";
        mkChart "Urgent" (with_priority URGENT tasks) "#F97316" ] /\
  sum_list (value <$> priorityDistribution tasks) = length tasks /\
  (forall item, item ∈ priorityDistribution tasks -> 0 < value item).
Proof.
  unfold priorityDistribution. rewrite priority_counts. cbn [count_LOW
    count_MEDIUM count_HIGH count_URGENT Nat.add].
  split_and!; [done| |].
  - rewrite sum_positive_values. cbn. rewrite <- (priority_partition tasks). lia.
  - intros item Hi. by apply list_elem_of_filter in Hi as [? _].
Qed.

(** *** Project progress *)

Lemma percentage_bounds (c t : nat) :
  c <= t -> 0 < t ->
  (0 <= inject_Z (Z.of_nat c) / inject_Z (Z.of_nat t) * 100 <= 100)%Q.
Proof.
  intros Hc Ht.
  assert (H0 : (0 < inject_Z (Z.of_nat t))%Q).
  { apply (Qlt_le_trans _ (inject_Z 1)); [done|]. rewrite <- Zle_Qle. lia. }
  assert (Hlo : (0 <= inject_Z (Z.of_nat c) / inject_Z (Z.of_nat t))%Q).
  { apply Qle_shift_div_l; [done|]. rewrite Qmult_0_l.
    change 0%Q with (inject_Z 0). rewrite <- Zle_Qle. lia. }
  assert (Hhi : (inject_Z (Z.of_nat c) / inject_Z (Z.of_nat t) <= 1)%Q).
  { apply Qle_shift_div_r; [done|]. rewrite Qmult_1_l. rewrite <- Zle_Qle. lia. }
  split.
  - apply Qmult_le_0_compat; [done|discriminate].
  - apply (Qle_trans _ (1 * 100)); [|discriminate].
    apply Qmult_le_compat_r; [done|discriminate].
Qed.

Lemma tasks_per_project (tasks : list Task) (ids : list string) :
  NoDup ids ->
  sum_list ((fun i => length (filter (fun task => projectId task = i) tasks)) <$> ids)
  <= length tasks.
Proof.
  intros Hnd. induction tasks as [|t l IH]; cbn [length].
  - induction ids as [|i ids IHi]; [done|]. cbn. apply IHi.
    by apply NoDup_cons in Hnd as [_ ?].
  - etrans; [|apply le_n_S, IH].
    assert (Hone : length (filter (fun i => projectId t = i) ids) <= 1).
    { clear IH. induction Hnd as [|i ids Hi Hnd IHn]; [cbn; lia|].
      rewrite filter_cons. destruct (decide (projectId t = i)) as [<-|]; [|exact IHn].
      cbn. assert (filter (fun i => projectId t = i) ids = []) as ->; [|cbn; lia].
      clear -Hi. induction ids as [|j ids IHj]; [done|].
      rewrite filter_cons, decide_False.
      - apply IHj. intros ?. apply Hi. by right.
      - intros E. apply Hi. rewrite E. by left. }
    assert (Hstep :
      sum_list ((fun i => length (filter (fun task => projectId task = i) (t :: l))) <$> ids)
      = sum_list ((fun i => length (filter (fun task => projectId task = i) l)) <$> ids)
        + length (filter (fun i => projectId t = i) ids)).
    { clear. induction ids as [|i ids IHi]; [done|].
      cbn [fmap list_fmap sum_list sum_list_with]. rewrite IHi, !filter_cons.
      destruct (decide (projectId t = i)); cbn; lia. }
    lia.
Qed.

Lemma sum_positive_totals (items : list Progress) :
  sum_list (total <$> filter (fun item => 0 < total item) items) =
  sum_list (total <$> items).
Proof.
  induction items as [|i l IH]; [done|]. rewrite filter_cons.
  destruct (decide (0 < total i)); cbn; rewrite IH; lia.
Qed.



(** *** The summary *)

(** X15. In the summary the completed and the pending tasks make up the total,
    and the overdue tasks are among the pending ones. *)
Theorem analytics_counts (now : Z) (tasks : list Task) :
  let s := Analytics.analytics now tasks in
  Analytics.completedTasks s + Analytics.pendingTasks s = Analytics.totalTasks s /\
  Analytics.overdueTasks s <= Analytics.pendingTasks s /\
  Analytics.pendingTasks s = length (filter (fun task => status task <> DONE) tasks).
Proof.
  cbn.
  assert (Hpart : length (filter (fun task => status task = DONE) tasks) +
                  length (filter (fun task => status task <> DONE) tasks) = length tasks).
  { induction tasks as [|t l IH]; [done|]. rewrite !filter_cons.
    destruct (decide (status t = DONE)); destruct (decide (status t <> DONE));
      try done; cbn; lia. }
  assert (Hov : length (filter (Analytics.overdue now) tasks) <=
                length (filter (fun task => status task <> DONE) tasks)).
  { clear Hpart. induction tasks as [|t l IH]; [done|]. rewrite !filter_cons.
    destruct (decide (Analytics.overdue now t)) as [Ho|].
    - rewrite decide_True; [cbn; lia|].
      unfold Analytics.overdue in Ho. destruct (deadline t); tauto.
    - destruct (decide _); cbn; lia. }
  lia.
Qed.

End ChartFacts.


(** ** The route handlers and the store *)

Module StoreFacts.
Import Api Store.

Lemma find_task_Some tid uid db t :
  find_task tid uid db = Some t -> t ∈ tasks db /\ id t = tid /\ userId t = uid.
Proof.
  unfold find_task. intros H. apply fmap_Some in H as ([i t'] & H & ->).
  apply list_find_Some in H as (Hi & [? ?] & _).
  split_and!; [|done..]. by eapply list_elem_of_lookup_2.
Qed.

Lemma find_project_Some pid uid db p :
  find_project pid uid db = Some p ->
  p ∈ projects db /\ p_id p = pid /\ p_userId p = uid.
Proof.
  unfold find_project. intros H. apply fmap_Some in H as ([i p'] & H & ->).
  apply list_find_Some in H as (Hi & [? ?] & _).
  split_and!; [|done..]. by eapply list_elem_of_lookup_2.
Qed.

Lemma find_task_None tid uid db :
  find_task tid uid db = None ->
  forall t, t ∈ tasks db -> ~ (id t = tid /\ userId t = uid).
Proof.
  unfold find_task. intros H t Ht. apply fmap_None in H.
  apply list_find_None in H. rewrite Forall_forall in H. by apply H.
Qed.

(** An update that keeps the id and the owner of every row finds the same
    row, updated. *)
Lemma find_task_fmap (f : Task -> Task) tid uid db :
  (forall t, id (f t) = id t /\ userId (f t) = userId t) ->
  find_task tid uid (set_tasks db (f <$> tasks db)) = f <$> find_task tid uid db.
Proof.
  intros Hf. unfold find_task. cbn [tasks set_tasks].
  rewrite list_find_fmap. rewrite <- !option_fmap_compose.
  erewrite (list_find_ext (_ ∘ f)); [by apply option_fmap_ext; intros []|].
  intros t. cbn. destruct (Hf t) as [-> ->]. done.
Qed.

(** *** What keeps the store intact *)

Lemma integrity_update_tasks (f : Task -> Task) db :
  (forall t, id (f t) = id t /\ userId (f t) = userId t) ->
  (forall t, t ∈ tasks db ->
     exists p, p ∈ projects db /\ p_id p = projectId (f t) /\ p_userId p = userId t) ->
  integrity db -> integrity (set_tasks db (f <$> tasks db)).
Proof.
  intros Hf Hp [H1 H2 H3 H4].
  assert (Hids : id <$> (f <$> tasks db) = id <$> tasks db).
  { rewrite <- list_fmap_compose. apply list_fmap_ext. intros _ t _. apply Hf. }
  split; cbn [tasks projects taskTags set_tasks].
  - by rewrite Hids.
  - done.
  - intros t' Ht. apply list_elem_of_fmap in Ht as (t & -> & Ht).
    destruct (Hp t Ht) as (p & ? & ? & ?). exists p. split_and!; try done.
    by rewrite (proj2 (Hf t)).
  - intros tt Htt. rewrite Hids. by apply H4.
Qed.

Lemma integrity_set_taskTags db rows :
  (forall tt, tt ∈ rows -> tt.1 ∈ id <$> tasks db) ->
  integrity db -> integrity (set_taskTags db rows).
Proof. intros Hr [H1 H2 H3 H4]. by split. Qed.

Lemma integrity_delete_task_rows (doomed : Task -> Prop)
    `{!forall t, Decision (doomed t)} db :
  integrity db -> integrity (delete_task_rows doomed db).
Proof.
  intros [H1 H2 H3 H4]. split; cbn [tasks projects taskTags delete_task_rows].
  - eapply sublist_NoDup; [exact H1|]. apply fmap_sublist, sublist_filter.
  - done.
  - intros t Ht. apply list_elem_of_filter in Ht as [_ Ht]. by apply H3.
  - intros tt Htt. apply list_elem_of_filter in Htt as [Hgone Htt].
    apply H4 in Htt. apply list_elem_of_fmap in Htt as (t & Hid & Ht).
    apply list_elem_of_fmap. exists t. split; [done|].
    apply list_elem_of_filter. split; [|done].
    intros Hd. apply Hgone. rewrite Hid. apply list_elem_of_fmap. exists t.
    split; [done|]. by apply list_elem_of_filter.
Qed.

Lemma integrity_update_projects (g : Project -> Project) db :
  (forall p, p ∈ projects db -> p_id (g p) = p_id p /\ p_userId (g p) = p_userId p) ->
  integrity db -> integrity (set_projects db (g <$> projects db)).
Proof.
  intros Hg [H1 H2 H3 H4].
  split; cbn [tasks projects taskTags set_projects]; try done.
  - rewrite <- list_fmap_compose. erewrite list_fmap_ext; [exact H2|].
    intros i p Hp. apply Hg. by eapply list_elem_of_lookup_2.
  - intros t Ht. destruct (H3 t Ht) as (p & Hp & ? & ?). exists (g p).
    destruct (Hg p Hp) as [-> ->]. split_and!; try done.
    apply list_elem_of_fmap. eauto.
Qed.

(** With unique ids, the row a handler found is the only row with its id. *)
Lemma unique_task db t t' :
  NoDup (id <$> tasks db) -> t ∈ tasks db -> t' ∈ tasks db -> id t = id t' -> t = t'.
Proof.
  intros Hnd Ht Ht' Hid.
  apply list_elem_of_lookup in Ht as [i Hi]. apply list_elem_of_lookup in Ht' as [j Hj].
  assert (i = j); [|congruence].
  eapply NoDup_lookup; [exact Hnd| |]; rewrite list_lookup_fmap.
  - by rewrite Hi.
  - rewrite Hj. cbn. by rewrite Hid.
Qed.

(** *** The bulk update *)

Lemma bulk_row_keys now uid item t :
  id (bulk_row now uid item t) = id t /\ userId (bulk_row now uid item t) = userId t /\
  projectId (bulk_row now uid item t) = projectId t.
Proof. unfold bulk_row. by case_decide. Qed.

Lemma bulk_update_one_Some now uid item db :
  is_Some (find_task (b_id item) uid db) ->
  bulk_update_one now uid item db =
    Some (set_tasks db (bulk_row now uid item <$> tasks db)).
Proof. intros [t Ht]. unfold bulk_update_one. by rewrite Ht. Qed.

Lemma bulk_update_one_owned now uid item db db1 tid :
  bulk_update_one now uid item db = Some db1 ->
  is_Some (find_task tid uid db1) <-> is_Some (find_task tid uid db).
Proof.
  unfold bulk_update_one. destruct (find_task (b_id item) uid db); [|done].
  intros [= <-]. fold (bulk_row now uid item).
  rewrite find_task_fmap, fmap_is_Some; [done|].
  intros row. destruct (bulk_row_keys now uid item row) as (? & ? & _). done.
Qed.


(** *** Deleting *)

(** X17. A deleted task is gone: it reads as not found, no tag association of it
    is left, and the rows with another id are the ones there were. *)
Theorem delete_then_read (uid tid : string) (db : Db) :
  let r := DELETE_task (Some uid) tid db in
  r_success r.1 = Some true ->
  GET_task (Some uid) tid r.2 = (failure 404 "Task not found", r.2) /\
  tags_of tid r.2 = [] /\
  (forall t, id t <> tid -> t ∈ tasks r.2 <-> t ∈ tasks db) /\
  projects r.2 = projects db /\
  (forall other, other <> tid -> tags_of other r.2 = tags_of other db).
Proof.
  unfold DELETE_task. destruct (find_task tid uid db) as [existing|] eqn:He; [|done].
  cbn [fst snd]. intros _.
  apply find_task_Some in He as (He & Hid & Hu).
  assert (Hgone : tid ∈ id <$> filter (fun t => id t = tid) (tasks db)).
  { apply list_elem_of_fmap. exists existing. split; [done|].
    by apply list_elem_of_filter. }
  split_and!.
  - unfold GET_task.
    destruct (find_task tid uid (delete_task_rows _ db)) as [t|] eqn:Hf; [|done].
    apply find_task_Some in Hf as (Ht & Htid & _). cbn in Ht.
    apply list_elem_of_filter in Ht as [Hn _]. done.
  - unfold tags_of. cbn [taskTags delete_task_rows].
    rewrite list_filter_filter.
    match goal with |- _ <$> ?l = [] => assert (l = []) as ->; [|done] end.
    induction (taskTags db) as [|tt l IH]; [done|].
    rewrite filter_cons, decide_False; [done|]. intros [-> Hn]. done.
  - intros t Hne. cbn [tasks delete_task_rows]. rewrite list_elem_of_filter. tauto.
  - done.
  - intros other Hne. unfold tags_of. cbn [taskTags delete_task_rows].
    f_equal. rewrite list_filter_filter. apply list_filter_iff.
    intros tt. split; [tauto|]. intros Ho. split; [done|].
    intros Hin. apply list_elem_of_fmap in Hin as (t & Ht1 & Ht2).
    apply list_elem_of_filter in Ht2 as [Ht2 _]. congruence.
Qed.

(** X18. Deleting a project takes its tasks along, and their tag associations;
    the project then reads as not found, and the tasks of other projects
    stay. *)
Theorem delete_project_cascades (uid pid : string) (db : Db) :
  let r := DELETE_project (Some uid) pid db in
  r_success r.1 = Some true ->
  GET_project (Some uid) pid r.2 = (failure 404 "Project not found", r.2) /\
  (forall t, t ∈ tasks r.2 <-> t ∈ tasks db /\ projectId t <> pid) /\
  (forall t, t ∈ tasks db -> projectId t = pid -> tags_of (id t) r.2 = []) /\
  (forall p, p ∈ projects r.2 <-> p ∈ projects db /\ p_id p <> pid).
Proof.
  unfold DELETE_project. destruct (find_project pid uid db) as [found|] eqn:Hf; [|done].
  cbn [fst snd]. intros _. split_and!.
  - unfold GET_project.
    match goal with |- context [find_project pid uid ?d] =>
      destruct (find_project pid uid d) as [p|] eqn:Hp; [|done] end.
    apply find_project_Some in Hp as (Hp & Hpid & _). cbn in Hp.
    apply list_elem_of_filter in Hp as [Hn _]. done.
  - intros t. cbn [tasks set_projects delete_task_rows].
    rewrite list_elem_of_filter. tauto.
  - intros t Ht Hp. unfold tags_of. cbn [taskTags set_projects delete_task_rows].
    rewrite list_filter_filter.
    match goal with |- _ <$> ?l = [] => assert (l = []) as ->; [|done] end.
    induction (taskTags db) as [|tt l IH]; [done|].
    rewrite filter_cons, decide_False; [done|]. intros [Hid Hn]. apply Hn.
    rewrite Hid. apply list_elem_of_fmap. exists t. split; [done|].
    by apply list_elem_of_filter.
  - intros p. cbn [projects set_projects delete_task_rows].
    rewrite list_elem_of_filter. tauto.
Qed.

(** *** Helpers for the handlers *)

Lemma z_optional_None {A} (parse : option Json -> Parsed A) a :
  value_of (z_optional parse None) = Some a -> a = None.
Proof. cbn. congruence. Qed.

Lemma z_optional_string_min p n m max v s :
  value_of (z_optional (z_string p (Some (n, m)) max) v) = Some (Some s) ->
  n <= String.length s.
Proof.
  destruct v as [[]|]; try done. cbn.
  destruct (Nat.leb_spec n (String.length s0)); cbn.
  - destruct max as [k|]; [destruct (_ <=? k); cbn|]; intros [= <-]; done.
  - done.
Qed.

Lemma project_update_data_keys body now p p' :
  project_update_data body now p = Some p' ->
  p_id p' = p_id p /\ p_userId p' = p_userId p /\ p_createdAt p' = p_createdAt p /\
  p_updatedAt p' = now.
Proof.
  unfold project_update_data. intros H.
  repeat (apply bind_Some in H as (? & _ & H)). by injection H as <-.
Qed.

(** The two ways [PUT_project] ends: without a change, or with the found
    project replaced. *)
Lemma PUT_project_cases now session pid body db :
  (PUT_project now session pid body db).2 = db \/
  exists uid p p' b,
    session = Some uid /\ body = Some b /\ find_project pid uid db = Some p /\
    project_update_data b now p = Some p' /\
    PUT_project now session pid body db =
      (succeed 200 (ProjectPayload p' []
          (length (filter (fun t => projectId t = pid) (tasks db)))) None,
       set_projects db ((fun q => if decide (p_id q = pid) then p' else q) <$> projects db)).
Proof.
  unfold PUT_project. destruct session as [uid|]; [|by left].
  destruct body as [b|]; [|by left].
  destruct (find_project pid uid db) as [p|] eqn:Hf; [|by destruct b; left].
  destruct (project_update_data b now p) as [p'|] eqn:Hd.
  - destruct b; try (by left); right; eexists _, _, _, _; split_and!; done.
  - destruct b; by left.
Qed.

Lemma unique_project db p p' :
  NoDup (p_id <$> projects db) -> p ∈ projects db -> p' ∈ projects db ->
  p_id p = p_id p' -> p = p'.
Proof.
  intros Hnd Hp Hp' Hid.
  apply list_elem_of_lookup in Hp as [i Hi]. apply list_elem_of_lookup in Hp' as [j Hj].
  assert (i = j); [|congruence].
  eapply NoDup_lookup; [exact Hnd| |]; rewrite list_lookup_fmap.
  - by rewrite Hi.
  - rewrite Hj. cbn. by rewrite Hid.
Qed.

Lemma bulk_update_all_integrity now uid items : forall db,
  integrity db -> integrity (bulk_update_all now uid items db).1.
Proof.
  induction items as [|item items IH]; intros db Hi; [done|]. cbn.
  destruct (bulk_update_one now uid item db) as [db1|] eqn:Hone.
  - apply IH. unfold bulk_update_one in Hone.
    destruct (find_task _ _ db) as [found|]; [|done]. injection Hone as <-.
    fold (bulk_row now uid item). apply integrity_update_tasks; [| |done].
    + intros t. destruct (bulk_row_keys now uid item t) as (? & ? & _). done.
    + intros t Ht. destruct (bulk_row_keys now uid item t) as (_ & _ & ->).
      by apply (task_project db).
  - specialize (IH db Hi). by destruct (bulk_update_all now uid items db).
Qed.

Lemma filter_fmap_frame {A} (P : A -> Prop) `{!forall x, Decision (P x)}
    (f : A -> A) (l : list A) :
  (forall x, x ∈ l -> P x -> f x = x) ->
  (forall x, x ∈ l -> ~ P x -> ~ P (f x)) ->
  filter P (f <$> l) = filter P l.
Proof.
  induction l as [|x l IH]; intros Hfix Hnot; [done|].
  rewrite fmap_cons, !filter_cons.
  destruct (decide (P x)) as [Hx|Hx].
  - rewrite (Hfix x) by (done || by left). rewrite decide_True by done.
    f_equal. apply IH; intros y Hy; [apply Hfix|apply Hnot]; by right.
  - rewrite decide_False by (apply Hnot; done || by left).
    apply IH; intros y Hy; [apply Hfix|apply Hnot]; by right.
Qed.

Lemma filter_filter_frame {A} (P Q : A -> Prop) `{!forall x, Decision (P x)}
    `{!forall x, Decision (Q x)} (l : list A) :
  (forall x, x ∈ l -> P x -> Q x) -> filter P (filter Q l) = filter P l.
Proof.
  induction l as [|x l IH]; intros Hl; [done|]. rewrite !filter_cons.
  destruct (decide (Q x)) as [Hq|Hq].
  - rewrite filter_cons. destruct (decide (P x)); [f_equal|];
      apply IH; intros y Hy; apply Hl; by right.
  - rewrite decide_False by (intros Hp; apply Hq, Hl; done || by left).
    apply IH; intros y Hy; apply Hl; by right.
Qed.

Lemma bulk_update_all_others now uid items : forall db,
  others_tasks uid (bulk_update_all now uid items db).1 = others_tasks uid db /\
  projects (bulk_update_all now uid items db).1 = projects db.
Proof.
  induction items as [|item items IH]; intros db; [done|]. cbn.
  destruct (bulk_update_one now uid item db) as [db1|] eqn:Hone.
  - destruct (IH db1) as [-> ->]. unfold bulk_update_one in Hone.
    destruct (find_task _ _ db) as [found|]; [|done]. injection Hone as <-.
    fold (bulk_row now uid item). split; [|done].
    unfold others_tasks. cbn [tasks set_tasks]. apply filter_fmap_frame.
    + intros t _ Hu. unfold bulk_row. rewrite decide_False; [done|tauto].
    + intros t _ Hu. by destruct (bulk_row_keys now uid item t) as (_ & -> & _).
  - specialize (IH db). by destruct (bulk_update_all now uid items db).
Qed.

Lemma sublist_rev {A} (l1 l2 : list A) :
  l1 `sublist_of` l2 -> rev l1 `sublist_of` rev l2.
Proof.
  induction 1 as [|x l1 l2 _ IH|x l1 l2 _ IH]; cbn.
  - done.
  - by apply sublist_app.
  - by apply sublist_inserts_r.
Qed.

Lemma sort_on_head_max (l : list Task) (m : Task) :
  head (sort_on (fun a b => (order b <=? order a)%Z) l) = Some m ->
  forall t, t ∈ l -> (order t <= order m)%Z.
Proof.
  intros Hh t Ht.
  assert (Hs : StronglySorted (fun a b : Task => (order b <= order a)%Z)
                 (sort_on (fun a b => (order b <=? order a)%Z) l)).
  { apply sort_on_sorted.
    - intros a b H. by apply Z.leb_le.
    - intros a b H. apply Z.leb_gt in H. lia.
    - intros a b c. lia. }
  rewrite <- (sort_on_perm (fun a b => (order b <=? order a)%Z) l) in Ht.
  destruct (sort_on _ l) as [|x rest]; [done|]. injection Hh as ->.
  apply StronglySorted_inv in Hs as [_ Hall]. rewrite Forall_forall in Hall.
  apply elem_of_cons in Ht as [->|Ht]; [lia|]. by apply Hall.
Qed.

Section Handlers.
Variable is_datetime : string -> bool.
Variable parse_date : string -> Z.
Variable contains_insensitive : string -> string -> bool.
Variable new_id : Db -> string.

Local Abbreviation GET_tasks := (GET_tasks contains_insensitive).
Local Abbreviation POST_tasks := (POST_tasks is_datetime parse_date new_id).
Local Abbreviation PUT_task := (PUT_task is_datetime parse_date).

(** What a valid update carries, key by key. *)
Lemma updateTaskSchema_Valid body v :
  updateTaskSchema is_datetime body = Valid v ->
  is_object body = true /\
  value_of (z_optional (z_string ["title"] (Some (1, Text "Title is required")) (Some 200))
              (prop "title" body)) = Some (v_title v) /\
  value_of (z_optional (z_string ["description"] None None) (prop "description" body))
    = Some (v_description v) /\
  value_of (z_optional (z_enum ["status"] statuses) (prop "status" body))
    = Some (v_status v) /\
  value_of (z_optional (z_enum ["priority"] priorities) (prop "priority" body))
    = Some (v_priority v) /\
  value_of (z_optional (z_order ["order"]) (prop "order" body)) = Some (v_order v) /\
  value_of (z_optional (z_string ["projectId"] (Some (1, BuiltIn (too_small_string 1))) None)
              (prop "projectId" body)) = Some (v_projectId v) /\
  value_of (z_optional (z_string_array ["tagIds"]) (prop "tagIds" body))
    = Some (v_tagIds v) /\
  value_of (z_optional (z_positive ["estimatedHours"]) (prop "estimatedHours" body))
    = Some (v_estimatedHours v) /\
  value_of (z_optional (z_positive ["actualHours"]) (prop "actualHours" body))
    = Some (v_actualHours v) /\
  (prop "deadline" body = None -> v_deadline v = None).
Proof.
  unfold updateTaskSchema. destruct (is_object body); [|done]. cbn [negb]. cbv zeta.
  repeat match goal with
  | |- context [match value_of ?p with _ => _ end] =>
      let E := fresh "E" in destruct (value_of p) eqn:E; [|done]
  end.
  intros [= <-]. cbn. split_and!; try done.
  intros Hd. rewrite Hd in *. cbn in *. congruence.
Qed.

(** *** Integrity is kept *)


(** *** Rows of other users *)

(** X20. In an intact store no handler touches a task or a project of another
    user, whatever the signed-in user sends. *)
Theorem handlers_touch_only_own_rows (now : Z) (uid : string) (db : Db) :
  integrity db ->
  let kept (r : Reply * Db) :=
    others_tasks uid r.2 = others_tasks uid db /\
    others_projects uid r.2 = others_projects uid db in
  (forall pid body, kept (PUT_project now (Some uid) pid body db)) /\
  (forall pid, kept (DELETE_project (Some uid) pid db)) /\
  (forall body, kept (POST_tasks now (Some uid) body db)) /\
  (forall body, kept (PUT_tasks now (Some uid) body db)) /\
  (forall tid body, kept (PUT_task now (Some uid) tid body db)) /\
  (forall tid, kept (DELETE_task (Some uid) tid db)).
Proof.
  clear contains_insensitive. intros Hi kept. unfold kept. split_and!; intros.
  - destruct (PUT_project_cases now (Some uid) pid body db)
      as [->|(uid' & p & p' & b & [= <-] & Hb & Hf & Hd & ->)]; [done|]. cbn [snd].
    split; [done|]. unfold others_projects. cbn [projects set_projects].
    apply project_update_data_keys in Hd as (Hid & Hu & _).
    apply find_project_Some in Hf as (Hin & Hpid & Hpu).
    assert (Hsame : forall q, q ∈ projects db -> p_id q = pid -> q = p).
    { intros q Hq Hqid. apply (unique_project db); [apply Hi|done..|congruence]. }
    apply filter_fmap_frame.
    + intros q Hq Hqu. case_decide as Hqid; [|done].
      apply Hsame in Hqid as ->; done.
    + intros q Hq Hqu. case_decide as Hqid; [|done]. intros Hp'. congruence.
  - unfold DELETE_project. destruct (find_project pid uid db) as [found|] eqn:Hf; [|done].
    apply find_project_Some in Hf as (Hin & Hpid & Hpu). cbn [snd].
    unfold others_tasks, others_projects.
    cbn [tasks projects set_projects delete_task_rows]. split.
    + apply filter_filter_frame. intros t Ht Hu Hp. apply Hu.
      destruct (task_project db Hi t Ht) as (q & Hq & Hqid & <-).
      assert (q = found) as ->; [|done].
      apply (unique_project db); [apply Hi|done..|congruence].
    + apply filter_filter_frame. intros q Hq Hu Hqid. apply Hu.
      assert (q = found) as ->; [|done].
      apply (unique_project db); [apply Hi|done..|congruence].
  - unfold Api.POST_tasks. destruct body as [body|]; [|done].
    destruct (createTaskSchema is_datetime body) as [d|]; [|done].
    destruct (find_project _ uid db) as [p|]; [|done]. cbn [snd].
    set (task := mkTask _ _ _ _ _ _ _ _ _ _ _ _ _ _).
    assert (others_tasks uid (set_tasks db (tasks db ++ [task])) = others_tasks uid db).
    { unfold others_tasks. cbn [tasks set_tasks].
      rewrite filter_app, filter_cons, decide_False by (cbn; tauto).
      by rewrite filter_nil, app_nil_r. }
    by destruct (c_tagIds d) as [[|tagId rest]|].
  - unfold PUT_tasks. destruct body as [[[] [items|]]|]; try done.
    destruct (bulk_update_all_others now uid items db) as [H1 H2].
    destruct (bulk_update_all now uid items db) as [db1 []]; cbn in *;
      unfold others_projects; by rewrite H2.
  - unfold Api.PUT_task. destruct body as [body|]; [|done].
    destruct (updateTaskSchema is_datetime body) as [v|]; [|done].
    destruct (find_task tid uid db) as [existing|] eqn:He; [|done].
    apply find_task_Some in He as (He & Heid & Heu).
    match goal with |- context [if ?b then _ else _] => destruct b end; [done|].
    cbn [snd].
    set (d := updateData parse_date now v existing).
    assert (others_tasks uid
              (set_tasks db ((fun t => if decide (id t = tid) then apply_data now d t else t)
                             <$> tasks db)) = others_tasks uid db).
    { unfold others_tasks. cbn [tasks set_tasks]. apply filter_fmap_frame.
      - intros t Ht Hu. case_decide as Hid; [|done]. destruct Hu.
        assert (t = existing) as ->; [|done].
        apply (unique_task db); [apply Hi|done..|congruence].
      - intros t Ht Hu. by case_decide. }
    by destruct (v_tagIds v).
  - unfold DELETE_task. destruct (find_task tid uid db) as [existing|] eqn:He; [|done].
    apply find_task_Some in He as (He & Heid & Heu). cbn [snd]. split; [|done].
    unfold others_tasks. cbn [tasks delete_task_rows].
    apply filter_filter_frame. intros t Ht Hu Hid. apply Hu.
    assert (t = existing) as ->; [|done].
    apply (unique_task db); [apply Hi|done..|congruence].
Qed.

(** *** Writing, then reading *)




(** *** The list read *)


(** *** Refusals *)


End Handlers.

Lemma two_users_intact : integrity Samples.two_users.
Proof.
  split.
  - apply (bool_decide_unpack _). vm_compute. exact I.
  - apply (bool_decide_unpack _). vm_compute. exact I.
  - intros t Ht. apply list_elem_of_In in Ht. simpl in Ht.
    destruct Ht as [<-|[<-|[<-|[]]]]; eexists.
    + split; [left|]. done.
    + split; [left|]. done.
    + split; [right; left|]. done.
  - intros tt Htt. apply list_elem_of_In in Htt. simpl in Htt.
    destruct Htt as [<-|[<-|[]]]; apply (bool_decide_unpack _); vm_compute; exact I.
Qed.



Lemma handlers_touch_only_own_rows_witness :
  others_tasks "user1" (DELETE_project (Some "user1") "p1" Samples.two_users).2 =
  others_tasks "user1" Samples.two_users.
Proof.
  destruct (handlers_touch_only_own_rows Examples.any_datetime Examples.epoch
              Samples.fresh_id 9 "user1" Samples.two_users two_users_intact)
    as (_ & Hdel & _).
  apply (Hdel "p1").
Defined.





Lemma delete_then_read_witness :
  GET_task (Some "user1") "1" (DELETE_task (Some "user1") "1" Samples.two_users).2 =
  (failure 404 "Task not found", (DELETE_task (Some "user1") "1" Samples.two_users).2).
Proof.
  apply (delete_then_read "user1" "1" Samples.two_users). reflexivity.
Defined.

Lemma delete_project_cascades_witness :
  tasks (DELETE_project (Some "user1") "p1" Samples.two_users).2 =
    [mkTask "3" "Review" None DONE HIGH None 0 "p2" "user2"
            (Some 2%Z) 5%Z (Some 5%Z) None None] /\
  GET_project (Some "user1") "p1" (DELETE_project (Some "user1") "p1" Samples.two_users).2 =
    (failure 404 "Project not found",
     (DELETE_project (Some "user1") "p1" Samples.two_users).2).
Proof.
  split; [reflexivity|].
  apply (delete_project_cascades "user1" "p1" Samples.two_users). reflexivity.
Defined.

End StoreFacts.


(** ** Error responses *)

Module ErrorFacts.
Import Errors.

(** X26. Outside development a response tells the class of what was thrown and
    nothing else: not the message, the stack, the issues, the [meta] of a
    store error or the context. It is never a success, and its status is
    400, 404, 409 or 500. *)
Theorem production_responses_do_not_leak (a b : Thrown) (context context' : string) :
  same_class a b ->
  (handleGenericError false a context).2 = (handleGenericError false b context').2 /\
  body_success (handleGenericError false a context).2 = false /\
  http_status (handleGenericError false a context).2 ∈ [400; 404; 409; 500].
Proof.
  intros Hc. split_and!.
  - destruct a as [| e | | |], b as [| e' | | |]; try done. cbn in Hc.
    unfold handleGenericError, handlePrismaError. rewrite Hc.
    by repeat case_decide.
  - destruct a as [| e | | |]; try done. unfold handleGenericError, handlePrismaError.
    by repeat case_decide.
  - destruct a as [| e | | |]; cbn; try (apply (bool_decide_unpack _); by vm_compute).
    unfold handlePrismaError.
    repeat case_decide; cbn; apply (bool_decide_unpack _); by vm_compute.
Qed.

Lemma production_responses_do_not_leak_witness :
  (handleGenericError false (Error "connect ECONNREFUSED 10.0.0.5:27017" None) "GET").2 =
  (handleGenericError false (AppError TASK_NOT_FOUND None) "PUT").2.
Proof.
  apply (production_responses_do_not_leak
           (Error "connect ECONNREFUSED 10.0.0.5:27017" None)
           (AppError TASK_NOT_FOUND None) "GET" "PUT").
  exact I.
Defined.

(** X27. An [AppError] that reaches [withErrorHandling] is answered as an unknown
    error with status 500: the status and the code it carries are used only
    by its own [toErrorResponse]. *)
Theorem thrown_app_error_loses_its_status (isDevelopment : bool)
    (errorDetails : ErrorDetails) (stack : option string) (context : string) :
  status errorDetails <> 500 ->
  exists log response,
    withErrorHandling (R := unit) isDevelopment context (inl (AppError errorDetails stack))
      = inr (log, response) /\
    http_status response = 500 /\ body_code response = "UNKNOWN_ERROR" /\
    http_status (toErrorResponse errorDetails (Some context)).2 = status errorDetails /\
    body_code (toErrorResponse errorDetails (Some context)).2 = code errorDetails /\
    response <> (toErrorResponse errorDetails (Some context)).2.
Proof.
  intros Hs. eexists _, _. split; [reflexivity|]. cbn. split_and!; try done.
  intros H. apply (f_equal http_status) in H. cbn in H. congruence.
Qed.

Lemma thrown_app_error_loses_its_status_witness :
  exists log response,
    withErrorHandling (R := unit) false "DELETE /api/tasks" (inl (AppError TASK_NOT_FOUND None))
      = inr (log, response) /\
    http_status response = 500.
Proof.
  destruct (thrown_app_error_loses_its_status false TASK_NOT_FOUND None "DELETE /api/tasks")
    as (log & response & H & Hs & _); [discriminate|].
  by exists log, response.
Defined.

End ErrorFacts.


(** ** The create-task form and the endpoint it posts to *)

Module FormFacts.
Import Api TaskForm.

Lemma conclude_Valid {A} (a b : A) (issues : list ZodIssue) :
  conclude a issues = Valid b -> a = b /\ issues = [].
Proof. destruct issues; [|done]. by intros [= ->]. Qed.

Lemma check_nil ok i : check ok i = [] -> ok = true.
Proof. by destruct ok. Qed.

Lemma taskSchema_Valid now input data :
  taskSchema now input = Valid data ->
  3 <= String.length (title data) <= 200 /\
  1 <= String.length (projectId data) /\
  in_priority input = priority_name (priority data) /\
  (forall d, deadline data = Some d -> (now < d)%Z) /\
  title data = in_title input /\ description data = in_description input /\
  deadline data = in_deadline input /\ projectId data = in_projectId input.
Proof.
  unfold taskSchema. cbv zeta.
  destruct (title_field (in_title input)) as [t|] eqn:Ht; [|done].
  destruct (z_enum _ _ _) as [p|] eqn:Hp; [|done].
  destruct (deadline_field now (in_deadline input)) as [dl|] eqn:Hd; [|done].
  destruct (projectId_field (in_projectId input)) as [pid|] eqn:Hpid; [|done].
  cbn. intros [= <-]. cbn.
  apply conclude_Valid in Ht as [<- Ht]. apply app_eq_nil in Ht as [Ht1 Ht2].
  apply check_nil, Nat.leb_le in Ht1. apply check_nil, Nat.leb_le in Ht2.
  apply conclude_Valid in Hd as [<- Hd]. apply check_nil in Hd.
  apply conclude_Valid in Hpid as [<- Hpid]. apply check_nil, Nat.leb_le in Hpid.
  split_and!; try done.
  - cbn in Hp. repeat case_decide; simplify_eq/=; done.
  - intros d Hdl. rewrite Hdl in Hd. by apply Z.ltb_lt.
Qed.

Section Submit.
Variable is_datetime : string -> bool.
Variable parse_date : string -> Z.
Variable new_id : Db -> string.
Variable toISOString : Z -> string.
Hypothesis iso_is_datetime : forall d, is_datetime (toISOString d) = true.

(** X28. What the form accepts, the endpoint accepts: the payload of a form
    that passed [taskSchema] passes [createTaskSchema] with the same title,
    priority, deadline and project, so posting it is answered 201, or 404
    when the project is not one of the caller's, and never 400. An empty
    description is sent, and stored, as the empty string. *)
Theorem form_submission_passes_validation (now : Z) (input : FormInput)
    (data : TaskFormValues) (uid : string) (db : Db) :
  taskSchema now input = Valid data ->
  createTaskSchema is_datetime (payload toISOString data) =
    Valid (mkCreate (title data) (Some (Cache.or_else (description data) ""))
             (priority data) (toISOString <$> deadline data) (projectId data)
             None None) /\
  http (POST_tasks is_datetime parse_date new_id now (Some uid)
          (Some (payload toISOString data)) db).1 ∈ [201; 404].
Proof.
  intros Hv. apply taskSchema_Valid in Hv as ([Ht1 Ht2] & Hp & _ & _).
  assert (Hs : createTaskSchema is_datetime (payload toISOString data) =
    Valid (mkCreate (title data) (Some (Cache.or_else (description data) ""))
             (priority data) (toISOString <$> deadline data) (projectId data)
             None None)).
  { assert (prop "title" (payload toISOString data) = Some (JStr (title data))) as E1
      by (unfold payload; by destruct (deadline data)).
    assert (prop "description" (payload toISOString data)
            = Some (JStr (Cache.or_else (description data) ""))) as E2
      by (unfold payload; by destruct (deadline data)).
    assert (prop "priority" (payload toISOString data)
            = Some (JStr (priority_name (priority data)))) as E3
      by (unfold payload; by destruct (deadline data)).
    assert (prop "deadline" (payload toISOString data)
            = (fun d => JStr (toISOString d)) <$> deadline data) as E4
      by (unfold payload; by destruct (deadline data)).
    assert (prop "projectId" (payload toISOString data)
            = Some (JStr (projectId data))) as E5
      by (unfold payload; by destruct (deadline data)).
    assert (prop "tagIds" (payload toISOString data) = None) as E6
      by (unfold payload; by destruct (deadline data)).
    assert (prop "estimatedHours" (payload toISOString data) = None) as E7
      by (unfold payload; by destruct (deadline data)).
    unfold createTaskSchema.
    replace (is_object (payload toISOString data)) with true by done.
    unfold Api.title_field, Api.description_field, Api.priority_field,
      Api.deadline_field, Api.projectId_field, Api.tagIds_field,
      Api.estimatedHours_field.
    rewrite E1, E2, E3, E4, E5, E6, E7.
    assert (Htitle : z_string ["title"] (Some (1, Text "Title is required")) (Some 200)
                       (Some (JStr (title data))) = Valid (title data)).
    { unfold z_string. rewrite (proj2 (Nat.leb_le 1 _)) by lia.
      by rewrite (proj2 (Nat.leb_le _ 200)) by lia. }
    assert (Hpid : z_string ["projectId"] (Some (1, Text "Project ID is required")) None
                     (Some (JStr (projectId data))) = Valid (projectId data)).
    { unfold z_string. by rewrite (proj2 (Nat.leb_le 1 _)) by lia. }
    assert (Hprio : z_enum ["priority"] priorities
                      (Some (JStr (priority_name (priority data)))) = Valid (priority data)).
    { by destruct (priority data). }
    rewrite Htitle, Hprio, Hpid. cbn [negb].
    destruct (deadline data) as [d|]; cbn; [rewrite iso_is_datetime|]; done. }
  split; [exact Hs|].
  unfold POST_tasks. rewrite Hs. cbn [c_projectId].
  destruct (find_project _ uid db); cbn; set_solver.
Qed.

End Submit.

Lemma form_submission_passes_validation_witness :
  http (POST_tasks Examples.any_datetime Examples.epoch Samples.fresh_id 9 (Some "user1")
          (Some (payload (fun _ => "2030-01-01T00:00:00.000Z")
                   (mkValues "Plan the week" None HIGH (Some 20%Z) "p1")))
          Samples.two_users).1 ∈ [201; 404].
Proof.
  apply (form_submission_passes_validation Examples.any_datetime Examples.epoch
           Samples.fresh_id (fun _ => "2030-01-01T00:00:00.000Z") (fun _ => eq_refl)
           9 (mkInput "Plan the week" None "HIGH" (Some 20%Z) "p1")).
  reflexivity.
Defined.

End FormFacts.


(** ** The lanes of the board *)

Module LaneFacts.
Import Board.

Lemma insert_by_order_insert_sorted h a l :
  insert_by_order h a l =
  Api.insert_sorted (fun a b => (order_at h a <=? order_at h b)%Z) a l.
Proof. induction l as [|b l IH]; [done|]. cbn. by rewrite IH. Qed.

Lemma sort_by_order_sort_on h l :
  sort_by_order h l = Api.sort_on (fun a b => (order_at h a <=? order_at h b)%Z) l.
Proof.
  induction l as [|a l IH]; [done|]. unfold sort_by_order, Api.sort_on in *.
  cbn [foldr]. by rewrite IH, insert_by_order_insert_sorted.
Qed.

Lemma lanes_partition h (tasks : list addr) :
  valid h tasks ->
  filter (fun a => status <$> h !! a = Some TODO) tasks ++
  filter (fun a => status <$> h !! a = Some IN_PROGRESS) tasks ++
  filter (fun a => status <$> h !! a = Some REVIEW) tasks ++
  filter (fun a => status <$> h !! a = Some DONE) tasks ≡ₚ tasks.
Proof.
  unfold valid. induction 1 as [|a l Ha _ IH]; [done|].
  apply lookup_lt_is_Some in Ha as [t Ht]. rewrite !filter_cons, Ht. cbn.
  destruct (status t); repeat (case_decide; try done); cbn;
    rewrite <- ?Permutation_middle; by rewrite IH.
Qed.

(** X29. The board is laid out as the four lanes To Do, In Progress, Review and
    Done; a lane holds the tasks of its status and no other, in ascending
    order, and every task of the list is in exactly one lane. *)
Theorem organize_sorts_lanes (h : Heap) (tasks : list addr) :
  col_id <$> organize h tasks = [TODO; IN_PROGRESS; REVIEW; DONE] /\
  (forall s,
     lane_addrs (organize h tasks) s ≡ₚ
       filter (fun a => status <$> h !! a = Some s) tasks /\
     StronglySorted (fun a b => (order_at h a <= order_at h b)%Z)
       (lane_addrs (organize h tasks) s)) /\
  (valid h tasks -> all_addrs (organize h tasks) ≡ₚ tasks).
Proof.
  split_and!.
  - done.
  - intros s.
    assert (Hl : lane_addrs (organize h tasks) s
                 = sort_by_order h (filter (fun a => status <$> h !! a = Some s) tasks))
      by by destruct s.
    rewrite Hl. split; [apply BoardFacts.sort_by_order_perm|].
    rewrite sort_by_order_sort_on. apply sort_on_sorted.
    + intros a b H. by apply Z.leb_le.
    + intros a b H. apply Z.leb_gt in H. lia.
    + intros a b c. lia.
  - intros Hv. etrans; [|apply (lanes_partition h tasks Hv)].
    cbn. rewrite !BoardFacts.sort_by_order_perm. by rewrite app_nil_r.
Qed.

Lemma organize_sorts_lanes_witness :
  all_addrs (organize (heap Examples.sparse_todo) [0; 1]) ≡ₚ [0; 1].
Proof.
  apply (organize_sorts_lanes (heap Examples.sparse_todo) [0; 1]).
  unfold valid. repeat constructor.
Defined.

End LaneFacts.


(** ** A drag on its way to the store *)

Module WireFacts.
Import Api Wire.

Section Handlers.
Variable is_datetime : string -> bool.
Variable parse_date : string -> Z.


End Handlers.


End WireFacts.
